(** * Pokemon Duel Bot: battle scorer and duel state machine

    A shallow embedding of [image_generator.py] (effectiveness table,
    type advantage, attribute boosts, weighted stats, battle score),
    of the decision part of [pokemon_api.py] (legendary list) and of
    [duel_manager.py] (the [Duel] object, the [DuelManager] registries,
    eligibility validation, round resolution, match end and history).

    Conventions of the embedding:
    - a Python [float] is a binary64 primitive float, with the same
      rounding as CPython's arithmetic; a Python [int] is a [Z];
    - a Python [str] is a [string] of ASCII characters;
    - a [dict] keyed by participant id whose iteration order is observed
      ([max], [all], [any]) is an association list in insertion order;
      a [dict] or [set] that is only looked up is a [gmap] or a [gset];
    - awaited platform calls (send, edit, delete, sleep, image
      rendering) change nothing in the state, are taken to return, and
      are left out; answers of the creature data provider and the clock
      are inputs of the handler;
    - the handlers are given twice.  First each of [handle_reaction],
      [handle_message], [start_duel] and [end_duel] is one function
      from its first line to its return, which is what it does when no
      other handler runs while it is suspended; [reachable] is what the
      bot reaches that way.  Then, in the part on the handlers between
      their suspensions, each is cut at its awaits and a schedule
      interleaves the pieces; [uninterrupted_is_step] and
      [reachable_one_at_a_time] relate the two. *)

From Stdlib Require Import ZArith List String Ascii Bool Lia Floats Uint63.
From Stdlib Require Import Sorted.
From stdpp Require Import gmap strings list pretty.

Set Warnings "-inexact-float".
Set Default Proof Using "Type".

(** ** Python values *)

Module Py.

(** [str.lower] on ASCII text: the letters A..Z move to a..z. *)
Definition lower_ascii (c : ascii) : ascii :=
  let n := nat_of_ascii c in
  if (65 <=? n)%nat && (n <=? 90)%nat then ascii_of_nat (n + 32) else c.

Fixpoint lower (s : string) : string :=
  match s with
  | EmptyString => EmptyString
  | String c s' => String (lower_ascii c) (lower s')
  end.

(** [s.split(sep)[0]]: the text before the first separator. *)
Fixpoint split_head (sep : ascii) (s : string) : string :=
  match s with
  | EmptyString => EmptyString
  | String c s' =>
      if Ascii.eqb c sep then EmptyString else String c (split_head sep s')
  end.

(** [str.encode()]: the bytes of an ASCII text. *)
Fixpoint encode (s : string) : list Z :=
  match s with
  | EmptyString => []
  | String c s' => Z.of_nat (nat_of_ascii c) :: encode s'
  end.

(** The conversion of an [int] operand in mixed [int]/[float]
    arithmetic.  It is exact below 2^53 and correctly rounded below
    2^63, as in CPython; base stats and boosts are far below. *)
Definition float_of_int (z : Z) : float :=
  match z with
  | Z0 => 0%float
  | Zpos _ => PrimFloat.of_uint63 (Uint63.of_Z z)
  | Zneg p => (- PrimFloat.of_uint63 (Uint63.of_Z (Zpos p)))%float
  end.

(** [x > y] on floats. *)
Definition gt (x y : float) : bool := PrimFloat.ltb y x.

(** [max(xs)] on a non-empty list of floats: CPython keeps the first
    item and replaces it only by an item that compares greater. *)
Definition max_float (first : float) (rest : list float) : float :=
  fold_left (fun m x => if gt x m then x else m) rest first.

(** A [dict] in insertion order. *)
Section Dict.
Context {V : Type}.

Definition dict : Type := list (Z * V).

Fixpoint get (d : dict) (k : Z) : option V :=
  match d with
  | [] => None
  | (k', v) :: d' => if Z.eqb k' k then Some v else get d' k
  end.

(** [d[k] = v]: an existing key keeps its position, a new key goes
    to the end. *)
Fixpoint set (d : dict) (k : Z) (v : V) : dict :=
  match d with
  | [] => [(k, v)]
  | (k', v') :: d' =>
      if Z.eqb k' k then (k', v) :: d' else (k', v') :: set d' k v
  end.

Definition keys (d : dict) : list Z := map fst d.
Definition values (d : dict) : list V := map snd d.

(** [{k: v for k in ks}] *)
Definition from_keys (ks : list Z) (v : V) : dict :=
  fold_left (fun d k => set d k v) ks [].
End Dict.
Arguments dict V : clear implicits.

(** [d[k] += 1]; [None] stands for the KeyError on a missing key. *)
Definition incr (d : dict Z) (k : Z) : option (dict Z) :=
  match get d k with
  | Some v => Some (set d k (v + 1)%Z)
  | None => None
  end.

(** [max(d, key=d.get)]: the first key, in insertion order, whose value
    no later key exceeds. [None] stands for the ValueError on an empty
    dict. *)
Fixpoint max_key_from (best : Z) (bestv : Z) (d : dict Z) : Z :=
  match d with
  | [] => best
  | (k, v) :: d' =>
      if (bestv <? v)%Z then max_key_from k v d' else max_key_from best bestv d'
  end.

Definition max_key (d : dict Z) : option Z :=
  match d with
  | [] => None
  | (k, v) :: d' => Some (max_key_from k v d')
  end.

End Py.

(** ** hashlib.md5 (RFC 1321), on bytes as integers in [0, 256) *)

Module Md5.
Local Open Scope Z_scope.

Definition add32 (a b : Z) : Z := (a + b) mod 2 ^ 32.
Definition not32 (a : Z) : Z := Z.lxor a 0xffffffff.
Definition rotl32 (x c : Z) : Z :=
  Z.lor (Z.shiftl x c mod 2 ^ 32) (Z.shiftr x (32 - c)).

Definition K : list Z :=
  [ 0xd76aa478; 0xe8c7b756; 0x242070db; 0xc1bdceee;
    0xf57c0faf; 0x4787c62a; 0xa8304613; 0xfd469501;
    0x698098d8; 0x8b44f7af; 0xffff5bb1; 0x895cd7be;
    0x6b901122; 0xfd987193; 0xa679438e; 0x49b40821;
    0xf61e2562; 0xc040b340; 0x265e5a51; 0xe9b6c7aa;
    0xd62f105d; 0x02441453; 0xd8a1e681; 0xe7d3fbc8;
    0x21e1cde6; 0xc33707d6; 0xf4d50d87; 0x455a14ed;
    0xa9e3e905; 0xfcefa3f8; 0x676f02d9; 0x8d2a4c8a;
    0xfffa3942; 0x8771f681; 0x6d9d6122; 0xfde5380c;
    0xa4beea44; 0x4bdecfa9; 0xf6bb4b60; 0xbebfbc70;
    0x289b7ec6; 0xeaa127fa; 0xd4ef3085; 0x04881d05;
    0xd9d4d039; 0xe6db99e5; 0x1fa27cf8; 0xc4ac5665;
    0xf4292244; 0x432aff97; 0xab9423a7; 0xfc93a039;
    0x655b59c3; 0x8f0ccc92; 0xffeff47d; 0x85845dd1;
    0x6fa87e4f; 0xfe2ce6e0; 0xa3014314; 0x4e0811a1;
    0xf7537e82; 0xbd3af235; 0x2ad7d2bb; 0xeb86d391 ].

Definition R : list Z :=
  [ 7; 12; 17; 22; 7; 12; 17; 22; 7; 12; 17; 22; 7; 12; 17; 22;
    5; 9; 14; 20; 5; 9; 14; 20; 5; 9; 14; 20; 5; 9; 14; 20;
    4; 11; 16; 23; 4; 11; 16; 23; 4; 11; 16; 23; 4; 11; 16; 23;
    6; 10; 15; 21; 6; 10; 15; 21; 6; 10; 15; 21; 6; 10; 15; 21 ].

Definition zth (l : list Z) (i : Z) : Z := nth (Z.to_nat i) l 0.

Definition state : Type := Z * Z * Z * Z.

Definition round (M : list Z) (st : state) (i : Z) : state :=
  let '(a, b, c, d) := st in
  let '(f, g) :=
    if i <? 16 then (Z.lor (Z.land b c) (Z.land (not32 b) d), i)
    else if i <? 32 then
      (Z.lor (Z.land d b) (Z.land (not32 d) c), (5 * i + 1) mod 16)
    else if i <? 48 then (Z.lxor (Z.lxor b c) d, (3 * i + 5) mod 16)
    else (Z.lxor c (Z.lor b (not32 d)), (7 * i) mod 16) in
  let f' := add32 (add32 (add32 f a) (zth K i)) (zth M g) in
  (d, add32 b (rotl32 f' (zth R i)), b, c).

(** Little-endian 32-bit words of a block, and bytes of a word. *)
Fixpoint words (bs : list Z) (n : nat) : list Z :=
  match n, bs with
  | S n', b0 :: b1 :: b2 :: b3 :: bs' =>
      (b0 + 256 * b1 + 65536 * b2 + 16777216 * b3) :: words bs' n'
  | _, _ => []
  end.

Definition word_bytes (w : Z) : list Z :=
  [ w mod 256; (w / 256) mod 256; (w / 65536) mod 256;
    (w / 16777216) mod 256 ].

Definition block (h : state) (bs : list Z) : state :=
  let M := words bs 16 in
  let '(a, b, c, d) := fold_left (round M) (map Z.of_nat (seq 0 64)) h in
  let '(a0, b0, c0, d0) := h in
  (add32 a0 a, add32 b0 b, add32 c0 c, add32 d0 d).

(** Padding: a 1 bit, zeros up to 56 modulo 64, the bit length on 64
    bits, little-endian. *)
Definition pad (msg : list Z) : list Z :=
  let len := Z.of_nat (length msg) in
  let zeros := Z.to_nat ((55 - len) mod 64) in
  let bits := (8 * len) mod 2 ^ 64 in
  msg ++ [128] ++ repeat 0 zeros
      ++ word_bytes (bits mod 2 ^ 32) ++ word_bytes (bits / 2 ^ 32).

Fixpoint blocks (n : nat) (h : state) (bs : list Z) : state :=
  match n with
  | O => h
  | S n' => blocks n' (block h (firstn 64 bs)) (skipn 64 bs)
  end.

Definition digest (msg : list Z) : list Z :=
  let p := pad msg in
  let '(a, b, c, d) :=
    blocks (length p / 64)
      (0x67452301, 0xefcdab89, 0x98badcfe, 0x10325476) p in
  word_bytes a ++ word_bytes b ++ word_bytes c ++ word_bytes d.

Definition hex_digit (n : Z) : ascii :=
  nth (Z.to_nat n)
    (list_ascii_of_string "0123456789abcdef") "0"%char.

Fixpoint hex (bs : list Z) : string :=
  match bs with
  | [] => EmptyString
  | b :: bs' => String (hex_digit (b / 16)) (String (hex_digit (b mod 16)) (hex bs'))
  end.

(** [hashlib.md5(data).hexdigest()] *)
Definition hexdigest (data : list Z) : string := hex (digest data).

End Md5.

(** ** image_generator.py: the battle scorer *)

(** A dict literal: later bindings of a repeated key replace earlier
    ones (the table repeats "electric" and "poison" with equal values). *)
Definition dict_literal {V : Type} (l : list (string * V)) : gmap string V :=
  fold_left (fun m kv => <[kv.1 := kv.2]> m) l ∅.

Local Open Scope float_scope.

(** The effectiveness chart, key for key as in the source; the row of
    "fighting" spells two of its keys with a leading blank. *)
Definition pokemon_go_effectiveness : gmap string (gmap string float) :=
  dict_literal
  [ ("normal"%string, dict_literal
      [("rock"%string, 0.625); ("ghost"%string, 0.391); ("steel"%string, 0.625)]);
    ("fire"%string, dict_literal
      [("fire"%string, 0.625); ("water"%string, 0.625); ("grass"%string, 1.6);
       ("ice"%string, 1.6); ("bug"%string, 1.6); ("rock"%string, 0.625);
       ("dragon"%string, 0.625); ("steel"%string, 1.6); ("fairy"%string, 0.625)]);
    ("water"%string, dict_literal
      [("fire"%string, 1.6); ("water"%string, 0.625); ("grass"%string, 0.625);
       ("ground"%string, 1.6); ("rock"%string, 1.6); ("dragon"%string, 0.625)]);
    ("electric"%string, dict_literal
      [("water"%string, 1.6); ("electric"%string, 0.625); ("grass"%string, 0.625);
       ("ground"%string, 0.391); ("flying"%string, 1.6); ("dragon"%string, 0.625);
       ("electric"%string, 0.625)]);
    ("grass"%string, dict_literal
      [("fire"%string, 0.625); ("water"%string, 1.6); ("grass"%string, 0.625);
       ("poison"%string, 0.625); ("ground"%string, 1.6); ("flying"%string, 0.625);
       ("bug"%string, 0.625); ("rock"%string, 1.6); ("dragon"%string, 0.625);
       ("steel"%string, 0.625)]);
    ("ice"%string, dict_literal
      [("fire"%string, 0.625); ("water"%string, 0.625); ("grass"%string, 1.6);
       ("ice"%string, 0.625); ("ground"%string, 1.6); ("flying"%string, 1.6);
       ("dragon"%string, 1.6); ("steel"%string, 0.625)]);
    ("fighting"%string, dict_literal
      [("normal"%string, 1.6); ("ice"%string, 1.6); (" poison"%string, 0.625);
       ("flying"%string, 0.625); ("psychic"%string, 0.625); ("bug"%string, 0.625);
       ("rock"%string, 1.6); (" ghost"%string, 0.391); ("dark"%string, 1.6);
       ("steel"%string, 1.6); ("fairy"%string, 0.625)]);
    ("poison"%string, dict_literal
      [("grass"%string, 1.6); ("poison"%string, 0.625); ("ground"%string, 0.625);
       ("rock"%string, 0.625); ("ghost"%string, 0.625); ("steel"%string, 0.391);
       ("fairy"%string, 1.6); ("bug"%string, 1.6); ("poison"%string, 0.625)]);
    ("ground"%string, dict_literal
      [("fire"%string, 1.6); ("electric"%string, 1.6); ("grass"%string, 0.625);
       ("poison"%string, 1.6); ("flying"%string, 0.391); ("bug"%string, 0.625);
       ("rock"%string, 1.6); ("steel"%string, 1.6); ("ground"%string, 0.625)]);
    ("flying"%string, dict_literal
      [("electric"%string, 0.625); ("grass"%string, 1.6); ("fighting"%string, 1.6);
       ("bug"%string, 1.6); ("rock"%string, 0.625); ("steel"%string, 0.625);
       ("flying"%string, 0.625)]);
    ("psychic"%string, dict_literal
      [("fighting"%string, 1.6); ("poison"%string, 1.6); ("psychic"%string, 0.625);
       ("dark"%string, 0.391); ("steel"%string, 0.625)]);
    ("bug"%string, dict_literal
      [("fire"%string, 0.625); ("grass"%string, 1.6); ("fighting"%string, 0.625);
       ("poison"%string, 0.625); ("flying"%string, 0.625); ("psychic"%string, 1.6);
       ("ghost"%string, 0.625); ("dark"%string, 1.6); ("steel"%string, 0.625);
       ("fairy"%string, 0.625); ("bug"%string, 0.625)]);
    ("rock"%string, dict_literal
      [("fire"%string, 1.6); ("ice"%string, 1.6); ("fighting"%string, 0.625);
       ("ground"%string, 0.625); ("flying"%string, 1.6); ("bug"%string, 1.6);
       ("steel"%string, 0.625); ("rock"%string, 0.625)]);
    ("ghost"%string, dict_literal
      [("normal"%string, 0.391); ("psychic"%string, 1.6); ("ghost"%string, 1.6);
       ("dark"%string, 0.625)]);
    ("dragon"%string, dict_literal
      [("dragon"%string, 1.6); ("steel"%string, 0.625); ("fairy"%string, 0.391)]);
    ("dark"%string, dict_literal
      [("fighting"%string, 0.625); ("psychic"%string, 1.6); ("ghost"%string, 1.6);
       ("dark"%string, 0.625); ("fairy"%string, 0.625)]);
    ("steel"%string, dict_literal
      [("fire"%string, 0.625); ("water"%string, 0.625); ("electric"%string, 0.625);
       ("ice"%string, 1.6); ("rock"%string, 1.6); ("steel"%string, 0.625);
       ("fairy"%string, 1.6)]);
    ("fairy"%string, dict_literal
      [("fire"%string, 0.625); ("fighting"%string, 1.6); ("poison"%string, 0.625);
       ("dragon"%string, 1.6); ("dark"%string, 1.6); ("steel"%string, 0.625);
       ("fairy"%string, 0.625)]) ].

Definition STAB_MULTIPLIER : float := 1.2.

(** The table entry of a pair, when both
    [attack_type in pokemon_go_effectiveness] and
    [defense_type in pokemon_go_effectiveness[attack_type]] hold. *)
Definition table_entry (attack_type defense_type : string) : option float :=
  match pokemon_go_effectiveness !! attack_type with
  | Some row => row !! defense_type
  | None => None
  end.

(** One of the two loops of [calculate_type_advantage_with_stab]: they
    are the same text with [types1] and [types2] exchanged. *)
Definition effectiveness_loop (attacker defender : list string) : float :=
  fold_left
    (fun effectiveness attack_type =>
       let stab :=
         if bool_decide (attack_type ∈ attacker) then STAB_MULTIPLIER else 1.0 in
       fold_left
         (fun effectiveness defense_type =>
            match table_entry attack_type defense_type with
            | Some e => effectiveness * (e * stab)
            | None => effectiveness
            end)
         defender effectiveness)
    attacker 1.0.

Definition calculate_type_advantage_with_stab (types1 types2 : list string)
  : float * float :=
  (effectiveness_loop types1 types2, effectiveness_loop types2 types1).

(** The six attributes of a creature, base stats or boosts. *)
Record Stats : Type := mkStats {
  hp : Z;
  attack : Z;
  defense : Z;
  special_attack : Z;
  special_defense : Z;
  speed : Z
}.

(** [int(s, 16)].  Python raises ValueError on a character that is not
    a hexadecimal digit; a hexdigest has none ([int16_hex_byte]). *)
Definition hex_digit_value (c : ascii) : Z :=
  let n := Z.of_nat (nat_of_ascii c) in
  if ((48 <=? n) && (n <=? 57))%Z then (n - 48)%Z
  else if ((97 <=? n) && (n <=? 102))%Z then (n - 87)%Z
  else if ((65 <=? n) && (n <=? 70))%Z then (n - 55)%Z
  else 0%Z.

Fixpoint int16_from (acc : Z) (s : string) : Z :=
  match s with
  | EmptyString => acc
  | String c s' => int16_from (16 * acc + hex_digit_value c)%Z s'
  end.

Definition int16 (s : string) : Z := int16_from 0 s.

(** [s[i:j]] for [0 <= i <= j]. *)
Definition slice (s : string) (i j : nat) : string := substring i (j - i) s.

Definition calculate_ivs (pokemon_name : string) : Stats :=
  let name_hash := Md5.hexdigest (Py.encode (Py.lower pokemon_name)) in
  let iv_hp := (int16 (slice name_hash 0 2) mod 32)%Z in
  let iv_attack := (int16 (slice name_hash 2 4) mod 32)%Z in
  let iv_defense := (int16 (slice name_hash 4 6) mod 32)%Z in
  let iv_special_attack := (int16 (slice name_hash 6 8) mod 32)%Z in
  let iv_special_defense := (int16 (slice name_hash 8 10) mod 32)%Z in
  let iv_speed := (int16 (slice name_hash 10 12) mod 32)%Z in
  mkStats iv_hp iv_attack iv_defense iv_special_attack iv_special_defense
    iv_speed.

Definition calculate_weighted_stats (stats : Stats) : float :=
  let weighted_stats :=
    Py.float_of_int (hp stats) * 0.8 +
    Py.float_of_int (attack stats) * 1.2 +
    Py.float_of_int (defense stats) * 0.9 +
    Py.float_of_int (special_attack stats) * 1.2 +
    Py.float_of_int (special_defense stats) * 0.9 +
    Py.float_of_int (speed stats) * 1.0 in
  weighted_stats / 100.

(** The record [get_pokemon_data] builds from the provider's answer. *)
Record PokemonData : Type := mkPokemon {
  name : string;
  api_name : string;
  base_stats : Stats;
  types : list string
}.

Definition calculate_battle_score (pokemon1 pokemon2 : PokemonData)
  : float * float :=
  let ivs1 := calculate_ivs (name pokemon1) in
  let ivs2 := calculate_ivs (name pokemon2) in
  let effective_stats1 :=
    mkStats (hp (base_stats pokemon1) + hp ivs1)
            (attack (base_stats pokemon1) + attack ivs1)
            (defense (base_stats pokemon1) + defense ivs1)
            (special_attack (base_stats pokemon1) + special_attack ivs1)
            (special_defense (base_stats pokemon1) + special_defense ivs1)
            (speed (base_stats pokemon1) + speed ivs1) in
  let effective_stats2 :=
    mkStats (hp (base_stats pokemon2) + hp ivs2)
            (attack (base_stats pokemon2) + attack ivs2)
            (defense (base_stats pokemon2) + defense ivs2)
            (special_attack (base_stats pokemon2) + special_attack ivs2)
            (special_defense (base_stats pokemon2) + special_defense ivs2)
            (speed (base_stats pokemon2) + speed ivs2) in
  let '(advantage1, advantage2) :=
    calculate_type_advantage_with_stab (types pokemon1) (types pokemon2) in
  let battle_score1 := calculate_weighted_stats effective_stats1 * advantage1 in
  let battle_score2 := calculate_weighted_stats effective_stats2 * advantage2 in
  (battle_score1, battle_score2).

Local Close Scope float_scope.

(** ** pokemon_api.py: the legendary classification *)

Definition LEGENDARY_POKEMON : list string :=
  [ "articuno"; "zapdos"; "moltres"; "mewtwo"; "mew";
    "raikou"; "entei"; "suicune"; "lugia"; "ho-oh"; "celebi";
    "regirock"; "regice"; "registeel"; "latias"; "latios"; "kyogre";
    "groudon"; "rayquaza"; "jirachi"; "deoxys";
    "uxie"; "mesprit"; "azelf"; "dialga"; "palkia"; "heatran";
    "regigigas"; "giratina"; "cresselia"; "darkrai"; "shaymin"; "arceus";
    "victini"; "cobalion"; "terrakion"; "virizion"; "tornadus";
    "thundurus"; "reshiram"; "zekrom"; "landorus"; "kyurem"; "keldeo";
    "meloetta"; "genesect";
    "xerneas"; "yveltal"; "zygarde"; "diancie"; "hoopa"; "volcanion";
    "tapu koko"; "tapu lele"; "tapu bulu"; "tapu fini"; "cosmog";
    "cosmoem"; "solgaleo"; "lunala"; "nihilego"; "buzzwole"; "pheromosa";
    "xurkitree"; "celesteela"; "kartana"; "guzzlord"; "necrozma";
    "magearna"; "marshadow"; "poipole"; "naganadel"; "stakataka";
    "blacephalon"; "zeraora"; "meltan"; "melmetal";
    "zacian"; "zamazenta"; "eternatus"; "kubfu"; "urshifu"; "zarude";
    "regieleki"; "regidrago"; "glastrier"; "spectrier"; "calyrex" ]%string.

Definition is_legendary (pokemon_name : string) : bool :=
  bool_decide (Py.lower pokemon_name ∈ LEGENDARY_POKEMON).

(** ** duel_manager.py *)

(** A chat participant ([discord.Member]); the platform compares and
    hashes members by id. *)
Module Member.
Record t : Type := mk { id : Z; name : string; bot : bool }.
Definition eqb (a b : t) : bool := Z.eqb (id a) (id b).
End Member.

(** One entry of [duel.round_history]: the creature names and battle
    scores in participant order ('pokemon1', 'score1', ...) and the
    'winner' text. *)
Record RoundData : Type := mkRoundData {
  round_pokemon : list string;
  round_scores : list float;
  winner : string
}.

Definition TIE : string := "Tie (no points awarded)".

Record Duel : Type := mkDuel {
  players : list Member.t;
  rounds : Z;
  channel : Z;
  duel_type : string;
  scores : Py.dict Z;
  current_round : Z;
  ready_status : Py.dict bool;
  pokemon : Py.dict (option PokemonData);
  countdown_active : bool;
  selection_phase : bool;
  used_pokemon : gset string;
  duel_ended : bool;
  last_selection_time : Z;
  selection_cooldown : Z;
  waiting_for_selection : bool;
  round_history : list RoundData;
  is_triple_duel : bool
}.

Definition player_ids (ps : list Member.t) : list Z := map Member.id ps.

(** [Duel.__init__] *)
Definition Duel_init (players : list Member.t) (rounds channel : Z)
    (duel_type : string) : Duel :=
  {| players := players;
     rounds := rounds;
     channel := channel;
     duel_type := duel_type;
     scores := Py.from_keys (player_ids players) 0%Z;
     current_round := 0;
     ready_status := Py.from_keys (player_ids players) false;
     pokemon := Py.from_keys (player_ids players) None;
     countdown_active := false;
     selection_phase := false;
     used_pokemon := ∅;
     duel_ended := false;
     last_selection_time := 0;
     selection_cooldown := 3;
     waiting_for_selection := false;
     round_history := [];
     is_triple_duel := Nat.eqb (length players) 3 |}.

(** Assignments to the attributes the handlers write.  No handler
    assigns [players], [rounds], [channel], [duel_type],
    [last_selection_time], [selection_cooldown] or [is_triple_duel]. *)
Definition set_scores (d : Duel) (v : Py.dict Z) : Duel :=
  mkDuel (players d) (rounds d) (channel d) (duel_type d) v
    (current_round d) (ready_status d) (pokemon d) (countdown_active d)
    (selection_phase d) (used_pokemon d) (duel_ended d)
    (last_selection_time d) (selection_cooldown d)
    (waiting_for_selection d) (round_history d) (is_triple_duel d).

Definition set_current_round (d : Duel) (v : Z) : Duel :=
  mkDuel (players d) (rounds d) (channel d) (duel_type d) (scores d)
    v (ready_status d) (pokemon d) (countdown_active d)
    (selection_phase d) (used_pokemon d) (duel_ended d)
    (last_selection_time d) (selection_cooldown d)
    (waiting_for_selection d) (round_history d) (is_triple_duel d).

Definition set_ready_status (d : Duel) (v : Py.dict bool) : Duel :=
  mkDuel (players d) (rounds d) (channel d) (duel_type d) (scores d)
    (current_round d) v (pokemon d) (countdown_active d)
    (selection_phase d) (used_pokemon d) (duel_ended d)
    (last_selection_time d) (selection_cooldown d)
    (waiting_for_selection d) (round_history d) (is_triple_duel d).

Definition set_pokemon (d : Duel) (v : Py.dict (option PokemonData)) : Duel :=
  mkDuel (players d) (rounds d) (channel d) (duel_type d) (scores d)
    (current_round d) (ready_status d) v (countdown_active d)
    (selection_phase d) (used_pokemon d) (duel_ended d)
    (last_selection_time d) (selection_cooldown d)
    (waiting_for_selection d) (round_history d) (is_triple_duel d).

Definition set_countdown_active (d : Duel) (v : bool) : Duel :=
  mkDuel (players d) (rounds d) (channel d) (duel_type d) (scores d)
    (current_round d) (ready_status d) (pokemon d) v
    (selection_phase d) (used_pokemon d) (duel_ended d)
    (last_selection_time d) (selection_cooldown d)
    (waiting_for_selection d) (round_history d) (is_triple_duel d).

Definition set_selection_phase (d : Duel) (v : bool) : Duel :=
  mkDuel (players d) (rounds d) (channel d) (duel_type d) (scores d)
    (current_round d) (ready_status d) (pokemon d) (countdown_active d)
    v (used_pokemon d) (duel_ended d)
    (last_selection_time d) (selection_cooldown d)
    (waiting_for_selection d) (round_history d) (is_triple_duel d).

Definition set_used_pokemon (d : Duel) (v : gset string) : Duel :=
  mkDuel (players d) (rounds d) (channel d) (duel_type d) (scores d)
    (current_round d) (ready_status d) (pokemon d) (countdown_active d)
    (selection_phase d) v (duel_ended d)
    (last_selection_time d) (selection_cooldown d)
    (waiting_for_selection d) (round_history d) (is_triple_duel d).

Definition set_duel_ended (d : Duel) (v : bool) : Duel :=
  mkDuel (players d) (rounds d) (channel d) (duel_type d) (scores d)
    (current_round d) (ready_status d) (pokemon d) (countdown_active d)
    (selection_phase d) (used_pokemon d) v
    (last_selection_time d) (selection_cooldown d)
    (waiting_for_selection d) (round_history d) (is_triple_duel d).

Definition set_waiting_for_selection (d : Duel) (v : bool) : Duel :=
  mkDuel (players d) (rounds d) (channel d) (duel_type d) (scores d)
    (current_round d) (ready_status d) (pokemon d) (countdown_active d)
    (selection_phase d) (used_pokemon d) (duel_ended d)
    (last_selection_time d) (selection_cooldown d)
    v (round_history d) (is_triple_duel d).

Definition set_round_history (d : Duel) (v : list RoundData) : Duel :=
  mkDuel (players d) (rounds d) (channel d) (duel_type d) (scores d)
    (current_round d) (ready_status d) (pokemon d) (countdown_active d)
    (selection_phase d) (used_pokemon d) (duel_ended d)
    (last_selection_time d) (selection_cooldown d)
    (waiting_for_selection d) v (is_triple_duel d).

(** A record of [duel_history.json].  The two shapes of the source are
    the two constructors; [is_triple] is the constructor itself. *)
Inductive DuelRecord : Type :=
| TripleRecord (timestamp : string)
    (player1 player2 player3 : Z)
    (player1_name player2_name player3_name : string)
    (score1 score2 score3 : Z)
    (rounds : Z) (duel_type : string) (winner : Z) (losers : list Z)
| PairRecord (timestamp : string)
    (player1 player2 : Z)
    (player1_name player2_name : string)
    (score1 score2 : Z)
    (rounds : Z) (duel_type : string) (winner : Z) (loser : option Z).

Definition record_winner (r : DuelRecord) : Z :=
  match r with
  | TripleRecord _ _ _ _ _ _ _ _ _ _ _ _ w _ => w
  | PairRecord _ _ _ _ _ _ _ _ _ w _ => w
  end.

Definition record_losers (r : DuelRecord) : list Z :=
  match r with
  | TripleRecord _ _ _ _ _ _ _ _ _ _ _ _ _ ls => ls
  | PairRecord _ _ _ _ _ _ _ _ _ _ l => option_list l
  end.

Record DuelManager : Type := mkDuelManager {
  active_duels : gmap Z Duel;
  completed_duels : gmap Z Duel;
  duel_history : gmap string (list DuelRecord)
}.

(** [DuelManager.__init__], with the history store as loaded. *)
Definition DuelManager_init (loaded : gmap string (list DuelRecord))
  : DuelManager :=
  mkDuelManager ∅ ∅ loaded.

(** *** History store *)

(** The record of a finished duel.  [None] stands for the exception of
    an unpacking of [duel.players] into the wrong number of names, or
    of a score lookup for an id the score table does not hold. *)
Definition duel_record (duel : Duel) (timestamp : string) (winner_id : Z)
    (losers : list Member.t) : option DuelRecord :=
  if is_triple_duel duel then
    match players duel with
    | [player1; player2; player3] =>
        score1 ← Py.get (scores duel) (Member.id player1);
        score2 ← Py.get (scores duel) (Member.id player2);
        score3 ← Py.get (scores duel) (Member.id player3);
        Some (TripleRecord timestamp
                (Member.id player1) (Member.id player2) (Member.id player3)
                (Member.name player1) (Member.name player2)
                (Member.name player3)
                score1 score2 score3 (rounds duel) (duel_type duel)
                winner_id (map Member.id losers))
    | _ => None
    end
  else
    match players duel with
    | [player1; player2] =>
        score1 ← Py.get (scores duel) (Member.id player1);
        score2 ← Py.get (scores duel) (Member.id player2);
        Some (PairRecord timestamp
                (Member.id player1) (Member.id player2)
                (Member.name player1) (Member.name player2)
                score1 score2 (rounds duel) (duel_type duel)
                winner_id (Member.id <$> head losers))
    | _ => None
    end.

(** [str(player.id)], the key of the store. *)
Definition history_key (player : Member.t) : string :=
  pretty (Member.id player).

(** First loop of [add_to_history]: create the list when the key is
    new, then append. *)
Definition append_record (duel_record : DuelRecord)
    (history : gmap string (list DuelRecord)) (player : Member.t)
  : gmap string (list DuelRecord) :=
  <[history_key player :=
      default [] (history !! history_key player) ++ [duel_record]]> history.

(** [l[-20:]] *)
Definition last_20 {A : Type} (l : list A) : list A :=
  skipn (length l - 20) l.

(** Second loop of [add_to_history]; the key was set by the first. *)
Definition keep_last_20 (history : gmap string (list DuelRecord))
    (player : Member.t) : gmap string (list DuelRecord) :=
  match history !! history_key player with
  | Some l =>
      if (20 <? length l)%nat
      then <[history_key player := last_20 l]> history
      else history
  | None => history
  end.

Definition add_to_history (m : DuelManager) (duel : Duel)
    (timestamp : string) (winner_id : Z) (losers : list Member.t)
  : option DuelManager :=
  duel_record ← duel_record duel timestamp winner_id losers;
  let history :=
    fold_left (append_record duel_record) (players duel) (duel_history m) in
  let history := fold_left keep_last_20 (players duel) history in
  Some (mkDuelManager (active_duels m) (completed_duels m) history).

Definition get_player_history (m : DuelManager) (player_id : Z)
  : list DuelRecord :=
  default [] (duel_history m !! pretty player_id).

(** *** Starting a duel *)

(** [start_duel], with the id of the channel the platform creates.
    [None] stands for the IndexError of [opponents[0]] on an empty
    list; a refused request leaves the manager as it is. *)
Definition start_duel (m : DuelManager) (author : Member.t)
    (opponents : list Member.t) (rounds : Z) (duel_type : string)
    (new_channel : Z) : option DuelManager :=
  if negb (bool_decide (rounds ∈ [3; 5; 7]%Z)) then Some m
  else if negb (bool_decide
            (duel_type ∈ ["1st-evolution"; "2nd-evolution"; "normal";
                          "legendaries"]%string)) then Some m
  else if existsb (Member.eqb author) opponents then Some m
  else if existsb Member.bot opponents then Some m
  else if negb (bool_decide (NoDup (player_ids opponents))) then Some m
  else
    let players := author :: opponents in
    match opponents with
    | [] => None
    | _ =>
        let duel := Duel_init players rounds new_channel duel_type in
        Some (mkDuelManager (<[new_channel := duel]> (active_duels m))
                (completed_duels m) (duel_history m))
    end.

(** The two commands of [main.py]. *)
Definition duel_start (m : DuelManager) (author opponent : Member.t)
    (rounds : Z) (duel_type : string) (new_channel : Z)
  : option DuelManager :=
  start_duel m author [opponent] rounds duel_type new_channel.

Definition triple_duel_start (m : DuelManager)
    (author opponent1 opponent2 : Member.t)
    (rounds : Z) (duel_type : string) (new_channel : Z)
  : option DuelManager :=
  start_duel m author [opponent1; opponent2] rounds duel_type new_channel.

(** *** Ready acknowledgments *)

(** A text beyond ASCII, as its UTF-8 bytes. *)
Definition utf8 (bytes : list nat) : string :=
  string_of_list_ascii (map ascii_of_nat bytes).

(** The text [handle_reaction] compares the emoji with.  In the source
    file it is the three characters U+201A U+00FA U+00D6, which are
    the bytes of the white check mark U+2705 read in another encoding;
    the literal of the reaction added to the ready message is the
    same. *)
Definition CHECK_MARK : string := utf8 [226; 128; 154; 195; 186; 195; 150].


Record Reaction : Type := mkReaction {
  reaction_channel : Z;
  emoji : string;
  user : Member.t
}.

(** The mutated duel object stays registered under its channel. *)
Definition store (m : DuelManager) (ch : Z) (duel : Duel) : DuelManager :=
  mkDuelManager (<[ch := duel]> (active_duels m)) (completed_duels m)
    (duel_history m).

(** [handle_reaction] from its first line to its return, with no
    other handler in between; [reaction_begin], [after_ready_edit] and
    [after_countdown] are its pieces between the edit of the ready
    message and the countdown of 3 seconds. *)
Definition handle_reaction (m : DuelManager) (reaction : Reaction)
  : DuelManager :=
  match active_duels m !! reaction_channel reaction with
  | Some duel =>
      if negb (String.eqb (emoji reaction) CHECK_MARK) then m
      else if duel_ended duel then m
      else if negb (bool_decide
                (Member.id (user reaction) ∈ Py.keys (ready_status duel)))
      then m
      else
        let duel :=
          set_ready_status duel
            (Py.set (ready_status duel) (Member.id (user reaction)) true) in
        let duel :=
          if forallb (fun b : bool => b) (Py.values (ready_status duel))
             && negb (countdown_active duel)
          then
            let duel := set_countdown_active duel true in
            let duel := set_selection_phase duel true in
            let duel :=
              set_ready_status duel
                (Py.from_keys (player_ids (players duel)) false) in
            set_waiting_for_selection duel true
          else duel in
        store m (reaction_channel reaction) duel
  | None => m
  end.

(** *** Eligibility *)

(** [validate_pokemon_for_duel]; [evolution_stage] is the answer of
    [get_evolution_stage(pokemon_data['api_name'])].  The parameters
    [author] and [opponents] of the source are not read. *)
Definition validate_pokemon_for_duel (evolution_stage : Z)
    (pokemon_data : PokemonData) (duel_type : string)
    (used_pokemon : gset string) : bool * string :=
  let pokemon_name := Py.lower (name pokemon_data) in
  if bool_decide (pokemon_name ∈ used_pokemon) then
    (false, "This Pokemon has already been used in this duel!"%string)
  else
    let base_name := Py.split_head "-" (api_name pokemon_data) in
    if String.eqb duel_type "1st-evolution" then
      if negb (evolution_stage =? 1)%Z then
        (false, "Only 1st evolution Pokemon are allowed in this duel!"%string)
      else (true, "Valid"%string)
    else if String.eqb duel_type "2nd-evolution" then
      if negb (evolution_stage =? 2)%Z then
        (false, "Only 2nd evolution Pokemon are allowed in this duel!"%string)
      else (true, "Valid"%string)
    else if String.eqb duel_type "legendaries" then
      let is_leg_specific := is_legendary (api_name pokemon_data) in
      let is_leg_base := is_legendary base_name in
      if negb (is_leg_specific || is_leg_base) then
        (false, "Only Legendary Pokemon are allowed in this duel!"%string)
      else (true, "Valid"%string)
    else if String.eqb duel_type "normal" then
      let is_leg_specific := is_legendary (api_name pokemon_data) in
      let is_leg_base := is_legendary base_name in
      if is_leg_specific || is_leg_base then
        (false, "Legendary Pokemon are not allowed in normal duels!"%string)
      else (true, "Valid"%string)
    else (true, "Valid"%string).

(** *** Ending a duel *)

(** [end_duel(duel, message)] for the duel registered under [ch], the
    channel of the message; [timestamp] is the clock reading of
    [add_to_history].  [None] stands for an exception: [max] of an
    empty score table, no participant with the winning id, a history
    record that cannot be built, or too few losers to name.  The sends
    and the showdown of 7 seconds between the history record and the
    three last statements are left out here; [end_duel_begin] and
    [after_showdown] are the two pieces. *)
Definition end_duel (m : DuelManager) (duel : Duel) (ch : Z)
    (timestamp : string) : option DuelManager :=
  winner_id ← Py.max_key (scores duel);
  winner ← find (fun player => Z.eqb (Member.id player) winner_id)
             (players duel);
  let losers :=
    List.filter (fun player => negb (Z.eqb (Member.id player) winner_id))
      (players duel) in
  m ← add_to_history m duel timestamp winner_id losers;
  if (length losers <? (if is_triple_duel duel then 2 else 1))%nat then None
  else
    let duel := set_duel_ended duel true in
    Some (mkDuelManager (delete ch (active_duels m))
            (<[ch := duel]> (completed_duels m)) (duel_history m)).

(** *** Selections and round resolution *)

(** A posted message with the answers the handler obtains while it
    runs: [time_time] is [time.time()], [get_pokemon_data] the answer
    of the provider for [content], [get_evolution_stage] the stage it
    reports for that creature, [datetime_now] the timestamp taken if
    the duel ends. *)
Record Message : Type := mkMessage {
  message_channel : Z;
  author : Member.t;
  content : string;
  time_time : float;
  get_pokemon_data : option PokemonData;
  get_evolution_stage : Z;
  datetime_now : string
}.

Definition needed_wins (duel : Duel) : Z := (rounds duel / 2 + 1)%Z.

(** [any(score >= needed_wins for score in duel.scores.values())] *)
Definition threshold_reached (duel : Duel) : bool :=
  existsb (fun score => (needed_wins duel <=? score)%Z)
    (Py.values (scores duel)).

(** [current_time - duel.last_selection_time < duel.selection_cooldown] *)
Definition in_cooldown (duel : Duel) (current_time : float) : bool :=
  PrimFloat.ltb
    (current_time - Py.float_of_int (last_selection_time duel))%float
    (Py.float_of_int (selection_cooldown duel)).

(** The penalty loop: every participant other than the author gains a
    point. *)
Fixpoint award_opponents (author : Member.t) (ps : list Member.t)
    (scores : Py.dict Z) : option (Py.dict Z) :=
  match ps with
  | [] => Some scores
  | opponent :: ps' =>
      if negb (Member.eqb opponent author) then
        scores ← Py.incr scores (Member.id opponent);
        award_opponents author ps' scores
      else award_opponents author ps' scores
  end.

(** [all(duel.pokemon.values())] *)
Definition all_selected (duel : Duel) : bool :=
  forallb (fun slot : option PokemonData => bool_decide (is_Some slot))
    (Py.values (pokemon duel)).

(** [duel.pokemon[duel.players[i].id]], a selected creature. *)
Definition pokemon_at (duel : Duel) (i : nat) : option PokemonData :=
  player ← players duel !! i;
  mjoin (Py.get (pokemon duel) (Member.id player)).

(** Battle scores of a triple duel: each creature's average against
    the next two of the list, cyclically. *)
Definition triple_battle_scores (duel : Duel) : option (list float) :=
  pokemon_list ←
    mapM (fun player => mjoin (Py.get (pokemon duel) (Member.id player)))
      (players duel);
  mapM (fun x : option float => x)
    (imap (fun i pokemon =>
             a ← pokemon_list !! ((i + 1) mod 3)%nat;
             b ← pokemon_list !! ((i + 2) mod 3)%nat;
             let score1 := (calculate_battle_score pokemon a).1 in
             let score3 := (calculate_battle_score pokemon b).1 in
             Some ((score1 + score3) / 2)%float)
       pokemon_list).

Definition pair_battle_scores (duel : Duel) : option (list float) :=
  pokemon1 ← pokemon_at duel 0;
  pokemon2 ← pokemon_at duel 1;
  let '(battle_score1, battle_score2) :=
    calculate_battle_score pokemon1 pokemon2 in
  Some [battle_score1; battle_score2].

Definition battle_scores (duel : Duel) : option (list float) :=
  if is_triple_duel duel then triple_battle_scores duel
  else pair_battle_scores duel.

(** [[i for i, score in enumerate(battle_scores) if score == max_score]] *)
Definition max_indices (battle_scores : list float) (max_score : float)
  : list nat :=
  omap (fun x : option nat => x)
    (imap (fun i score =>
             if PrimFloat.eqb score max_score then Some i else None)
       battle_scores).

(** The point of the round winner. *)
Definition point_to (duel : Duel) (i : nat) : option (string * Py.dict Z) :=
  player ← players duel !! i;
  scores ← Py.incr (scores duel) (Member.id player);
  Some (Member.name player, scores).

(** Winner text and score table after the round. *)
Definition round_outcome (duel : Duel) (battle_scores : list float)
  : option (string * Py.dict Z) :=
  if is_triple_duel duel then
    match battle_scores with
    | [] => None
    | first :: rest =>
        let max_score := Py.max_float first rest in
        let winners := max_indices battle_scores max_score in
        match winners with
        | [w] => point_to duel w
        | _ => Some (TIE, scores duel)
        end
    end
  else
    score1 ← battle_scores !! 0%nat;
    score2 ← battle_scores !! 1%nat;
    if Py.gt score1 score2 then point_to duel 0
    else if Py.gt score2 score1 then point_to duel 1
    else Some (TIE, scores duel).

(** The names recorded for the round: 'pokemon1', 'pokemon2' and, in a
    triple duel, 'pokemon3'. *)
Definition round_names (duel : Duel) : option (list string) :=
  mapM (fun i => name <$> pokemon_at duel i)
    (if is_triple_duel duel then [0; 1; 2]%nat else [0; 1]%nat).

(** The scores recorded for the round: 'score1', ... *)
Definition round_score_fields (duel : Duel) (battle_scores : list float)
  : option (list float) :=
  mapM (fun i => battle_scores !! i)
    (if is_triple_duel duel then [0; 1; 2]%nat else [0; 1]%nat).

(** From "all players have selected" to [duel.current_round += 1]. *)
Definition resolve_round (duel : Duel) : option Duel :=
  battle_scores ← battle_scores duel;
  names ← round_names duel;
  fields ← round_score_fields duel battle_scores;
  '(winner, scores) ← round_outcome duel battle_scores;
  let round_data := mkRoundData names fields winner in
  let duel := set_scores duel scores in
  let duel := set_round_history duel (round_history duel ++ [round_data]) in
  let duel := set_waiting_for_selection duel false in
  let duel := set_selection_phase duel false in
  let duel := set_current_round duel (current_round duel + 1)%Z in
  Some duel.

(** [{player.id: None for player in duel.players}] *)
Definition no_pokemon (duel : Duel) : Py.dict (option PokemonData) :=
  Py.from_keys (player_ids (players duel)) None.

(** The tail of [handle_message], from the test that every participant
    has selected. *)
Definition after_selection (m : DuelManager) (ch : Z) (duel : Duel)
    (timestamp : string) : option (DuelManager * bool) :=
  if all_selected duel then
    duel ← resolve_round duel;
    if threshold_reached duel then
      m ← end_duel m duel ch timestamp;
      Some (m, true)
    else
      let duel := set_pokemon duel (no_pokemon duel) in
      let duel := set_countdown_active duel false in
      let duel := set_waiting_for_selection duel true in
      Some (store m ch duel, true)
  else Some (store m ch duel, true).

(** The penalty for a rejected selection. *)
Definition reject_selection (m : DuelManager) (ch : Z) (duel : Duel)
    (author : Member.t) (timestamp : string)
  : option (DuelManager * bool) :=
  scores ← award_opponents author (players duel) (scores duel);
  let duel := set_scores duel scores in
  if threshold_reached duel then
    m ← end_duel m duel ch timestamp;
    Some (m, true)
  else
    let duel := set_pokemon duel (no_pokemon duel) in
    let duel := set_countdown_active duel false in
    let duel := set_selection_phase duel false in
    let duel := set_waiting_for_selection duel false in
    Some (store m ch duel, true).

(** [handle_message] from its first line to its return, with no
    other handler in between: the new manager and the returned flag;
    [None] stands for an exception raised by the handler.
    [message_begin] and the pieces after it cut the handler at its
    awaits. *)
Definition handle_message (m : DuelManager) (message : Message)
  : option (DuelManager * bool) :=
  let ch := message_channel message in
  match active_duels m !! ch with
  | None => Some (m, false)
  | Some duel =>
      if duel_ended duel then Some (m, false)
      else if negb (existsb (Member.eqb (author message)) (players duel))
      then Some (m, false)
      else if selection_phase duel && waiting_for_selection duel then
        if in_cooldown duel (time_time message) then Some (m, true)
        else
          slot ← Py.get (pokemon duel) (Member.id (author message));
          match slot with
          | None =>
              match get_pokemon_data message with
              | None => Some (m, true)
              | Some pokemon_data =>
                  let '(is_valid, error_msg) :=
                    validate_pokemon_for_duel (get_evolution_stage message)
                      pokemon_data (duel_type duel) (used_pokemon duel) in
                  if negb is_valid then
                    reject_selection m ch duel (author message)
                      (datetime_now message)
                  else
                    let duel :=
                      set_pokemon duel
                        (Py.set (pokemon duel) (Member.id (author message))
                           (Some pokemon_data)) in
                    let duel :=
                      set_used_pokemon duel
                        (used_pokemon duel ∪ {[Py.lower (name pokemon_data)]}) in
                    after_selection m ch duel (datetime_now message)
              end
          | Some _ => after_selection m ch duel (datetime_now message)
          end
      else Some (m, true)
  end.

(** ** main.py: the events the platform delivers *)

(** [on_reaction_add] *)
Definition on_reaction_add (m : DuelManager) (reaction : Reaction)
  : DuelManager :=
  if Member.bot (user reaction) then m else handle_reaction m reaction.

(** [on_message]; the command processing that follows changes nothing
    in a duel. *)
Definition on_message (m : DuelManager) (message : Message)
  : option DuelManager :=
  if Member.bot (author message) then Some m
  else fst <$> handle_message m message.

Inductive Event : Type :=
| DuelCommand (author opponent : Member.t) (rounds : Z)
    (duel_type : string) (new_channel : Z)
| TripleDuelCommand (author opponent1 opponent2 : Member.t) (rounds : Z)
    (duel_type : string) (new_channel : Z)
| ReactionAdded (reaction : Reaction)
| MessagePosted (message : Message).

Definition dispatch (m : DuelManager) (e : Event) : option DuelManager :=
  match e with
  | DuelCommand a o r t c => duel_start m a o r t c
  | TripleDuelCommand a o1 o2 r t c => triple_duel_start m a o1 o2 r t c
  | ReactionAdded reaction => Some (on_reaction_add m reaction)
  | MessagePosted message => on_message m message
  end.

(** No duel, running or finished, is registered under the channel. *)
Definition unregistered (m : DuelManager) (c : Z) : bool :=
  match active_duels m !! c, completed_duels m !! c with
  | None, None => true
  | _, _ => false
  end.

(** The channel a command creates is a new one. *)
Definition creates_new_channel (m : DuelManager) (e : Event) : bool :=
  match e with
  | DuelCommand _ _ _ _ c | TripleDuelCommand _ _ _ _ _ c => unregistered m c
  | _ => true
  end.

(** One event, handled to the return of its handler; [None] when the
    event cannot happen (its channel is not new) or its handler
    raises. *)
Definition step (m : DuelManager) (e : Event) : option DuelManager :=
  if creates_new_channel m e then dispatch m e else None.

Fixpoint run (m : DuelManager) (events : list Event) : option DuelManager :=
  match events with
  | [] => Some m
  | e :: events' => m' ← step m e; run m' events'
  end.

(** The managers the bot reaches with the handlers run one at a time:
    no event is delivered while a handler is suspended. *)
Definition reachable (m : DuelManager) : Prop :=
  exists loaded events, run (DuelManager_init loaded) events = Some m.

(** The duel registered under a channel, running or finished. *)
Definition registered (m : DuelManager) (c : Z) : option Duel :=
  match active_duels m !! c with
  | Some duel => Some duel
  | None => completed_duels m !! c
  end.

(** * Vocabulary of the statements *)

Local Open Scope float_scope.

(** The spec's [effectivenessOf]: the table entry, 1.0 without one. *)
Definition effectivenessOf (attacker defender : string) : float :=
  default 1.0 (table_entry attacker defender).

(** The multiplier as the spec words it: for every attacking category
    the bonus 1.2 once, times the effectiveness against every
    defending category. *)
Definition multiplier_per_category (A B : list string) : float :=
  fold_left
    (fun product a =>
       product
       * (1.2 * fold_left (fun p b => p * effectivenessOf a b) B 1.0))
    A 1.0.

(** The factors the code multiplies: one per pair with a table entry,
    the entry times the bonus, in iteration order. *)
Definition entry_factors (stab : float) (a : string) (B : list string)
  : list float :=
  flat_map
    (fun b =>
       match table_entry a b with
       | Some e => [e * stab]
       | None => []
       end)
    B.

Definition pair_factors (A B : list string) : list float :=
  flat_map (fun a => entry_factors STAB_MULTIPLIER a B) A.

Definition product_from (start : float) (factors : list float) : float :=
  fold_left PrimFloat.mul factors start.

(** The spec's [weightedStats]. *)
Definition weightedStats (s : Stats) : float :=
  (Py.float_of_int (hp s) * 0.8 + Py.float_of_int (attack s) * 1.2
   + Py.float_of_int (defense s) * 0.9
   + Py.float_of_int (special_attack s) * 1.2
   + Py.float_of_int (special_defense s) * 0.9
   + Py.float_of_int (speed s) * 1.0) / 100.

(** Boosts added to each base stat. *)
Definition add_stats (s b : Stats) : Stats :=
  mkStats (hp s + hp b) (attack s + attack b) (defense s + defense b)
    (special_attack s + special_attack b)
    (special_defense s + special_defense b) (speed s + speed b).

(** The spec's [battleScore]. *)
Definition battleScore (A B : PokemonData) : float * float :=
  let multipliers :=
    calculate_type_advantage_with_stab (types A) (types B) in
  (weightedStats (add_stats (base_stats A) (calculate_ivs (name A)))
     * multipliers.1,
   weightedStats (add_stats (base_stats B) (calculate_ivs (name B)))
     * multipliers.2).

Local Close Scope float_scope.

Definition boost_in_range (v : Z) : Prop := (0 <= v <= 31)%Z.

Definition boosts_in_range (s : Stats) : Prop :=
  boost_in_range (hp s) /\ boost_in_range (attack s)
  /\ boost_in_range (defense s) /\ boost_in_range (special_attack s)
  /\ boost_in_range (special_defense s) /\ boost_in_range (speed s).

(** Well-formed duels, what [start_duel] establishes and every handler
    keeps: two or three participants with distinct ids, the three
    per-participant tables keyed by exactly these ids in this order,
    and a round count of 3, 5 or 7. *)
Record wf_duel (d : Duel) : Prop := mk_wf_duel {
  wf_count : length (players d) = 2%nat \/ length (players d) = 3%nat;
  wf_distinct : NoDup (player_ids (players d));
  wf_triple : is_triple_duel d = Nat.eqb (length (players d)) 3;
  wf_scores : Py.keys (scores d) = player_ids (players d);
  wf_pokemon : Py.keys (pokemon d) = player_ids (players d);
  wf_ready : Py.keys (ready_status d) = player_ids (players d);
  wf_rounds : rounds d ∈ [3; 5; 7]%Z
}.

(** Every stored history holds at most 20 records. *)
Definition history_bounded (history : gmap string (list DuelRecord)) : Prop :=
  forall key l, history !! key = Some l -> (length l <= 20)%nat.

(** One call of [add_to_history]: the duel, the timestamp, the winner's
    id and the losers. *)
Definition HistoryAppend : Type := Duel * string * Z * list Member.t.

Definition add_to_history' (m : DuelManager) (a : HistoryAppend)
  : option DuelManager :=
  let '(duel, timestamp, winner_id, losers) := a in
  add_to_history m duel timestamp winner_id losers.

(** A sequence of calls of [add_to_history]. *)
Fixpoint add_all_to_history (m : DuelManager) (appends : list HistoryAppend)
  : option DuelManager :=
  match appends with
  | [] => Some m
  | a :: appends' =>
      m' ← add_to_history' m a; add_all_to_history m' appends'
  end.

(** The score of a participant. *)
Definition score_of (duel : Duel) (player : Member.t) : option Z :=
  Py.get (scores duel) (Member.id player).

(** The two forms of a well-formed duel, field by field. *)
Inductive duel_shape (d : Duel) : Prop :=
| shape_pair (p1 p2 : Member.t) (s1 s2 : Z) (k1 k2 : option PokemonData)
    (r1 r2 : bool) :
    Member.id p1 <> Member.id p2 ->
    players d = [p1; p2] ->
    is_triple_duel d = false ->
    scores d = [(Member.id p1, s1); (Member.id p2, s2)] ->
    pokemon d = [(Member.id p1, k1); (Member.id p2, k2)] ->
    ready_status d = [(Member.id p1, r1); (Member.id p2, r2)] ->
    duel_shape d
| shape_triple (p1 p2 p3 : Member.t) (s1 s2 s3 : Z)
    (k1 k2 k3 : option PokemonData) (r1 r2 r3 : bool) :
    Member.id p1 <> Member.id p2 ->
    Member.id p1 <> Member.id p3 ->
    Member.id p2 <> Member.id p3 ->
    players d = [p1; p2; p3] ->
    is_triple_duel d = true ->
    scores d = [(Member.id p1, s1); (Member.id p2, s2); (Member.id p3, s3)] ->
    pokemon d = [(Member.id p1, k1); (Member.id p2, k2); (Member.id p3, k3)] ->
    ready_status d
    = [(Member.id p1, r1); (Member.id p2, r2); (Member.id p3, r3)] ->
    duel_shape d.

(** * Sample participants, creatures and records *)

Definition ash : Member.t := Member.mk 1 "Ash" false.
Definition misty : Member.t := Member.mk 2 "Misty" false.
Definition brock : Member.t := Member.mk 3 "Brock" false.

Definition pikachu : PokemonData :=
  mkPokemon "Pikachu" "pikachu" (mkStats 35 55 40 50 50 90)
    ["Electric"%string].
Definition squirtle : PokemonData :=
  mkPokemon "Squirtle" "squirtle" (mkStats 44 48 65 50 64 43)
    ["Water"%string].
Definition mewtwo : PokemonData :=
  mkPokemon "Mewtwo" "mewtwo" (mkStats 106 110 90 154 90 130)
    ["Psychic"%string].

Definition oldest_record : DuelRecord :=
  PairRecord "2024-01-01T10:00:00" 1 2 "Ash" "Misty" 2 0 3 "normal" 1
    (Some 2%Z).
Definition later_record : DuelRecord :=
  PairRecord "2024-02-01T10:00:00" 1 2 "Ash" "Misty" 1 2 3 "normal" 2
    (Some 1%Z).

(** A store in which Ash already has 20 records. *)
Definition full_store : gmap string (list DuelRecord) :=
  {[ "1"%string := oldest_record :: replicate 19 later_record ]}.

Definition fresh_pair_duel : Duel :=
  Duel_init [ash; misty] 3 100 "normal".

(** A triple duel, best of 3, in which the second and the third
    participant both hold 2 points. *)
Definition tied_triple_duel : Duel :=
  set_scores (Duel_init [ash; misty; brock] 3 200 "legendaries")
    [(1, 0); (2, 2); (3, 2)]%Z.

(** * The handlers, duel by duel

    What a message does to the duel of its channel, apart from the
    registries: nothing and [False] returned, nothing and [True]
    returned, the duel goes on in a new state, or the duel is over. *)
Inductive Outcome : Type :=
| Ignored
| Unchanged
| Continue (duel : Duel)
| Finish (duel : Duel).

Definition after_selection_outcome (duel : Duel) : option Outcome :=
  if all_selected duel then
    duel ← resolve_round duel;
    if threshold_reached duel then Some (Finish duel)
    else
      let duel := set_pokemon duel (no_pokemon duel) in
      let duel := set_countdown_active duel false in
      let duel := set_waiting_for_selection duel true in
      Some (Continue duel)
  else Some (Continue duel).

Definition reject_selection_outcome (duel : Duel) (author : Member.t)
  : option Outcome :=
  scores ← award_opponents author (players duel) (scores duel);
  let duel := set_scores duel scores in
  if threshold_reached duel then Some (Finish duel)
  else
    let duel := set_pokemon duel (no_pokemon duel) in
    let duel := set_countdown_active duel false in
    let duel := set_selection_phase duel false in
    let duel := set_waiting_for_selection duel false in
    Some (Continue duel).

(** The duel once a valid selection is stored. *)
Definition store_selection (duel : Duel) (author : Member.t)
    (pokemon_data : PokemonData) : Duel :=
  let duel :=
    set_pokemon duel
      (Py.set (pokemon duel) (Member.id author) (Some pokemon_data)) in
  set_used_pokemon duel
    (used_pokemon duel ∪ {[Py.lower (name pokemon_data)]}).

Definition message_outcome (duel : Duel) (message : Message)
  : option Outcome :=
  if duel_ended duel then Some Ignored
  else if negb (existsb (Member.eqb (author message)) (players duel))
  then Some Ignored
  else if selection_phase duel && waiting_for_selection duel then
    if in_cooldown duel (time_time message) then Some Unchanged
    else
      slot ← Py.get (pokemon duel) (Member.id (author message));
      match slot with
      | None =>
          match get_pokemon_data message with
          | None => Some Unchanged
          | Some pokemon_data =>
              if negb (validate_pokemon_for_duel (get_evolution_stage message)
                         pokemon_data (duel_type duel) (used_pokemon duel)).1
              then reject_selection_outcome duel (author message)
              else
                after_selection_outcome
                  (store_selection duel (author message) pokemon_data)
          end
      | Some _ => after_selection_outcome duel
      end
  else Some Unchanged.

Definition apply_outcome (m : DuelManager) (ch : Z) (timestamp : string)
    (o : Outcome) : option (DuelManager * bool) :=
  match o with
  | Ignored => Some (m, false)
  | Unchanged => Some (m, true)
  | Continue duel => Some (store m ch duel, true)
  | Finish duel => m ← end_duel m duel ch timestamp; Some (m, true)
  end.

(** What a reaction does to the duel of its channel. *)
Definition reaction_outcome (duel : Duel) (reaction : Reaction)
  : option Duel :=
  if negb (String.eqb (emoji reaction) CHECK_MARK) then None
  else if duel_ended duel then None
  else if negb (bool_decide
            (Member.id (user reaction) ∈ Py.keys (ready_status duel)))
  then None
  else
    let duel :=
      set_ready_status duel
        (Py.set (ready_status duel) (Member.id (user reaction)) true) in
    Some
      (if forallb (fun b : bool => b) (Py.values (ready_status duel))
          && negb (countdown_active duel)
       then
         let duel := set_countdown_active duel true in
         let duel := set_selection_phase duel true in
         let duel :=
           set_ready_status duel
             (Py.from_keys (player_ids (players duel)) false) in
         set_waiting_for_selection duel true
       else duel).

(** What every reachable manager satisfies: running duels are
    well-formed, not ended and below the threshold; finished duels are
    ended and at the threshold; no channel holds both. *)
Record manager_inv (m : DuelManager) : Prop := mk_manager_inv {
  inv_active :
    forall c d, active_duels m !! c = Some d ->
      wf_duel d /\ duel_ended d = false /\ threshold_reached d = false;
  inv_completed :
    forall c d, completed_duels m !! c = Some d ->
      wf_duel d /\ duel_ended d = true /\ threshold_reached d = true;
  inv_disjoint :
    forall c d, active_duels m !! c = Some d -> completed_duels m !! c = None
}.

(** What no handler changes in a duel, and what only grows. *)
Record duel_evolves (d d' : Duel) : Prop := mk_duel_evolves {
  ev_players : players d' = players d;
  ev_rounds : rounds d' = rounds d;
  ev_channel : channel d' = channel d;
  ev_duel_type : duel_type d' = duel_type d;
  ev_triple : is_triple_duel d' = is_triple_duel d;
  ev_last_selection_time : last_selection_time d' = last_selection_time d;
  ev_selection_cooldown : selection_cooldown d' = selection_cooldown d;
  ev_used : used_pokemon d ⊆ used_pokemon d';
  ev_scores_keys : Py.keys (scores d') = Py.keys (scores d);
  ev_pokemon_keys : Py.keys (pokemon d') = Py.keys (pokemon d);
  ev_ready_keys : Py.keys (ready_status d') = Py.keys (ready_status d)
}.

(** * A sample match

    Ash challenges Misty to a best of 3 in a normal duel.  Both
    acknowledge; Ash selects Pikachu and, one second later, Misty
    selects Squirtle, which wins the round.  Both acknowledge again and
    Ash selects Mewtwo, a legendary creature: the penalty gives Misty
    her second point. *)

Definition check (c : Z) (u : Member.t) : Event :=
  ReactionAdded (mkReaction c CHECK_MARK u).

Definition say (c : Z) (a : Member.t) (text : string) (t : float)
    (answer : option PokemonData) : Event :=
  MessagePosted (mkMessage c a text t answer 1 "2024-03-01T10:00:00").

Definition selection_opens : list Event :=
  [ DuelCommand ash misty 3 "normal" 100; check 100 ash; check 100 misty ].

Definition ash_selects : list Event :=
  selection_opens ++ [ say 100 ash "pikachu" 1000%float (Some pikachu) ].

Definition first_round : list Event :=
  ash_selects ++ [ say 100 misty "squirtle" 1001%float (Some squirtle) ].

Definition second_round : list Event :=
  [ check 100 ash; check 100 misty;
    say 100 ash "mewtwo" 1010%float (Some mewtwo) ].

Definition sample_match : list Event := first_round ++ second_round.

Definition manager_after (events : list Event) : DuelManager :=
  default (DuelManager_init ∅) (run (DuelManager_init ∅) events).

Definition duel_after (events : list Event) (c : Z) : Duel :=
  default fresh_pair_duel (registered (manager_after events) c).



(** * Round resolution, in the words of the specification *)




(** A creature whose base stats make up for its name-derived boosts:
    with boosts added every attribute is 100. *)
Definition level_creature (creature_name : string) : PokemonData :=
  let ivs := calculate_ivs creature_name in
  mkPokemon creature_name (Py.lower creature_name)
    (mkStats (100 - hp ivs) (100 - attack ivs) (100 - defense ivs)
       (100 - special_attack ivs) (100 - special_defense ivs)
       (100 - speed ivs))
    ["Normal"%string].

(** A triple duel in which the three selections score the same. *)
Definition tied_round : list Event :=
  [ TripleDuelCommand ash misty brock 3 "normal" 200;
    check 200 ash; check 200 misty; check 200 brock;
    say 200 ash "rattata" 1000%float (Some (level_creature "Rattata"));
    say 200 misty "pidgey" 1004%float (Some (level_creature "Pidgey"));
    say 200 brock "meowth" 1008%float (Some (level_creature "Meowth")) ].

(** A triple duel, best of 3, in which Ash selects a legendary
    creature twice: each penalty gives Misty and Brock a point, and the
    second brings both to the threshold in the same event. *)
Definition double_penalty : list Event :=
  [ TripleDuelCommand ash misty brock 3 "normal" 300;
    check 300 ash; check 300 misty; check 300 brock;
    say 300 ash "mewtwo" 1000%float (Some mewtwo);
    check 300 ash; check 300 misty; check 300 brock;
    say 300 ash "mewtwo" 1010%float (Some mewtwo) ].

(** ** More of [str], on ASCII text *)

Module Str.

Definition is_lower (c : ascii) : bool :=
  let n := nat_of_ascii c in (97 <=? n)%nat && (n <=? 122)%nat.

Definition is_upper (c : ascii) : bool :=
  let n := nat_of_ascii c in (65 <=? n)%nat && (n <=? 90)%nat.

(** A cased character: a letter. *)
Definition is_cased (c : ascii) : bool := is_lower c || is_upper c.

Definition upper_ascii (c : ascii) : ascii :=
  if is_lower c then ascii_of_nat (nat_of_ascii c - 32) else c.

(** [str.upper] *)
Fixpoint upper (s : string) : string :=
  match s with
  | EmptyString => EmptyString
  | String c s' => String (upper_ascii c) (upper s')
  end.

(** [str.title]: a character that follows a cased character is
    lower-cased, any other is upper-cased. *)
Fixpoint title_from (previous_is_cased : bool) (s : string) : string :=
  match s with
  | EmptyString => EmptyString
  | String c s' =>
      String (if previous_is_cased then Py.lower_ascii c else upper_ascii c)
        (title_from (is_cased c) s')
  end.

Definition title (s : string) : string := title_from false s.

(** The characters [str.strip] removes: tab, line feed, vertical tab,
    form feed, carriage return, the four separators 28..31 and the
    blank. *)
Definition is_space (c : ascii) : bool :=
  let n := nat_of_ascii c in
  ((9 <=? n)%nat && (n <=? 13)%nat) || ((28 <=? n)%nat && (n <=? 32)%nat).

Fixpoint lstrip (s : string) : string :=
  match s with
  | EmptyString => EmptyString
  | String c s' => if is_space c then lstrip s' else s
  end.

Fixpoint rstrip (s : string) : string :=
  match s with
  | EmptyString => EmptyString
  | String c s' =>
      match rstrip s' with
      | EmptyString => if is_space c then EmptyString else String c EmptyString
      | rest => String c rest
      end
  end.

(** [str.strip()] *)
Definition strip (s : string) : string := rstrip (lstrip s).

(** [s.replace(old, new)] for one-character [old] and [new]. *)
Fixpoint replace (old new : ascii) (s : string) : string :=
  match s with
  | EmptyString => EmptyString
  | String c s' =>
      String (if Ascii.eqb c old then new else c) (replace old new s')
  end.

(** [c in s] for a character. *)
Fixpoint contains (c : ascii) (s : string) : bool :=
  match s with
  | EmptyString => false
  | String c' s' => Ascii.eqb c' c || contains c s'
  end.

End Str.

(** ** pokemon_api.py: the adapter of the creature data provider *)

Module Api.

(** An answer of the provider: the status and the body as far as the
    adapter reads it; no [json] stands for a body that
    [await resp.json()] or one of the key lookups rejects with an
    exception. *)
Record Response (A : Type) : Type := mkResponse {
  status : Z;
  json : option A
}.
Arguments mkResponse {A} _ _.
Arguments status {A} _.
Arguments json {A} _.

(** The body of [pokemon/<name>]: 'name', 'id', the 'base_stat' of the
    items of 'stats', the type names of the items of 'types', the two
    'front_default' sprites ([None] for null), 'height', 'weight'. *)
Record PokemonJson : Type := mkPokemonJson {
  json_name : string;
  json_id : Z;
  json_stats : list Z;
  json_types : list string;
  json_official_artwork : option string;
  json_front_default : option string;
  json_height : Z;
  json_weight : Z
}.

(** A node of the body of an evolution chain: 'species' 'name' and
    'evolves_to'. *)
#[warnings="-register-all"]
Inductive Chain : Type :=
| mkChain (species_name : string) (evolves_to : list Chain).

(** The provider, request by request: the three request sites of
    [get_pokemon_data] and the two of [get_evolution_stage], each a
    function of the requested name or address.  [None] stands for a
    request that raises. *)
Record Provider : Type := mkProvider {
  get_pokemon : string -> option (Response PokemonJson);
  get_form : string -> option (Response PokemonJson);
  get_base : string -> option (Response PokemonJson);
  get_species : string -> option (Response string);
  get_chain : string -> option (Response Chain)
}.

(** The dict [get_pokemon_data] returns and caches: the four fields the
    duel reads, and 'id', 'image_url', 'height', 'weight'. *)
Record Entry : Type := mkEntry {
  data : PokemonData;
  pokemon_id : Z;
  image_url : option string;
  height : float;
  weight : float
}.

(** [a or b] on texts that may be null. *)
Definition or_else (a b : option string) : option string :=
  match a with
  | Some EmptyString | None => b
  | Some _ => a
  end.

(** The dict literal of [get_pokemon_data], with the display name as
    the request site computes it; [None] stands for the IndexError of
    a 'stats' list of fewer than six items. *)
Definition extract (display_name : string) (body : PokemonJson)
  : option Entry :=
  match json_stats body with
  | hp :: attack :: defense :: special_attack :: special_defense
       :: speed :: _ =>
      Some (mkEntry
              (mkPokemon display_name (json_name body)
                 (mkStats hp attack defense special_attack special_defense
                    speed)
                 (map Str.title (json_types body)))
              (json_id body)
              (or_else (json_official_artwork body) (json_front_default body))
              (Py.float_of_int (json_height body) / 10)%float
              (Py.float_of_int (json_weight body) / 10)%float)
  | _ => None
  end.

Definition normalize (pokemon_name : string) : string :=
  Str.replace " " "-" (Py.lower (Str.strip pokemon_name)).

(** An answer taken in: on status 200 with a body the adapter can
    read, the entry is cached under the normalized name and returned. *)
Definition take (cache : gmap string Entry) (normalized_name : string)
    (display : string -> string) (body : option PokemonJson)
  : option Entry * gmap string Entry :=
  match body ≫= (fun b => extract (display (json_name b)) b) with
  | Some pokemon_data =>
      (Some pokemon_data, <[normalized_name := pokemon_data]> cache)
  | None => (None, cache)
  end.

(** [get_pokemon_data], with the cache passed through.  Every
    exception is caught by the handler of the function, which then
    returns [None]. *)
Definition get_pokemon_data (provider : Provider) (cache : gmap string Entry)
    (pokemon_name : string) : option Entry * gmap string Entry :=
  let normalized_name := normalize pokemon_name in
  match cache !! normalized_name with
  | Some pokemon_data => (Some pokemon_data, cache)
  | None =>
      match get_pokemon provider normalized_name with
      | None => (None, cache)
      | Some resp =>
          if (status resp =? 200)%Z then
            take cache normalized_name Str.title (json resp)
          else if (status resp =? 404)%Z then
            let base_form :=
              let base_name := Py.lower (Py.split_head " " pokemon_name) in
              match get_base provider base_name with
              | None => (None, cache)
              | Some base_resp =>
                  if (status base_resp =? 200)%Z then
                    take cache normalized_name Str.title (json base_resp)
                  else (None, cache)
              end in
            if Str.contains " " pokemon_name then
              let form_name := Py.lower (Str.replace " " "-" pokemon_name) in
              match get_form provider form_name with
              | None => (None, cache)
              | Some form_resp =>
                  if (status form_resp =? 200)%Z then
                    take cache normalized_name
                      (fun n => Str.title (Str.replace "-" " " n))
                      (json form_resp)
                  else base_form
              end
            else base_form
          else (None, cache)
      end
  end.

(** [find_evolution_stage]; a result is taken when it is true, that is
    not [None] and not 0. *)
Fixpoint find_evolution_stage (chain : Chain) (target_name : string)
    (stage : Z) : option Z :=
  match chain with
  | mkChain species_name evolves_to =>
      if String.eqb species_name target_name then Some stage
      else
        (fix evolutions (l : list Chain) : option Z :=
           match l with
           | [] => None
           | evolution :: l' =>
               match find_evolution_stage evolution target_name (stage + 1) with
               | Some result =>
                   if (result =? 0)%Z then evolutions l' else Some result
               | None => evolutions l'
               end
           end) evolves_to
  end.

(** [get_evolution_stage]: the body of the species answer is the
    address of its evolution chain. *)
Definition get_evolution_stage (provider : Provider) (pokemon_name : string)
  : Z :=
  match get_species provider pokemon_name with
  | Some resp =>
      if (status resp =? 200)%Z then
        match json resp with
        | Some evolution_chain_url =>
            match get_chain provider evolution_chain_url with
            | Some chain_resp =>
                if (status chain_resp =? 200)%Z then
                  match json chain_resp with
                  | Some chain =>
                      match find_evolution_stage chain pokemon_name 1 with
                      | Some stage => if (stage =? 0)%Z then 1%Z else stage
                      | None => 1%Z
                      end
                  | None => 1%Z
                  end
                else 1%Z
            | None => 1%Z
            end
        | None => 1%Z
        end
      else 1%Z
  | None => 1%Z
  end.

End Api.

(** * Vocabulary of the provider adapter *)

(** The attacking categories of the chart, in the order of the source:
    the iteration order of [pokemon_go_effectiveness.items()]. *)
Definition attack_types : list string :=
  [ "normal"; "fire"; "water"; "electric"; "grass"; "ice"; "fighting";
    "poison"; "ground"; "flying"; "psychic"; "bug"; "rock"; "ghost";
    "dragon"; "dark"; "steel"; "fairy" ]%string.

(** The first letter of a text is a capital, if it has a letter. *)
Fixpoint starts_upper (s : string) : bool :=
  match s with
  | EmptyString => true
  | String c s' => if Str.is_cased c then Str.is_upper c else starts_upper s'
  end.

(** A sequence of lookups, each with the provider as it answers then. *)
Fixpoint lookups (cache : gmap string Api.Entry)
    (requests : list (Api.Provider * string))
  : list (option Api.Entry) * gmap string Api.Entry :=
  match requests with
  | [] => ([], cache)
  | (provider, pokemon_name) :: requests' =>
      let '(answer, cache) :=
        Api.get_pokemon_data provider cache pokemon_name in
      let '(answers, cache) := lookups cache requests' in
      (answer :: answers, cache)
  end.

(** Every cached entry has categories spelt by [str.title]. *)
Definition titled (e : Api.Entry) : Prop :=
  exists raw, types (Api.data e) = map Str.title raw.

(** A node named [target] lies [n] evolutions below the root. *)
Inductive occurs (target : string) : Api.Chain -> nat -> Prop :=
| occurs_here (l : list Api.Chain) : occurs target (Api.mkChain target l) 0
| occurs_below (s : string) (l : list Api.Chain) (c : Api.Chain) (n : nat) :
    c ∈ l -> occurs target c n -> occurs target (Api.mkChain s l) (S n).

(** What one lookup does: the answer is the entry the cache held under
    the key, or a new entry read from an answer of the provider and
    cached under the key, or there is no answer. *)
Inductive lookup_step (cache : gmap string Api.Entry) (key : string)
  : option Api.Entry -> gmap string Api.Entry -> Prop :=
| lookup_hit (e : Api.Entry) :
    cache !! key = Some e -> lookup_step cache key (Some e) cache
| lookup_new (e : Api.Entry) (display : string) (body : Api.PokemonJson) :
    cache !! key = None -> Api.extract display body = Some e ->
    lookup_step cache key (Some e) (<[key := e]> cache)
| lookup_none :
    cache !! key = None -> lookup_step cache key None cache.

(** Every entry of a cache has categories spelt by [str.title]. *)
Definition cache_titled (cache : gmap string Api.Entry) : Prop :=
  forall k e, cache !! k = Some e -> titled e.

(** A sample provider: it knows Pikachu and Squirtle and the chain of
    Bulbasaur, and answers 404 to everything else. *)
Definition pikachu_json : Api.PokemonJson :=
  Api.mkPokemonJson "pikachu" 25 [35; 55; 40; 50; 50; 90]%Z
    ["electric"%string] (Some "artwork/25.png"%string)
    (Some "sprites/25.png"%string) 4 60.

Definition squirtle_json : Api.PokemonJson :=
  Api.mkPokemonJson "squirtle" 7 [44; 48; 65; 50; 64; 43]%Z
    ["water"%string] None (Some "sprites/7.png"%string) 5 90.

Definition not_found {A : Type} : option (Api.Response A) :=
  Some (Api.mkResponse 404 None).

Definition sample_pokemon (requested : string)
  : option (Api.Response Api.PokemonJson) :=
  if String.eqb requested "pikachu" then
    Some (Api.mkResponse 200 (Some pikachu_json))
  else if String.eqb requested "squirtle" then
    Some (Api.mkResponse 200 (Some squirtle_json))
  else not_found.

Definition bulbasaur_chain : Api.Chain :=
  Api.mkChain "bulbasaur"
    [Api.mkChain "ivysaur" [Api.mkChain "venusaur" []]].

Definition sample_provider : Api.Provider :=
  Api.mkProvider sample_pokemon sample_pokemon sample_pokemon
    (fun requested =>
       if bool_decide (requested ∈ ["bulbasaur"; "ivysaur"; "venusaur"]%string)
       then Some (Api.mkResponse 200 (Some "evolution-chain/1"%string))
       else not_found)
    (fun address =>
       if String.eqb address "evolution-chain/1"
       then Some (Api.mkResponse 200 (Some bulbasaur_chain))
       else not_found).

(** A provider that is out of reach: every request raises. *)
Definition unreachable_provider : Api.Provider :=
  Api.mkProvider (fun _ => None) (fun _ => None) (fun _ => None)
    (fun _ => None) (fun _ => None).

(** A request answered with status 200 and a body the adapter reads. *)
Definition answered {A : Type} (answer : option (Api.Response A)) (body : A)
  : Prop :=
  exists resp,
    answer = Some resp /\ Api.status resp = 200%Z /\ Api.json resp = Some body.

(** The provider gives the evolution chain of the species. *)
Definition chain_of (provider : Api.Provider) (pokemon_name : string)
    (chain : Api.Chain) : Prop :=
  exists address,
    answered (Api.get_species provider pokemon_name) address
    /\ answered (Api.get_chain provider address) chain.

(** A text without a leading, and without a trailing, character that
    [str.strip] removes. *)
Definition no_lead (s : string) : bool :=
  match s with
  | EmptyString => true
  | String c _ => negb (Str.is_space c)
  end.

Fixpoint no_trail (s : string) : bool :=
  match s with
  | EmptyString => true
  | String c EmptyString => negb (Str.is_space c)
  | String _ s' => no_trail s'
  end.

(** ** main.py: the history and stats commands *)

(** [list.sort(key=key, reverse=reverse)] on texts as keys: sorted by
    key, ascending or descending, items of equal keys in their
    original order. *)
Section Sort.
Context {A : Type} (key : A -> string) (reverse : bool).

(** [x] may stand before [y]. *)
Definition in_order (x y : A) : bool :=
  if reverse then String.leb (key y) (key x) else String.leb (key x) (key y).

Fixpoint insert_in_order (x : A) (l : list A) : list A :=
  match l with
  | [] => [x]
  | y :: l' => if in_order x y then x :: l else y :: insert_in_order x l'
  end.

Fixpoint sort (l : list A) : list A :=
  match l with
  | [] => []
  | x :: l' => insert_in_order x (sort l')
  end.
End Sort.

(** The keys of a history record the commands read. *)
Definition record_timestamp (r : DuelRecord) : string :=
  match r with
  | TripleRecord ts _ _ _ _ _ _ _ _ _ _ _ _ _ => ts
  | PairRecord ts _ _ _ _ _ _ _ _ _ _ => ts
  end.

Module Main.

(** One field of the history embed: the result, the opponent names
    and the score text.  The duel type and the time text of the field
    are left out; the time text is what the datetime library makes of
    the timestamp, which is taken to be an ISO text. *)
Record Field : Type := mkField {
  player_won : bool;
  opponent_names : list string;
  score : string
}.

(** ["-".join(parts)] *)
Fixpoint join_dash (parts : list string) : string :=
  match parts with
  | [] => EmptyString
  | [p] => p
  | p :: parts' => (p ++ "-" ++ join_dash parts')%string
  end.

(** The body of the loop of [duel_history] for one record: the field
    added, or none for a triple record the player is not part of. *)
Definition history_field (player : Member.t) (duel : DuelRecord)
  : option Field :=
  let me := pretty (Member.id player) in
  match duel with
  | TripleRecord _ p1 p2 p3 n1 n2 n3 s1 s2 s3 _ _ winner _ =>
      let is_player :=
        bool_decide (me ∈ [pretty p1; pretty p2; pretty p3]) in
      if negb is_player then None
      else
        let player_won := String.eqb me (pretty winner) in
        let opponent_names :=
          flat_map
            (fun pn : Z * string =>
               if negb (String.eqb (pretty pn.1) me) then [pn.2] else [])
            [(p1, n1); (p2, n2); (p3, n3)] in
        let score_parts :=
          fold_left
            (fun parts ps =>
               if String.eqb (pretty ps.1) me
               then pretty ps.2 :: parts
               else parts ++ [pretty ps.2])
            [(p1, s1); (p2, s2); (p3, s3)] ([] : list string) in
        Some (mkField player_won opponent_names (join_dash score_parts))
  | PairRecord _ p1 p2 n1 n2 s1 s2 _ _ winner _ =>
      let is_player1 := String.eqb me (pretty p1) in
      let opponent_name := if is_player1 then n2 else n1 in
      let player_won := String.eqb me (pretty winner) in
      let score :=
        if is_player1 then (pretty s1 ++ "-" ++ pretty s2)%string
        else (pretty s2 ++ "-" ++ pretty s1)%string in
      Some (mkField player_won [opponent_name] score)
  end.

(** The history embed: its fields and the record of the footer. *)
Record Embed : Type := mkEmbed {
  fields : list Field;
  wins : Z;
  losses : Z
}.

Definition history_embed (player : Member.t) (recent_history : list DuelRecord)
  : Embed :=
  fold_left
    (fun embed duel =>
       match history_field player duel with
       | None => embed
       | Some field =>
           if player_won field
           then mkEmbed (fields embed ++ [field]) (wins embed + 1)
                  (losses embed)
           else mkEmbed (fields embed ++ [field]) (wins embed)
                  (losses embed + 1)
       end)
    recent_history (mkEmbed [] 0 0).

(** The numbers of the stats image and of the embed that replaces it
    when the image cannot be made. *)
Record PlayerStats : Type := mkPlayerStats {
  stats_wins : Z;
  stats_losses : Z;
  win_rate : float;
  win_streak : Z;
  total_duels : Z
}.

(** The loop of [player_stats]: wins, losses, longest and current
    streak. *)
Definition tally (player : Member.t) (history : list DuelRecord)
  : Z * Z * Z * Z :=
  fold_left
    (fun '(wins, losses, win_streak, current_streak) duel =>
       let player_won :=
         String.eqb (pretty (Member.id player)) (pretty (record_winner duel)) in
       if player_won then
         (wins + 1, losses, Z.max win_streak (current_streak + 1),
          current_streak + 1)%Z
       else (wins, losses + 1, win_streak, 0)%Z)
    history (0, 0, 0, 0)%Z.

(** The command [stats]: [history] is the very list of the store, so
    that sorting it reorders the store, here oldest first; the reply
    is none when the player has no history. *)
Definition player_stats (m : DuelManager) (ctx_author : Member.t)
    (player : option Member.t) : DuelManager * option PlayerStats :=
  let player := default ctx_author player in
  match duel_history m !! pretty (Member.id player) with
  | None | Some [] => (m, None)
  | Some history =>
      let history := sort record_timestamp false history in
      let '(wins, losses, win_streak, _) := tally player history in
      let total_duels := (wins + losses)%Z in
      let win_rate :=
        if (0 <? total_duels)%Z
        then (Py.float_of_int wins / Py.float_of_int total_duels * 100)%float
        else 0%float in
      (mkDuelManager (active_duels m) (completed_duels m)
         (<[pretty (Member.id player) := history]> (duel_history m)),
       Some (mkPlayerStats wins losses win_rate win_streak total_duels))
  end.

(** The command [history]; it sorts the list of the store as well,
    newest first, and shows the first five. *)
Definition duel_history (m : DuelManager) (ctx_author : Member.t)
    (player : option Member.t) : DuelManager * option Embed :=
  let player := default ctx_author player in
  match duel_history m !! pretty (Member.id player) with
  | None | Some [] => (m, None)
  | Some history =>
      let history := sort record_timestamp true history in
      let recent_history := take 5 history in
      (mkDuelManager (active_duels m) (completed_duels m)
         (<[pretty (Member.id player) := history]> (duel_history m)),
       Some (history_embed player recent_history))
  end.

End Main.

(** * Vocabulary of the commands *)

(** The order of the timestamps: [a] is older than [b]. *)
Definition older (a b : DuelRecord) : Prop :=
  String.ltb (record_timestamp a) (record_timestamp b) = true.

(** [a] is not older than [b]. *)
Definition not_older (a b : DuelRecord) : Prop :=
  String.leb (record_timestamp b) (record_timestamp a) = true.

(** [a] is not newer than [b]. *)
Definition not_newer (a b : DuelRecord) : Prop :=
  String.leb (record_timestamp a) (record_timestamp b) = true.

(** Twenty records of Ash, one a day, oldest first. *)
Definition day_record (day : string) : DuelRecord :=
  PairRecord ("2024-01-" ++ day ++ "T10:00:00") 1 2 "Ash" "Misty" 2 0 3
    "normal" 1 (Some 2%Z).

Definition twenty_days : list DuelRecord :=
  map day_record
    [ "01"; "02"; "03"; "04"; "05"; "06"; "07"; "08"; "09"; "10";
      "11"; "12"; "13"; "14"; "15"; "16"; "17"; "18"; "19"; "20" ]%string.

Definition chronological_store : DuelManager :=
  mkDuelManager ∅ ∅ {[ "1"%string := twenty_days ]}.

(** * Vocabulary of the invariants *)

(** What [start_duel] has checked when it registers a duel. *)
Record accepted (author : Member.t) (opponents : list Member.t) (rounds : Z)
    (duel_type : string) : Prop := mk_accepted {
  accepted_rounds : rounds ∈ [3; 5; 7]%Z;
  accepted_type :
    duel_type ∈ ["1st-evolution"; "2nd-evolution"; "normal";
                 "legendaries"]%string;
  accepted_not_self : existsb (Member.eqb author) opponents = false;
  accepted_no_bot : existsb Member.bot opponents = false;
  accepted_distinct : NoDup (player_ids opponents);
  accepted_opponent : opponents <> []
}.

(** The selection phase of a running duel: outside it no selection is
    stored; inside it the duel waits for selections, the countdown flag
    is set and some participant has not selected yet. *)
Definition phase_inv (d : Duel) : Prop :=
  (selection_phase d = false -> pokemon d = no_pokemon d)
  /\ (selection_phase d = true ->
      waiting_for_selection d = true /\ countdown_active d = true
      /\ all_selected d = false).

(** [P] holds of every running duel and [Q] of every finished one. *)
Definition holds_in (P Q : Duel -> Prop) (m : DuelManager) : Prop :=
  (forall c d, active_duels m !! c = Some d -> P d)
  /\ (forall c d, completed_duels m !! c = Some d -> Q d).

(** Ash posts another name after his selection of Pikachu is stored. *)
Definition ash_again : Message :=
  mkMessage 100 ash "squirtle" 1004%float (Some squirtle) 1
    "2024-03-01T10:00:00".

(** One scoring event on a score table: every score stays or grows by
    1; in a table of two, at most one score grows. *)
Definition one_point_each (s s' : Py.dict Z) : Prop :=
  Forall2 (fun x y : Z * Z => x.1 = y.1 /\ (x.2 <= y.2 <= x.2 + 1)%Z) s s'
  /\ forall k1 v1 k2 v2,
       s = [(k1, v1); (k2, v2)] ->
       s' = s \/ s' = [(k1, v1 + 1); (k2, v2)]%Z
       \/ s' = [(k1, v1); (k2, v2 + 1)]%Z.

(** Every score lies between 0 and [bound]. *)
Definition scores_within (d : Duel) (bound : Z) : Prop :=
  Forall (fun v => (0 <= v <= bound)%Z) (Py.values (scores d)).

(** A finished duel of two: one participant holds exactly the points
    needed, the other fewer. *)
Definition decided (d : Duel) : Prop :=
  exists k1 v1 k2 v2,
    scores d = [(k1, v1); (k2, v2)]
    /\ (v1 = needed_wins d /\ (v2 < needed_wins d)%Z
        \/ v2 = needed_wins d /\ (v1 < needed_wins d)%Z).

(** The creatures of the round history, in lower case, and those of
    the selections stored for the round under way. *)
Definition history_names (d : Duel) : list string :=
  flat_map (fun r => map Py.lower (round_pokemon r)) (round_history d).

Definition selected_names (d : Duel) : list string :=
  omap (fun kv : Z * option PokemonData =>
          (fun pokemon_data => Py.lower (name pokemon_data)) <$> kv.2)
    (pokemon d).

(** No creature occurs twice, and every one is in the used-set. *)
Definition used_once (names : list string) (d : Duel) : Prop :=
  NoDup names /\ forall n, n ∈ names -> n ∈ used_pokemon d.

(** ** image_generator.py: weaknesses, resistances and the label *)

(** The items of the chart in the iteration order of the dict. *)
Definition effectiveness_items : list (string * gmap string float) :=
  omap (fun attacking_type =>
          (fun effectiveness => (attacking_type, effectiveness))
            <$> pokemon_go_effectiveness !! attacking_type)
    attack_types.

(** A dict with text keys in insertion order: [dict.get] and item
    assignment. *)
Fixpoint text_get {V : Type} (d : list (string * V)) (k : string) : option V :=
  match d with
  | [] => None
  | (k', v) :: d' => if String.eqb k' k then Some v else text_get d' k
  end.

Fixpoint text_set {V : Type} (d : list (string * V)) (k : string) (v : V)
  : list (string * V) :=
  match d with
  | [] => [(k, v)]
  | (k', v') :: d' =>
      if String.eqb k' k then (k', v) :: d' else (k', v') :: text_set d' k v
  end.

(** The loops of [get_weaknesses] and [get_resistances]: they are the
    same text but for the comparison of the entry with 1, here
    [counts].  First the body of the inner loop, for one item of the
    chart. *)
Definition collect_step (counts : float -> bool) (defending_type : string)
    (found : list (string * float))
    (item : string * gmap string float) : list (string * float) :=
  let '(attacking_type, effectiveness) := item in
  match effectiveness !! defending_type with
  | Some e =>
      if counts e then
        match text_get found attacking_type with
        | Some product => text_set found attacking_type (product * e)%float
        | None => text_set found attacking_type e
        end
      else found
  | None => found
  end.

Definition collect (counts : float -> bool) (pokemon_types : list string)
  : list (string * float) :=
  fold_left
    (fun found defending_type =>
       fold_left (collect_step counts defending_type) effectiveness_items
         found)
    pokemon_types [].

Definition get_weaknesses (pokemon_types : list string)
  : list (string * float) :=
  collect (fun e => Py.gt e 1) pokemon_types.

Definition get_resistances (pokemon_types : list string)
  : list (string * float) :=
  collect (fun e => PrimFloat.ltb e 1) pokemon_types.

(** The integer nearest to [n / d], a tie going to the even one, for
    [0 <= n] and [0 < d]. *)
Definition round_half_even (n d : Z) : Z :=
  let q := (n / d)%Z in
  let r := (n mod d)%Z in
  if (2 * r <? d)%Z then q
  else if (d <? 2 * r)%Z then (q + 1)%Z
  else if Z.even q then q else (q + 1)%Z.

(** ["{:.1f}".format(x)]: the decimal text of the exact value of [x],
    rounded to one digit after the point, ties to even. *)
Definition format_1f (x : float) : string :=
  match Prim2SF x with
  | S754_nan => "nan"
  | S754_infinity s => if s then "-inf" else "inf"
  | S754_zero s => if s then "-0.0" else "0.0"
  | S754_finite s m e =>
      let tenths :=
        if (0 <=? e)%Z then (10 * Z.pos m * 2 ^ e)%Z
        else round_half_even (10 * Z.pos m) (2 ^ (- e)) in
      ((if s then "-" else "") ++ pretty (tenths / 10)%Z ++ "."
       ++ pretty (tenths mod 10)%Z)%string
  end.

Definition get_advantage_text (advantage : float) : string :=
  if PrimFloat.leb 1.6 advantage then
    ("Super Effective! (x" ++ format_1f advantage ++ ")")%string
  else if Py.gt advantage 1 then
    ("Effective (x" ++ format_1f advantage ++ ")")%string
  else if PrimFloat.eqb advantage 1 then "Neutral (x1)"%string
  else if Py.gt advantage 0.625 then
    ("Resisted (x" ++ format_1f advantage ++ ")")%string
  else if Py.gt advantage 0.391 then
    ("Very Resisted (x" ++ format_1f advantage ++ ")")%string
  else ("No Effect! (x" ++ format_1f advantage ++ ")")%string.

(** Two creatures as the provider names them: a form of a legendary
    species, and a species whose name has two words. *)
Definition deoxys_attack : PokemonData :=
  mkPokemon "Deoxys-Attack" "deoxys-attack" (mkStats 50 180 20 180 20 150)
    ["Psychic"%string].
Definition tapu_koko : PokemonData :=
  mkPokemon "Tapu-Koko" "tapu-koko" (mkStats 70 115 85 95 75 130)
    ["Electric"; "Fairy"]%string.

(** ** image_generator.py: the numbers of the image of three *)

(** The averaged battle scores [create_triple_vs_image] draws under
    the three creatures. *)
Definition triple_image_scores
    (pokemon1_data pokemon2_data pokemon3_data : PokemonData)
  : float * float * float :=
  let '(battle_score1_2, battle_score2_1) :=
    calculate_battle_score pokemon1_data pokemon2_data in
  let '(battle_score1_3, battle_score3_1) :=
    calculate_battle_score pokemon1_data pokemon3_data in
  let '(battle_score2_3, battle_score3_2) :=
    calculate_battle_score pokemon2_data pokemon3_data in
  let avg_score1 := ((battle_score1_2 + battle_score1_3) / 2)%float in
  let avg_score2 := ((battle_score2_1 + battle_score2_3) / 2)%float in
  let avg_score3 := ((battle_score3_1 + battle_score3_2) / 2)%float in
  (avg_score1, avg_score2, avg_score3).

(** A duel of three in which everybody has selected. *)
Definition three_selected : Duel :=
  set_pokemon (Duel_init [ash; misty; brock] 3 200 "normal")
    [(1, Some pikachu); (2, Some squirtle); (3, Some mewtwo)]%Z.

(** * The handlers between their suspensions

    The definitions above run a handler from its first line to its
    return.  The platform runs the handlers as coroutines of one
    thread: a handler runs alone up to an [await] that suspends it,
    and other handlers run before it is resumed.  Here each handler is
    cut at its suspensions.  Consecutive awaits with no access to the
    duel between them count as one suspension.  An [await] of a
    coroutine that never suspends ([is_legendary], the two image
    functions, which fetch with the blocking [requests]) is no
    suspension; [get_pokemon_data] suspends on a cache miss only, which
    a schedule renders by resuming the handler at once. *)

(** A suspended handler keeps the duel object it took from
    [active_duels]: the object registered under the channel, running or
    finished, since a channel is created for one duel.  An assignment
    to the object is seen wherever it is registered. *)
Definition put (m : DuelManager) (ch : Z) (duel : Duel) : DuelManager :=
  mkDuelManager (alter (fun _ => duel) ch (active_duels m))
    (alter (fun _ => duel) ch (completed_duels m)) (duel_history m).

(** The rest of a suspended handler, named by the await it is
    suspended at, with the local variables it reads later. *)
Inductive Task : Type :=
| AtReadyEdit (reaction : Reaction)
| AtCountdown (reaction : Reaction)
| AtDelete (message : Message)
| AtLookup (message : Message)
| AtStage (message : Message) (pokemon_data : PokemonData)
    (used_pokemon : gset string)
| AtPenaltyNotice (message : Message)
| AtSuspense (message : Message) (round_winner : string)
| AtReveal (message : Message) (round_winner : string)
| AtAnnouncement (message : Message)
| AtScoreText (message : Message)
| AtShowdown (message : Message) (losers : list Member.t).

(** What a handler does up to its next suspension: the manager then
    and the rest of the handler, if it has not returned.  [None] stands
    for an exception, as above. *)
Definition Segment : Type := option (DuelManager * option Task).

(** ** [handle_reaction] *)

(** Up to [duel.ready_message.edit]. *)
Definition reaction_begin (m : DuelManager) (reaction : Reaction)
  : Segment :=
  match active_duels m !! reaction_channel reaction with
  | Some duel =>
      if negb (String.eqb (emoji reaction) CHECK_MARK) then Some (m, None)
      else if duel_ended duel then Some (m, None)
      else if negb (bool_decide
                (Member.id (user reaction) ∈ Py.keys (ready_status duel)))
      then Some (m, None)
      else
        let duel :=
          set_ready_status duel
            (Py.set (ready_status duel) (Member.id (user reaction)) true) in
        Some (put m (reaction_channel reaction) duel,
              Some (AtReadyEdit reaction))
  | None => Some (m, None)
  end.

(** From the edit to the countdown. *)
Definition after_ready_edit (m : DuelManager) (reaction : Reaction)
  : Segment :=
  duel ← registered m (reaction_channel reaction);
  if forallb (fun b : bool => b) (Py.values (ready_status duel))
     && negb (countdown_active duel)
  then
    let duel := set_countdown_active duel true in
    Some (put m (reaction_channel reaction) duel,
          Some (AtCountdown reaction))
  else Some (m, None).

(** After the countdown and the call for selections. *)
Definition after_countdown (m : DuelManager) (reaction : Reaction)
  : Segment :=
  duel ← registered m (reaction_channel reaction);
  let duel := set_selection_phase duel true in
  let duel :=
    set_ready_status duel (Py.from_keys (player_ids (players duel)) false) in
  let duel := set_waiting_for_selection duel true in
  Some (put m (reaction_channel reaction) duel, None).

(** ** [end_duel] *)

(** Up to the first send: the winner, the losers and the history
    record. *)
Definition end_duel_begin (m : DuelManager) (message : Message) : Segment :=
  duel ← registered m (message_channel message);
  winner_id ← Py.max_key (scores duel);
  winner ← find (fun player => Z.eqb (Member.id player) winner_id)
             (players duel);
  let losers :=
    List.filter (fun player => negb (Z.eqb (Member.id player) winner_id))
      (players duel) in
  m ← add_to_history m duel (datetime_now message) winner_id losers;
  Some (m, Some (AtShowdown message losers)).

(** From the first send to the return: the texts, the showdown of 7
    seconds, the channel edits and the three last statements. *)
Definition after_showdown (m : DuelManager) (message : Message)
    (losers : list Member.t) : Segment :=
  let ch := message_channel message in
  duel ← registered m ch;
  if (length losers <? (if is_triple_duel duel then 2 else 1))%nat then None
  else
    let duel := set_duel_ended duel true in
    Some (mkDuelManager (delete ch (active_duels m))
            (<[ch := duel]> (completed_duels m)) (duel_history m),
          None).

(** ** [handle_message] *)

(** Up to [message.delete]. *)
Definition message_begin (m : DuelManager) (message : Message) : Segment :=
  match active_duels m !! message_channel message with
  | None => Some (m, None)
  | Some duel =>
      if duel_ended duel then Some (m, None)
      else if negb (existsb (Member.eqb (author message)) (players duel))
      then Some (m, None)
      else if selection_phase duel && waiting_for_selection duel then
        if in_cooldown duel (time_time message) then Some (m, None)
        else Some (m, Some (AtDelete message))
      else Some (m, None)
  end.

(** From "all players have selected" to the pause of one second. *)
Definition all_check (m : DuelManager) (message : Message) : Segment :=
  let ch := message_channel message in
  duel ← registered m ch;
  if all_selected duel then
    battle_scores ← battle_scores duel;
    names ← round_names duel;
    fields ← round_score_fields duel battle_scores;
    '(round_winner, scores) ← round_outcome duel battle_scores;
    let round_data := mkRoundData names fields round_winner in
    let duel := set_scores duel scores in
    let duel := set_round_history duel (round_history duel ++ [round_data]) in
    let duel := set_waiting_for_selection duel false in
    Some (put m ch duel, Some (AtSuspense message round_winner))
  else Some (m, None).

(** From the deletion to the lookup, or on to the test above. *)
Definition after_delete (m : DuelManager) (message : Message) : Segment :=
  duel ← registered m (message_channel message);
  slot ← Py.get (pokemon duel) (Member.id (author message));
  match slot with
  | None => Some (m, Some (AtLookup message))
  | Some _ => all_check m message
  end.

(** The penalty loop, up to the notice. *)
Definition penalty (m : DuelManager) (message : Message) : Segment :=
  let ch := message_channel message in
  duel ← registered m ch;
  scores ← award_opponents (author message) (players duel) (scores duel);
  Some (put m ch (set_scores duel scores), Some (AtPenaltyNotice message)).

(** A valid selection is stored; on to the test of all selections. *)
Definition accept (m : DuelManager) (message : Message)
    (pokemon_data : PokemonData) : Segment :=
  let ch := message_channel message in
  duel ← registered m ch;
  all_check (put m ch (store_selection duel (author message) pokemon_data))
    message.

(** [validate_pokemon_for_duel] suspends in [get_evolution_stage],
    and nowhere else: after its test of the used-set, in the two
    evolution kinds. *)
Definition validation_suspends (duel : Duel) (pokemon_data : PokemonData)
  : bool :=
  negb (bool_decide (Py.lower (name pokemon_data) ∈ used_pokemon duel))
  && (String.eqb (duel_type duel) "1st-evolution"
      || String.eqb (duel_type duel) "2nd-evolution").

(** From the provider's answer to the verdict of the validation, or to
    its suspension. *)
Definition after_lookup (m : DuelManager) (message : Message) : Segment :=
  match get_pokemon_data message with
  | None => Some (m, None)
  | Some pokemon_data =>
      duel ← registered m (message_channel message);
      if validation_suspends duel pokemon_data
      then Some (m, Some (AtStage message pokemon_data (used_pokemon duel)))
      else if negb (validate_pokemon_for_duel (get_evolution_stage message)
                      pokemon_data (duel_type duel) (used_pokemon duel)).1
      then penalty m message
      else accept m message pokemon_data
  end.

(** The validation resumed with the stage.  Its test of the used-set
    was made before the suspension, on the set as it was then,
    [used_pokemon]; the set is not read again. *)
Definition after_stage (m : DuelManager) (message : Message)
    (pokemon_data : PokemonData) (used_pokemon : gset string) : Segment :=
  duel ← registered m (message_channel message);
  if negb (validate_pokemon_for_duel (get_evolution_stage message)
             pokemon_data (duel_type duel) used_pokemon).1
  then penalty m message
  else accept m message pokemon_data.

(** After the notice of the penalty. *)
Definition after_penalty_notice (m : DuelManager) (message : Message)
  : Segment :=
  let ch := message_channel message in
  duel ← registered m ch;
  if threshold_reached duel then end_duel_begin m message
  else
    let duel := set_pokemon duel (no_pokemon duel) in
    let duel := set_countdown_active duel false in
    let duel := set_selection_phase duel false in
    let duel := set_waiting_for_selection duel false in
    Some (put m ch duel, None).

(** After the pause: the selection phase ends, the image is made and
    sent. *)
Definition after_suspense (m : DuelManager) (message : Message)
    (round_winner : string) : Segment :=
  let ch := message_channel message in
  duel ← registered m ch;
  Some (put m ch (set_selection_phase duel false),
        Some (AtReveal message round_winner)).

(** The announcement reads the selection of the round winner, found
    by name. *)
Definition after_reveal (m : DuelManager) (message : Message)
    (round_winner : string) : Segment :=
  duel ← registered m (message_channel message);
  if String.eqb round_winner TIE then Some (m, Some (AtAnnouncement message))
  else
    winner ← find (fun player => String.eqb (Member.name player) round_winner)
               (players duel);
    _ ← mjoin (Py.get (pokemon duel) (Member.id winner));
    Some (m, Some (AtAnnouncement message)).

Definition after_announcement (m : DuelManager) (message : Message)
  : Segment :=
  let ch := message_channel message in
  duel ← registered m ch;
  Some (put m ch (set_current_round duel (current_round duel + 1)%Z),
        Some (AtScoreText message)).

(** After the score text: the duel ends or the next round is prepared. *)
Definition after_score_text (m : DuelManager) (message : Message)
  : Segment :=
  let ch := message_channel message in
  duel ← registered m ch;
  if threshold_reached duel then end_duel_begin m message
  else
    let duel := set_pokemon duel (no_pokemon duel) in
    let duel := set_countdown_active duel false in
    let duel := set_waiting_for_selection duel true in
    Some (put m ch duel, None).

(** ** The scheduler *)

(** An event is delivered: its handler runs up to its first
    suspension.  [start_duel] reads nothing of the manager and writes
    it once, when it registers the duel: a command is delivered when it
    does. *)
Definition begin (m : DuelManager) (e : Event) : Segment :=
  match e with
  | DuelCommand a o r t c =>
      (fun m => (m, None)) <$> duel_start m a o r t c
  | TripleDuelCommand a o1 o2 r t c =>
      (fun m => (m, None)) <$> triple_duel_start m a o1 o2 r t c
  | ReactionAdded reaction =>
      if Member.bot (user reaction) then Some (m, None)
      else reaction_begin m reaction
  | MessagePosted message =>
      if Member.bot (author message) then Some (m, None)
      else message_begin m message
  end.

(** A suspended handler is resumed: it runs up to its next
    suspension. *)
Definition resume (m : DuelManager) (task : Task) : Segment :=
  match task with
  | AtReadyEdit reaction => after_ready_edit m reaction
  | AtCountdown reaction => after_countdown m reaction
  | AtDelete message => after_delete m message
  | AtLookup message => after_lookup m message
  | AtStage message pokemon_data used_pokemon =>
      after_stage m message pokemon_data used_pokemon
  | AtPenaltyNotice message => after_penalty_notice m message
  | AtSuspense message round_winner => after_suspense m message round_winner
  | AtReveal message round_winner => after_reveal m message round_winner
  | AtAnnouncement message => after_announcement m message
  | AtScoreText message => after_score_text m message
  | AtShowdown message losers => after_showdown m message losers
  end.

(** The manager and the suspended handlers, oldest first. *)
Record World : Type := mkWorld {
  manager : DuelManager;
  suspended : list Task
}.

Inductive Move : Type :=
| Deliver (e : Event)
| Resume (i : nat).

Definition move (w : World) (a : Move) : option World :=
  match a with
  | Deliver e =>
      if creates_new_channel (manager w) e then
        '(m, task) ← begin (manager w) e;
        Some (mkWorld m (suspended w ++ option_list task))
      else None
  | Resume i =>
      task ← suspended w !! i;
      '(m, task') ← resume (manager w) task;
      Some (mkWorld m
              (take i (suspended w) ++ option_list task'
               ++ drop (S i) (suspended w)))
  end.

Fixpoint play (w : World) (moves : list Move) : option World :=
  match moves with
  | [] => Some w
  | a :: moves' => w' ← move w a; play w' moves'
  end.

(** The handler of one event run to its return with no other handler
    in between; a handler suspends eight times at most. *)
Fixpoint finish (fuel : nat) (r : Segment) : option DuelManager :=
  match r with
  | None => None
  | Some (m, None) => Some m
  | Some (m, Some task) =>
      match fuel with
      | O => None
      | S fuel' => finish fuel' (resume m task)
      end
  end.

Definition uninterrupted (m : DuelManager) (e : Event)
  : option DuelManager :=
  if creates_new_channel m e then finish 8 (begin m e) else None.

(** ** One handler at a time *)

(** An event whose handler is resumed [n] times before anything else
    happens; no other handler is suspended meanwhile. *)
Definition alone (e : Event) (n : nat) : list Move :=
  Deliver e :: replicate n (Resume 0).

(** A schedule that runs the handlers one at a time: each event is
    delivered when no handler is suspended, and its handler is resumed
    to its return, [n] times, before the next. *)
Fixpoint play_alone (w : World) (events : list (Event * nat))
  : option World :=
  match events with
  | [] => Some w
  | (e, n) :: events' =>
      w' ← play w (alone e n);
      match suspended w' with
      | [] => play_alone w' events'
      | _ :: _ => None
      end
  end.

(** How often a suspended handler is resumed, at most, before it
    returns. *)
Definition rank (task : Task) : nat :=
  match task with
  | AtReadyEdit _ => 2
  | AtCountdown _ => 1
  | AtDelete _ => 8
  | AtLookup _ => 7
  | AtStage _ _ _ => 6
  | AtPenaltyNotice _ => 2
  | AtSuspense _ _ => 5
  | AtReveal _ _ => 4
  | AtAnnouncement _ => 3
  | AtScoreText _ => 2
  | AtShowdown _ _ => 1
  end.

(** ** A race in the showdown

    Ash challenges Misty to a best of 3 in a normal duel, and every
    handler runs alone up to the third round: Squirtle beats Pikachu,
    then Misty selects Mewtwo, a legendary creature, and Ash gets the
    point of the penalty.  In the third round Ash selects Mewtwo: the
    penalty gives Misty her second point and [end_duel] begins.  While
    it sleeps in the showdown, Misty selects Mewtwo as well. *)

Definition posts (author : Member.t) (text : string) (time_time : float)
    (answer : PokemonData) (datetime_now : string) : Event :=
  MessagePosted (mkMessage 100 author text time_time (Some answer) 1
                   datetime_now).

Definition acknowledged : list Move :=
  alone (check 100 ash) 1 ++ alone (check 100 misty) 2.

Definition one_point_each_way : list Move :=
  alone (DuelCommand ash misty 3 "normal" 100) 0
  ++ acknowledged
  ++ alone (posts ash "pikachu" 1000 pikachu "2024-03-01T10:00:00") 2
  ++ alone (posts misty "squirtle" 1001 squirtle "2024-03-01T10:00:01") 6
  ++ acknowledged
  ++ alone (posts misty "mewtwo" 1020 mewtwo "2024-03-01T10:00:20") 3
  ++ acknowledged.

(** Ash's handler up to its suspension in [end_duel]. *)
Definition ash_rejected : list Move :=
  alone (posts ash "mewtwo" 1040 mewtwo "2024-03-01T10:00:40") 3.

(** Misty's handler, begun and resumed while Ash's is suspended in the
    showdown, up to its own suspension in [end_duel]. *)
Definition misty_rejected : list Move :=
  [ Deliver (posts misty "mewtwo" 1043 mewtwo "2024-03-01T10:00:43");
    Resume 1; Resume 1; Resume 1 ].

(** Both calls of [end_duel] run to their end. *)
Definition showdowns_end : list Move := [ Resume 0; Resume 0 ].

Definition start : World := mkWorld (DuelManager_init ∅) [].

(** ** A race in the validation

    In a '1st-evolution' duel Ash and Misty both select Pikachu.  Both
    validations pass the test of the used-set and are suspended in
    [get_evolution_stage] before either selection is stored. *)
Definition both_validating : list Move :=
  alone (DuelCommand ash misty 3 "1st-evolution" 100) 0
  ++ acknowledged
  ++ [ Deliver (posts ash "pikachu" 1000 pikachu "2024-03-01T10:00:00");
       Resume 0; Resume 0;
       Deliver (posts misty "pikachu" 1001 pikachu "2024-03-01T10:00:01");
       Resume 1; Resume 1 ].

(** Both validations are resumed, Ash's first. *)
Definition both_validated : list Move := [ Resume 0; Resume 0 ].

(** ** Acknowledgments with the white check mark *)




(** * Theorems *)

Example md5_empty :
  Md5.hexdigest (Py.encode "") = "d41d8cd98f00b204e9800998ecf8427e"%string.
Proof. vm_compute. reflexivity. Qed.

Example md5_abc :
  Md5.hexdigest (Py.encode "abc") = "900150983cd24fb0d6963f7d28e17f72"%string.
Proof. vm_compute. reflexivity. Qed.

Example md5_two_blocks :
  Md5.hexdigest (Py.encode
    "aaaaaaaaaaaaaaaaaaaaaaaaaaaaaaaaaaaaaaaaaaaaaaaaaaaaaaaa")
  = "3b0c8ac703f828b04c6c197006d17218"%string.
Proof. vm_compute. reflexivity. Qed.

Example ivs_pikachu : calculate_ivs "Pikachu" = mkStats 28 4 15 8 2 18.
Proof. vm_compute. reflexivity. Qed.

Example ivs_charizard : calculate_ivs "charizard" = mkStats 10 11 30 1 31 25.
Proof. vm_compute. reflexivity. Qed.

Example advantage_fire_grass :
  calculate_type_advantage_with_stab ["fire"%string] ["grass"%string]
  = (1.6 * 1.2, 0.625 * 1.2)%float.
Proof. vm_compute. reflexivity. Qed.

(** * Properties of the battle scorer *)

Section TypeAdvantage.
Local Open Scope float_scope.

Lemma inner_loop_factors (stab : float) (a : string) (B : list string) :
  forall acc,
    fold_left
      (fun effectiveness defense_type =>
         match table_entry a defense_type with
         | Some e => effectiveness * (e * stab)
         | None => effectiveness
         end) B acc
    = product_from acc (entry_factors stab a B).
Proof.
  unfold product_from, entry_factors.
  induction B as [|b B IH]; intros acc; cbn [fold_left flat_map];
    [reflexivity|].
  rewrite fold_left_app, IH.
  destruct (table_entry a b); reflexivity.
Qed.

Lemma outer_loop_factors (A B : list string) :
  forall (l : list string) acc,
    (forall a, a ∈ l -> a ∈ A) ->
    fold_left
      (fun effectiveness attack_type =>
         let stab :=
           if bool_decide (attack_type ∈ A) then STAB_MULTIPLIER else 1.0 in
         fold_left
           (fun effectiveness defense_type =>
              match table_entry attack_type defense_type with
              | Some e => effectiveness * (e * stab)
              | None => effectiveness
              end) B effectiveness) l acc
    = product_from acc (flat_map (fun a => entry_factors STAB_MULTIPLIER a B) l).
Proof.
  induction l as [|a l IH]; intros acc Hin; cbn [fold_left flat_map];
    [reflexivity|].
  rewrite bool_decide_eq_true_2 by (apply Hin; left).
  rewrite inner_loop_factors, IH by (intros; apply Hin; right; assumption).
  unfold product_from. rewrite fold_left_app. reflexivity.
Qed.

Lemma effectiveness_loop_factors (A B : list string) :
  effectiveness_loop A B = product_from 1.0 (pair_factors A B).
Proof.
  unfold effectiveness_loop, pair_factors.
  apply outer_loop_factors. auto.
Qed.

(** C1, with the bonus once per attacking category, fails: a single
    attacking category with no table entry against the defender is
    given 1.2 by that product and 1.0 by the code, and against two
    defenders with an entry each the code applies the bonus twice. *)
Lemma C1_bonus_per_category_fails :
  multiplier_per_category ["fire"%string] ["normal"%string] = 1.2
  /\ (calculate_type_advantage_with_stab
        ["fire"%string] ["normal"%string]).1 = 1.0
  /\ PrimFloat.eqb 1.2 1.0 = false
  /\ multiplier_per_category ["fire"%string] ["grass"%string; "ice"%string]
     = 1.2 * (1.6 * 1.6)
  /\ (calculate_type_advantage_with_stab
        ["fire"%string] ["grass"%string; "ice"%string]).1
     = (1.6 * 1.2) * (1.6 * 1.2)
  /\ PrimFloat.eqb (1.2 * (1.6 * 1.6)) ((1.6 * 1.2) * (1.6 * 1.2)) = false.
Proof. vm_compute. repeat split; reflexivity. Qed.

(** C1, amended: each multiplier is 1.0 multiplied, in iteration
    order, by (table entry * 1.2) for every pair (attacking category,
    defending category) that has a table entry; a pair without an
    entry contributes no factor, neither effectiveness nor bonus.
    The second multiplier is the same with the lists exchanged. *)
Theorem C1_type_advantage_by_table_entries (A B : list string) :
  calculate_type_advantage_with_stab A B
  = (product_from 1.0 (pair_factors A B),
     product_from 1.0 (pair_factors B A)).
Proof.
  unfold calculate_type_advantage_with_stab.
  rewrite !effectiveness_loop_factors. reflexivity.
Qed.

(** The provider's category names are title-cased and the table's
    keys are lower-case: on such lists no pair has an entry. *)
Example advantage_title_case :
  calculate_type_advantage_with_stab ["Fire"%string] ["Grass"%string]
  = (1.0, 1.0).
Proof. vm_compute. reflexivity. Qed.

End TypeAdvantage.

Section BattleScore.
Local Open Scope float_scope.

(** C7: [calculate_battle_score] is the weighted sum of base stats
    plus name-derived boosts, times the type-advantage multiplier of
    each side, and [calculate_weighted_stats] is the weighted sum
    with weights 0.8, 1.2, 0.9, 1.2, 0.9, 1.0 divided by 100; both
    are functions of their arguments alone. *)
Theorem C7_battle_score_formula (A B : PokemonData) :
  calculate_battle_score A B = battleScore A B
  /\ forall s, calculate_weighted_stats s = weightedStats s.
Proof.
  split; [|reflexivity].
  unfold calculate_battle_score, battleScore.
  destruct (calculate_type_advantage_with_stab (types A) (types B));
    reflexivity.
Qed.

End BattleScore.

Section AttributeBoosts.
Local Open Scope Z_scope.

Lemma calculate_ivs_lower (pokemon_name : string) :
  calculate_ivs pokemon_name = calculate_ivs (Py.lower pokemon_name).
Proof.
  unfold calculate_ivs.
  assert (Hidem : Py.lower (Py.lower pokemon_name) = Py.lower pokemon_name).
  { induction pokemon_name as [|c s IH]; simpl; [reflexivity|].
    rewrite IH. f_equal.
    unfold Py.lower_ascii.
    destruct ((65 <=? nat_of_ascii c)%nat && (nat_of_ascii c <=? 90)%nat)
      eqn:E.
    - apply andb_prop in E as [E1 E2].
      apply Nat.leb_le in E1, E2.
      rewrite nat_ascii_embedding by lia.
      replace ((65 <=? nat_of_ascii c + 32)%nat
               && (nat_of_ascii c + 32 <=? 90)%nat) with false; [reflexivity|].
      symmetry. apply andb_false_iff. right. apply Nat.leb_gt. lia.
    - rewrite E. reflexivity. }
  rewrite Hidem. reflexivity.
Qed.

Lemma calculate_ivs_in_range (pokemon_name : string) :
  boosts_in_range (calculate_ivs pokemon_name).
Proof.
  unfold boosts_in_range, boost_in_range, calculate_ivs; simpl.
  repeat split;
    match goal with
    | |- 0 <= ?x mod 32 => apply (Z.mod_pos_bound x 32); lia
    | |- ?x mod 32 <= 31 =>
        pose proof (Z.mod_pos_bound x 32 ltac:(lia)); lia
    end.
Qed.

(** C8: the attribute boosts depend on the name through its
    lower-cased form only, so names equal up to case give the same
    six values, and each value is an integer of [0, 31]. *)
Theorem C8_boosts_deterministic_in_range (name1 name2 : string) :
  Py.lower name1 = Py.lower name2 ->
  calculate_ivs name1 = calculate_ivs name2
  /\ boosts_in_range (calculate_ivs name1).
Proof.
  intros Hcase. split.
  - rewrite (calculate_ivs_lower name1), (calculate_ivs_lower name2), Hcase.
    reflexivity.
  - apply calculate_ivs_in_range.
Qed.

Lemma C8_boosts_witness :
  calculate_ivs "Pikachu" = calculate_ivs "PIKACHU"
  /\ boosts_in_range (calculate_ivs "Pikachu").
Proof.
  apply (C8_boosts_deterministic_in_range "Pikachu" "PIKACHU").
  vm_compute. reflexivity.
Defined.

End AttributeBoosts.

(** * The digest as read by [calculate_ivs] *)

Lemma hex_digit_value_hex_digit (n : Z) :
  (0 <= n < 16)%Z -> hex_digit_value (Md5.hex_digit n) = n.
Proof.
  intros H.
  replace n with (Z.of_nat (Z.to_nat n)) by lia.
  assert (Hk : (Z.to_nat n < 16)%nat) by lia.
  revert Hk. generalize (Z.to_nat n) as k. intros k Hk.
  do 16 (destruct k as [|k]; [reflexivity|]).
  lia.
Qed.

(** [int(h, 16)] of the two digits of a byte is the byte: on a
    hexdigest the conversion meets no other character. *)
Lemma int16_hex_byte (b : Z) :
  (0 <= b < 256)%Z -> int16 (Md5.hex [b]) = b.
Proof.
  intros H. unfold int16. cbn [Md5.hex int16_from].
  rewrite !hex_digit_value_hex_digit.
  - pose proof (Z.div_mod b 16). lia.
  - apply Z.mod_pos_bound. lia.
  - split; [apply Z.div_pos; lia|apply Z.div_lt_upper_bound; lia].
Qed.

Lemma digest_bytes (data : list Z) :
  exists b0 b1 b2 b3 b4 b5 rest,
    Md5.digest data = b0 :: b1 :: b2 :: b3 :: b4 :: b5 :: rest
    /\ length rest = 10%nat
    /\ Forall (fun b => 0 <= b < 256)%Z (Md5.digest data).
Proof.
  unfold Md5.digest.
  destruct (Md5.blocks _ _ _) as [[[a b] c] d].
  unfold Md5.word_bytes. cbn [app].
  do 7 eexists. split; [reflexivity|]. split; [reflexivity|].
  repeat (apply Forall_cons; split; [apply Z.mod_pos_bound; lia|]).
  apply Forall_nil_2.
Qed.

(** The six boosts are the first six bytes of the MD5 digest of the
    lower-cased name, each modulo 32. *)
Lemma calculate_ivs_digest (pokemon_name : string) :
  exists b0 b1 b2 b3 b4 b5 rest,
    Md5.digest (Py.encode (Py.lower pokemon_name))
    = b0 :: b1 :: b2 :: b3 :: b4 :: b5 :: rest
    /\ calculate_ivs pokemon_name
       = mkStats (b0 mod 32) (b1 mod 32) (b2 mod 32) (b3 mod 32)
           (b4 mod 32) (b5 mod 32).
Proof.
  destruct (digest_bytes (Py.encode (Py.lower pokemon_name)))
    as (b0 & b1 & b2 & b3 & b4 & b5 & rest & Hd & _ & Hall).
  exists b0, b1, b2, b3, b4, b5, rest. split; [exact Hd|].
  unfold calculate_ivs, Md5.hexdigest. rewrite Hd in *.
  repeat match goal with
         | H : Forall _ (_ :: _) |- _ =>
             apply Forall_cons in H as [? H]
         end.
  cbn [Md5.hex slice substring Nat.sub].
  assert (Hnil : forall s, substring 0 0 s = EmptyString)
    by (intros []; reflexivity).
  rewrite Hnil.
  change (String (Md5.hex_digit (?b / 16))
            (String (Md5.hex_digit (?b mod 16)) EmptyString))
    with (Md5.hex [b]).
  rewrite !int16_hex_byte by assumption. reflexivity.
Qed.

(** * Dictionaries in insertion order *)

Section DictFacts.
Context {V : Type}.
Implicit Types (d : Py.dict V) (k : Z) (v : V).

Lemma get_set_eq d k v : Py.get (Py.set d k v) k = Some v.
Proof.
  induction d as [|[k' v'] d IH]; simpl.
  - rewrite Z.eqb_refl. reflexivity.
  - destruct (Z.eqb k' k) eqn:E; simpl; rewrite E; auto.
Qed.

Lemma get_set_ne d k k' v :
  k <> k' -> Py.get (Py.set d k v) k' = Py.get d k'.
Proof.
  intros Hne. induction d as [|[k0 v0] d IH]; simpl.
  - apply Z.eqb_neq in Hne. rewrite Hne. reflexivity.
  - destruct (Z.eqb k0 k) eqn:E; simpl.
    + apply Z.eqb_eq in E. subst k0.
      apply Z.eqb_neq in Hne. rewrite Hne. reflexivity.
    + destruct (Z.eqb k0 k'); auto.
Qed.

Lemma keys_set_present d k v :
  k ∈ Py.keys d -> Py.keys (Py.set d k v) = Py.keys d.
Proof.
  unfold Py.keys. induction d as [|[k0 v0] d IH]; simpl; intros Hin.
  - inversion Hin.
  - destruct (Z.eqb k0 k) eqn:E; simpl; [reflexivity|].
    f_equal. apply IH. apply elem_of_cons in Hin as [->|Hin]; [|assumption].
    rewrite Z.eqb_refl in E. discriminate.
Qed.

Lemma keys_set_absent d k v :
  k ∉ Py.keys d -> Py.keys (Py.set d k v) = Py.keys d ++ [k].
Proof.
  unfold Py.keys. induction d as [|[k0 v0] d IH]; simpl; intros Hin.
  - reflexivity.
  - apply not_elem_of_cons in Hin as [Hne Hin].
    destruct (Z.eqb k0 k) eqn:E; simpl.
    + apply Z.eqb_eq in E. congruence.
    + f_equal. auto.
Qed.

Lemma set_absent d k v : k ∉ Py.keys d -> Py.set d k v = d ++ [(k, v)].
Proof.
  unfold Py.keys. induction d as [|[k0 v0] d IH]; simpl; intros Hin.
  - reflexivity.
  - apply not_elem_of_cons in Hin as [Hne Hin].
    destruct (Z.eqb k0 k) eqn:E; simpl.
    + apply Z.eqb_eq in E. congruence.
    + f_equal. auto.
Qed.

Lemma get_is_Some d k : k ∈ Py.keys d -> is_Some (Py.get d k).
Proof.
  unfold Py.keys. induction d as [|[k0 v0] d IH]; simpl; intros Hin.
  - inversion Hin.
  - destruct (Z.eqb k0 k) eqn:E; [eauto|].
    apply IH. apply elem_of_cons in Hin as [->|Hin]; [|assumption].
    rewrite Z.eqb_refl in E. discriminate.
Qed.

Lemma from_keys_spec (ks : list Z) v :
  NoDup ks -> Py.from_keys ks v = map (fun k => (k, v)) ks.
Proof.
  unfold Py.from_keys.
  enough (H : forall d : Py.dict V,
             NoDup (Py.keys d ++ ks) ->
             fold_left (fun d k => Py.set d k v) ks d
             = d ++ map (fun k => (k, v)) ks).
  { intros Hnd. apply (H []). assumption. }
  induction ks as [|k ks IH]; intros d Hnd; simpl.
  - rewrite app_nil_r. reflexivity.
  - assert (Hk : k ∉ Py.keys d).
    { apply NoDup_app in Hnd as (_ & Hdis & _).
      intros Hin. apply (Hdis k Hin). left. }
    rewrite set_absent by assumption.
    rewrite IH.
    + rewrite <- app_assoc. reflexivity.
    + unfold Py.keys in *. rewrite map_app, <- app_assoc. exact Hnd.
Qed.

Lemma keys_from_keys (ks : list Z) v :
  NoDup ks -> Py.keys (Py.from_keys ks v) = ks.
Proof.
  intros Hnd. rewrite from_keys_spec by assumption.
  unfold Py.keys. rewrite map_map. simpl. apply map_id.
Qed.

Lemma values_from_keys (ks : list Z) v :
  NoDup ks -> Py.values (Py.from_keys ks v) = map (fun _ => v) ks.
Proof.
  intros Hnd. rewrite from_keys_spec by assumption.
  unfold Py.values. rewrite map_map. reflexivity.
Qed.

End DictFacts.

Lemma incr_present (d : Py.dict Z) (k : Z) :
  k ∈ Py.keys d ->
  exists v, Py.get d k = Some v /\ Py.incr d k = Some (Py.set d k (v + 1)%Z).
Proof.
  intros Hin. destruct (get_is_Some d k Hin) as [v Hv].
  exists v. unfold Py.incr. rewrite Hv. auto.
Qed.

Lemma wf_Duel_init (ps : list Member.t) (r c : Z) (t : string) :
  (length ps = 2%nat \/ length ps = 3%nat) ->
  NoDup (player_ids ps) ->
  r ∈ [3; 5; 7]%Z ->
  wf_duel (Duel_init ps r c t).
Proof.
  intros Hlen Hnd Hr.
  constructor; simpl; auto; apply keys_from_keys; assumption.
Qed.

(** * The history store *)

Lemma last_20_short {A : Type} (l : list A) :
  (length l <= 20)%nat -> last_20 l = l.
Proof.
  intros H. unfold last_20.
  replace (length l - 20)%nat with 0%nat by lia. reflexivity.
Qed.

Lemma last_20_length {A : Type} (l : list A) : (length (last_20 l) <= 20)%nat.
Proof. unfold last_20. rewrite length_skipn. lia. Qed.

Lemma last_20_full {A : Type} (l : list A) (x : A) :
  length l = 20%nat ->
  last_20 (l ++ [x]) = drop 1 l ++ [x]
  /\ length (last_20 (l ++ [x])) = 20%nat.
Proof.
  intros H. unfold last_20. rewrite length_app. simpl.
  replace (length l + 1 - 20)%nat with 1%nat by lia.
  destruct l as [|y l]; [discriminate|]. simpl.
  split; [reflexivity|]. rewrite drop_0, length_app. simpl in *. lia.
Qed.

Lemma keep_last_20_lookup (history : gmap string (list DuelRecord))
    (player : Member.t) (key : string) :
  keep_last_20 history player !! key
  = if decide (key = history_key player)
    then last_20 <$> history !! key
    else history !! key.
Proof.
  unfold keep_last_20.
  destruct (decide (key = history_key player)) as [->|Hne].
  - destruct (history !! history_key player) as [l|] eqn:E; simpl.
    + destruct (20 <? length l)%nat eqn:Hlen.
      * rewrite lookup_insert_eq. reflexivity.
      * apply Nat.ltb_ge in Hlen. rewrite E, last_20_short; auto.
    + rewrite E. reflexivity.
  - destruct (history !! history_key player) as [l|]; [|reflexivity].
    destruct (20 <? length l)%nat; [|reflexivity].
    rewrite lookup_insert_ne; auto.
Qed.

Lemma last_20_idem {A : Type} (l : list A) : last_20 (last_20 l) = last_20 l.
Proof. apply last_20_short, last_20_length. Qed.

Lemma keep_all_last_20_lookup (ps : list Member.t) :
  forall (history : gmap string (list DuelRecord)) (key : string),
    fold_left keep_last_20 ps history !! key
    = if decide (key ∈ map history_key ps)
      then last_20 <$> history !! key
      else history !! key.
Proof.
  induction ps as [|p ps IH]; intros history key; simpl.
  - destruct (decide (key ∈ [])) as [H|_]; [inversion H|reflexivity].
  - rewrite IH, keep_last_20_lookup.
    destruct (decide (key = history_key p)) as [->|Hne].
    + destruct (decide (history_key p ∈ map history_key ps));
        destruct (decide (history_key p ∈ history_key p :: map history_key ps))
          as [_|Hn]; try (exfalso; apply Hn; left);
        destruct (history !! history_key p); simpl; try reflexivity.
      rewrite last_20_idem. reflexivity.
    + destruct (decide (key ∈ map history_key ps)) as [Hin|Hin];
        destruct (decide (key ∈ history_key p :: map history_key ps))
          as [Hin'|Hin']; try reflexivity.
      * exfalso. apply Hin'. right. assumption.
      * exfalso. apply elem_of_cons in Hin' as [?|?]; auto.
Qed.

Lemma append_all_lookup (record : DuelRecord) (ps : list Member.t) :
  NoDup (map history_key ps) ->
  forall (history : gmap string (list DuelRecord)) (key : string),
    fold_left (append_record record) ps history !! key
    = if decide (key ∈ map history_key ps)
      then Some (default [] (history !! key) ++ [record])
      else history !! key.
Proof.
  induction ps as [|p ps IH]; intros Hnd history key; simpl.
  - destruct (decide (key ∈ [])) as [H|_]; [inversion H|reflexivity].
  - apply NoDup_cons in Hnd as [Hp Hnd].
    rewrite IH by assumption. unfold append_record.
    destruct (decide (key ∈ map history_key ps)) as [Hin|Hin].
    + destruct (decide (key ∈ history_key p :: map history_key ps))
        as [_|Hn]; [|exfalso; apply Hn; right; assumption].
      rewrite lookup_insert_ne
        by (intros E; apply Hp; rewrite E; assumption).
      reflexivity.
    + destruct (decide (key = history_key p)) as [->|Hne].
      * destruct (decide (history_key p ∈ history_key p :: map history_key ps))
          as [_|Hn]; [|exfalso; apply Hn; left].
        rewrite lookup_insert_eq. reflexivity.
      * destruct (decide (key ∈ history_key p :: map history_key ps))
          as [Hin'|_].
        -- apply elem_of_cons in Hin' as [?|?]; contradiction.
        -- rewrite lookup_insert_ne by congruence. reflexivity.
Qed.

Lemma history_keys_distinct (ps : list Member.t) :
  NoDup (player_ids ps) -> NoDup (map history_key ps).
Proof.
  unfold player_ids, history_key. intros H.
  rewrite <- (map_map Member.id pretty).
  apply (NoDup_fmap_2 (pretty : Z -> string)). exact H.
Qed.

Lemma append_all_other (record : DuelRecord) (ps : list Member.t) :
  forall (history : gmap string (list DuelRecord)) (key : string),
    key ∉ map history_key ps ->
    fold_left (append_record record) ps history !! key = history !! key.
Proof.
  induction ps as [|p ps IH]; intros history key Hin; simpl; [reflexivity|].
  apply not_elem_of_cons in Hin as [Hne Hin].
  rewrite IH by assumption. unfold append_record.
  rewrite lookup_insert_ne by congruence. reflexivity.
Qed.

(** The store bound needs no assumption on the participants: a list
    appended to more than once is cut all the same. *)
Lemma add_to_history_bounded (m : DuelManager) (a : HistoryAppend)
    (m' : DuelManager) :
  history_bounded (duel_history m) ->
  add_to_history' m a = Some m' ->
  history_bounded (duel_history m').
Proof.
  destruct a as [[[duel timestamp] winner_id] losers].
  unfold add_to_history', add_to_history. intros Hb H.
  destruct (duel_record duel timestamp winner_id losers) as [record|];
    [|discriminate].
  simpl in H. injection H as <-. simpl.
  intros key l. rewrite keep_all_last_20_lookup.
  destruct (decide (key ∈ map history_key (players duel))) as [Hin|Hin].
  - destruct (fold_left (append_record record) (players duel) (duel_history m)
                !! key) as [l0|]; simpl; [|discriminate].
    intros [= <-]. apply last_20_length.
  - rewrite append_all_other by assumption. apply Hb.
Qed.

Lemma add_all_bounded (appends : list HistoryAppend) :
  forall m m',
    history_bounded (duel_history m) ->
    add_all_to_history m appends = Some m' ->
    history_bounded (duel_history m').
Proof.
  induction appends as [|a appends IH]; intros m m' Hb H; simpl in H.
  - injection H as <-. assumption.
  - destruct (add_to_history' m a) as [m1|] eqn:E; [|discriminate].
    simpl in H. eapply IH; [|exact H].
    eapply add_to_history_bounded; eauto.
Qed.

Lemma add_to_history_player (m : DuelManager) (duel : Duel)
    (timestamp : string) (winner_id : Z) (losers : list Member.t)
    (m' : DuelManager) :
  NoDup (player_ids (players duel)) ->
  add_to_history m duel timestamp winner_id losers = Some m' ->
  exists record,
    duel_record duel timestamp winner_id losers = Some record
    /\ forall player,
        player ∈ players duel ->
        get_player_history m' (Member.id player)
        = last_20 (get_player_history m (Member.id player) ++ [record]).
Proof.
  unfold add_to_history. intros Hnd H.
  destruct (duel_record duel timestamp winner_id losers) as [record|];
    [|discriminate].
  simpl in H. injection H as <-.
  exists record. split; [reflexivity|].
  intros player Hin. unfold get_player_history. simpl.
  change (pretty (Member.id player)) with (history_key player).
  assert (Hkey : history_key player ∈ map history_key (players duel)).
  { apply (list_elem_of_fmap_2 history_key). assumption. }
  rewrite keep_all_last_20_lookup.
  rewrite append_all_lookup by (apply history_keys_distinct; assumption).
  destruct (decide (history_key player ∈ map history_key (players duel)));
    [|contradiction].
  reflexivity.
Qed.

(** Appends alone: starting from a store within the bound (an empty
    or missing store is), after every sequence of appended records
    every stored history holds at most 20 records; and one more append
    leaves each participant with the last 20 of the stored records
    followed by the new one: on a list of 20 records the first goes, 20
    remain, the new record last.  The first of the stored list is the
    oldest record as long as nothing reorders the list;
    [C9_history_command_then_newest_dropped] shows what the [history]
    command does to this. *)
Theorem history_keeps_last_20
    (loaded : gmap string (list DuelRecord))
    (appends : list HistoryAppend) (m : DuelManager) :
  history_bounded loaded ->
  add_all_to_history (DuelManager_init loaded) appends = Some m ->
  history_bounded (duel_history m)
  /\ forall duel timestamp winner_id losers m',
      NoDup (player_ids (players duel)) ->
      add_to_history m duel timestamp winner_id losers = Some m' ->
      exists record,
        duel_record duel timestamp winner_id losers = Some record
        /\ forall player,
            player ∈ players duel ->
            get_player_history m' (Member.id player)
            = last_20 (get_player_history m (Member.id player) ++ [record])
            /\ (length (get_player_history m' (Member.id player)) <= 20)%nat
            /\ (length (get_player_history m (Member.id player)) = 20%nat ->
                get_player_history m' (Member.id player)
                = drop 1 (get_player_history m (Member.id player))
                    ++ [record]
                /\ length (get_player_history m' (Member.id player))
                   = 20%nat).
Proof.
  intros Hloaded Hrun. split.
  - eapply add_all_bounded; [|exact Hrun]. exact Hloaded.
  - intros duel timestamp winner_id losers m' Hnd Hadd.
    destruct (add_to_history_player _ _ _ _ _ _ Hnd Hadd)
      as (record & Hrec & Hplayers).
    exists record. split; [assumption|].
    intros player Hin. rewrite (Hplayers player Hin).
    split; [reflexivity|]. split; [apply last_20_length|].
    apply last_20_full.
Qed.

Lemma history_keeps_last_20_witness :
  exists m' record,
    add_to_history (DuelManager_init full_store) fresh_pair_duel
      "2024-03-01T10:00:00" 1 [misty] = Some m'
    /\ get_player_history m' 1 = replicate 19 later_record ++ [record]
    /\ length (get_player_history m' 1) = 20%nat.
Proof.
  assert (Hb : history_bounded full_store).
  { intros key l H. unfold full_store in H.
    apply lookup_singleton_Some in H as [_ <-]. simpl. lia. }
  destruct (history_keeps_last_20 full_store []
              (DuelManager_init full_store) Hb eq_refl) as [_ Hstep].
  assert (Hadd : exists m',
             add_to_history (DuelManager_init full_store) fresh_pair_duel
               "2024-03-01T10:00:00" 1 [misty] = Some m')
    by (vm_compute; eexists; reflexivity).
  destruct Hadd as [m' Hadd].
  assert (Hnd : NoDup (player_ids (players fresh_pair_duel))).
  { apply (bool_decide_unpack _). vm_compute. exact I. }
  destruct (Hstep _ _ _ _ _ Hnd Hadd) as (record & _ & Hplayers).
  assert (Hin : ash ∈ players fresh_pair_duel) by (simpl; left).
  destruct (Hplayers ash Hin) as (_ & _ & Hfull).
  destruct (Hfull eq_refl) as [Hnew Hlen].
  exists m', record. repeat split; assumption.
Defined.

(** * Well-formed duels *)

Lemma keys_inv_nil {V : Type} (d : Py.dict V) : Py.keys d = [] -> d = [].
Proof. destruct d; [reflexivity|discriminate]. Qed.

Lemma keys_inv_cons {V : Type} (d : Py.dict V) (k : Z) (ks : list Z) :
  Py.keys d = k :: ks -> exists v d', d = (k, v) :: d' /\ Py.keys d' = ks.
Proof.
  destruct d as [|[k' v] d']; [discriminate|].
  unfold Py.keys. simpl. intros [= -> <-]. eauto.
Qed.

Lemma keys_inv_2 {V : Type} (d : Py.dict V) (a b : Z) :
  Py.keys d = [a; b] -> exists v1 v2, d = [(a, v1); (b, v2)].
Proof.
  intros H.
  apply keys_inv_cons in H as (v1 & d1 & E1 & H).
  apply keys_inv_cons in H as (v2 & d2 & E2 & H).
  apply keys_inv_nil in H. subst. eauto.
Qed.

Lemma keys_inv_3 {V : Type} (d : Py.dict V) (a b c : Z) :
  Py.keys d = [a; b; c] -> exists v1 v2 v3, d = [(a, v1); (b, v2); (c, v3)].
Proof.
  intros H.
  apply keys_inv_cons in H as (v1 & d1 & E1 & H).
  apply keys_inv_cons in H as (v2 & d2 & E2 & H).
  apply keys_inv_cons in H as (v3 & d3 & E3 & H).
  apply keys_inv_nil in H. subst. eauto.
Qed.

Lemma wf_shape (d : Duel) : wf_duel d -> duel_shape d.
Proof.
  intros [Hcount Hnd Htriple Hs Hp Hr _].
  destruct (players d) as [|p1 [|p2 [|p3 [|p4 ps]]]] eqn:Hplayers;
    simpl in Hcount; try (destruct Hcount; discriminate);
    simpl in Hs, Hp, Hr, Hnd, Htriple.
  - apply keys_inv_2 in Hs as (s1 & s2 & Hs).
    apply keys_inv_2 in Hp as (k1 & k2 & Hp).
    apply keys_inv_2 in Hr as (r1 & r2 & Hr).
    apply NoDup_cons in Hnd as [Hn1 _].
    eapply (shape_pair d p1 p2 s1 s2 k1 k2 r1 r2); eauto.
    intros E. apply Hn1. rewrite E. left.
  - apply keys_inv_3 in Hs as (s1 & s2 & s3 & Hs).
    apply keys_inv_3 in Hp as (k1 & k2 & k3 & Hp).
    apply keys_inv_3 in Hr as (r1 & r2 & r3 & Hr).
    apply NoDup_cons in Hnd as [Hn1 Hnd].
    apply NoDup_cons in Hnd as [Hn2 _].
    eapply (shape_triple d p1 p2 p3 s1 s2 s3 k1 k2 k3 r1 r2 r3); eauto.
    + intros E. apply Hn1. rewrite E. left.
    + intros E. apply Hn1. rewrite E. right. left.
    + intros E. apply Hn2. rewrite E. left.
Qed.

Ltac ids_eqb :=
  repeat match goal with
    | H : ?a <> ?b |- context [Z.eqb ?a ?b] =>
        rewrite (proj2 (Z.eqb_neq a b) H)
    | H : ?a <> ?b |- context [Z.eqb ?b ?a] =>
        rewrite (proj2 (Z.eqb_neq b a) (not_eq_sym H))
    | |- context [Z.eqb ?a ?a] => rewrite (Z.eqb_refl a)
    end.

(** * The end of a duel *)

Lemma last_last_20 {A : Type} (l : list A) (x : A) :
  last (last_20 (l ++ [x])) = Some x.
Proof.
  unfold last_20. rewrite length_app. simpl.
  rewrite skipn_app.
  replace (length l + 1 - 20 - length l)%nat with 0%nat by lia.
  simpl. apply last_snoc.
Qed.

Lemma add_to_history_wf (m : DuelManager) (duel : Duel) (timestamp : string)
    (winner_id : Z) (losers : list Member.t) :
  wf_duel duel ->
  exists m' record,
    add_to_history m duel timestamp winner_id losers = Some m'
    /\ duel_record duel timestamp winner_id losers = Some record
    /\ active_duels m' = active_duels m
    /\ completed_duels m' = completed_duels m
    /\ record_winner record = winner_id
    /\ record_losers record
       = (if is_triple_duel duel then player_ids losers
          else option_list (Member.id <$> head losers))
    /\ forall player,
        player ∈ players duel ->
        last (get_player_history m' (Member.id player)) = Some record.
Proof.
  intros Hwf.
  assert (Hrec : exists record,
             duel_record duel timestamp winner_id losers = Some record
             /\ record_winner record = winner_id
             /\ record_losers record
                = (if is_triple_duel duel then player_ids losers
                   else option_list (Member.id <$> head losers))).
  { unfold duel_record.
    destruct (wf_shape _ Hwf)
      as [p1 p2 s1 s2 k1 k2 r1 r2 H12 Hp Ht Hs _ _
         |p1 p2 p3 s1 s2 s3 k1 k2 k3 r1 r2 r3 H12 H13 H23 Hp Ht Hs _ _];
      rewrite Hp, Ht, Hs; simpl; ids_eqb; simpl; eauto. }
  destruct Hrec as (record & Hrec & Hw & Hl).
  destruct (add_to_history m duel timestamp winner_id losers) as [m'|] eqn:E.
  - exists m', record.
    destruct (add_to_history_player _ _ _ _ _ _ (wf_distinct _ Hwf) E)
      as (record' & Hrec' & Hplayers).
    assert (record' = record) by congruence. subst record'.
    assert (Hlast : forall player,
               player ∈ players duel ->
               last (get_player_history m' (Member.id player)) = Some record).
    { intros player Hin. rewrite (Hplayers player Hin). apply last_last_20. }
    unfold add_to_history in E. rewrite Hrec in E. simpl in E.
    injection E as <-. simpl.
    repeat split; assumption.
  - unfold add_to_history in E. rewrite Hrec in E. discriminate.
Qed.

Ltac in_list Hin :=
  repeat (apply elem_of_cons in Hin as [->|Hin]);
  try (apply elem_of_nil in Hin; destruct Hin).

Ltac end_duel_case Hwf Hp Ht m duel timestamp w losers before winner after v :=
  let m1 := fresh "m1" in let record := fresh "record" in
  let Hadd := fresh "Hadd" in let Hw := fresh "Hw" in
  let Hl := fresh "Hl" in let Hlast := fresh "Hlast" in
  destruct (add_to_history_wf m duel timestamp w losers Hwf)
    as (m1 & record & Hadd & _ & _ & _ & Hw & Hl & Hlast);
  rewrite Hadd; cbn [mbind option_bind List.filter negb length Nat.ltb Nat.leb];
  eexists _, before, winner, after, v, record;
  split; [reflexivity|];
  cbn [active_duels completed_duels duel_history];
  rewrite lookup_insert_eq, lookup_delete_eq;
  repeat split; auto;
  [ simpl; ids_eqb; reflexivity
  | intros p Hin; in_list Hin; eexists;
    (split; [simpl; ids_eqb; reflexivity | lia])
  | intros p Hin; in_list Hin; eexists;
    (split; [simpl; ids_eqb; reflexivity | lia])
  | rewrite Hl, Ht; reflexivity
  | intros p Hin; rewrite <- Hp in Hin; exact (Hlast p Hin) ].

(** C10: [end_duel] declares as winner the first participant, in the
    order of the participant list, whose score no other participant
    exceeds: every participant before the winner has a strictly lower
    score, every participant after has a lower or equal score.  All
    other participants, those with an equal score too, are the losers
    of the history record, which every participant's history ends
    with. *)
Theorem C10_first_maximal_wins (m : DuelManager) (duel : Duel) (ch : Z)
    (timestamp : string) :
  wf_duel duel ->
  exists m' before winner after v record,
    end_duel m duel ch timestamp = Some m'
    /\ players duel = before ++ winner :: after
    /\ score_of duel winner = Some v
    /\ (forall p, p ∈ before ->
        exists u, score_of duel p = Some u /\ (u < v)%Z)
    /\ (forall p, p ∈ after ->
        exists u, score_of duel p = Some u /\ (u <= v)%Z)
    /\ record_winner record = Member.id winner
    /\ record_losers record = player_ids (before ++ after)
    /\ (forall p, p ∈ players duel ->
        last (get_player_history m' (Member.id p)) = Some record)
    /\ completed_duels m' !! ch = Some (set_duel_ended duel true)
    /\ active_duels m' !! ch = None.
Proof.
  intros Hwf. unfold end_duel, score_of.
  destruct (wf_shape _ Hwf)
    as [p1 p2 s1 s2 k1 k2 r1 r2 H12 Hp Ht Hs _ _
       |p1 p2 p3 s1 s2 s3 k1 k2 k3 r1 r2 r3 H12 H13 H23 Hp Ht Hs _ _];
    rewrite Hp, Ht, Hs; cbn [Py.max_key Py.max_key_from mbind option_bind].
  - destruct (Z.ltb_spec s1 s2) as [Hlt|Hge];
      cbn [find]; ids_eqb; cbn [mbind option_bind List.filter negb];
      ids_eqb; cbn [negb].
    + end_duel_case Hwf Hp Ht m duel timestamp (Member.id p2) [p1]
        [p1] p2 (@nil Member.t) s2.
    + end_duel_case Hwf Hp Ht m duel timestamp (Member.id p1) [p2]
        (@nil Member.t) p1 [p2] s1.
  - destruct (Z.ltb_spec s1 s2) as [Hlt|Hge];
      [destruct (Z.ltb_spec s2 s3) as [Hlt'|Hge']
      |destruct (Z.ltb_spec s1 s3) as [Hlt'|Hge']];
      cbn [find]; ids_eqb; cbn [mbind option_bind List.filter negb];
      ids_eqb; cbn [negb].
    + end_duel_case Hwf Hp Ht m duel timestamp (Member.id p3) [p1; p2]
        [p1; p2] p3 (@nil Member.t) s3.
    + end_duel_case Hwf Hp Ht m duel timestamp (Member.id p2) [p1; p3]
        [p1] p2 [p3] s2.
    + end_duel_case Hwf Hp Ht m duel timestamp (Member.id p3) [p1; p2]
        [p1; p2] p3 (@nil Member.t) s3.
    + end_duel_case Hwf Hp Ht m duel timestamp (Member.id p1) [p2; p3]
        (@nil Member.t) p1 [p2; p3] s1.
Qed.

Lemma wf_tied_triple_duel : wf_duel tied_triple_duel.
Proof.
  constructor; simpl; auto;
    apply (bool_decide_unpack _); vm_compute; exact I.
Qed.

Lemma C10_tie_witness :
  exists m' before winner after v record,
    end_duel (DuelManager_init ∅) tied_triple_duel 200 "2024-03-01T10:00:00"
    = Some m'
    /\ players tied_triple_duel = before ++ winner :: after
    /\ score_of tied_triple_duel winner = Some v
    /\ (forall p, p ∈ before ->
        exists u, score_of tied_triple_duel p = Some u /\ (u < v)%Z)
    /\ (forall p, p ∈ after ->
        exists u, score_of tied_triple_duel p = Some u /\ (u <= v)%Z)
    /\ record_winner record = Member.id winner
    /\ record_losers record = player_ids (before ++ after)
    /\ (forall p, p ∈ players tied_triple_duel ->
        last (get_player_history m' (Member.id p)) = Some record)
    /\ completed_duels m' !! 200%Z = Some (set_duel_ended tied_triple_duel true)
    /\ active_duels m' !! 200%Z = None.
Proof.
  apply (C10_first_maximal_wins (DuelManager_init ∅) tied_triple_duel 200
           "2024-03-01T10:00:00").
  constructor; simpl; auto;
    apply (bool_decide_unpack _); vm_compute; exact I.
Defined.

(** With the second and third participant tied at the top, the second
    wins and the third is a loser. *)
Example tie_goes_to_earlier_participant :
  (fun r => (record_winner r, record_losers r)) <$>
    (m ← end_duel (DuelManager_init ∅) tied_triple_duel 200
           "2024-03-01T10:00:00";
     last (get_player_history m 3))
  = Some (2%Z, [1%Z; 3%Z]).
Proof. vm_compute. reflexivity. Qed.

(** The tie at the end is reachable: after two penalties Misty and
    Brock both hold 2 points; Misty, earlier in the participant list,
    is the winner of the record and Brock one of its losers. *)
Example double_penalty_tie :
  scores (duel_after double_penalty 300) = [(1, 0); (2, 2); (3, 2)]%Z
  /\ duel_ended (duel_after double_penalty 300) = true
  /\ round_history (duel_after double_penalty 300) = []
  /\ (fun r => (record_winner r, record_losers r))
       <$> last (get_player_history (manager_after double_penalty) 3)
     = Some (2%Z, [1%Z; 3%Z]).
Proof. vm_compute. repeat split; reflexivity. Qed.

(** * The handlers through their outcome *)

Lemma after_selection_as_outcome (m : DuelManager) (ch : Z) (duel : Duel)
    (timestamp : string) :
  after_selection m ch duel timestamp
  = o ← after_selection_outcome duel; apply_outcome m ch timestamp o.
Proof.
  unfold after_selection, after_selection_outcome.
  destruct (all_selected duel); [|reflexivity].
  destruct (resolve_round duel) as [duel'|]; [|reflexivity]. simpl.
  destruct (threshold_reached duel'); reflexivity.
Qed.

Lemma reject_selection_as_outcome (m : DuelManager) (ch : Z) (duel : Duel)
    (author : Member.t) (timestamp : string) :
  reject_selection m ch duel author timestamp
  = o ← reject_selection_outcome duel author; apply_outcome m ch timestamp o.
Proof.
  unfold reject_selection, reject_selection_outcome.
  destruct (award_opponents author (players duel) (scores duel)) as [s|];
    [|reflexivity]. simpl.
  destruct (threshold_reached (set_scores duel s)); reflexivity.
Qed.

Lemma handle_message_as_outcome (m : DuelManager) (message : Message) :
  handle_message m message
  = match active_duels m !! message_channel message with
    | None => Some (m, false)
    | Some duel =>
        o ← message_outcome duel message;
        apply_outcome m (message_channel message) (datetime_now message) o
    end.
Proof.
  unfold handle_message, message_outcome.
  destruct (active_duels m !! message_channel message) as [duel|];
    [|reflexivity].
  destruct (duel_ended duel); [reflexivity|].
  destruct (negb (existsb (Member.eqb (author message)) (players duel)));
    [reflexivity|].
  destruct (selection_phase duel && waiting_for_selection duel);
    [|reflexivity].
  destruct (in_cooldown duel (time_time message)); [reflexivity|].
  destruct (Py.get (pokemon duel) (Member.id (author message))) as [slot|];
    [|reflexivity]. simpl.
  destruct slot as [chosen|].
  - apply after_selection_as_outcome.
  - destruct (get_pokemon_data message) as [pokemon_data|]; [|reflexivity].
    destruct (validate_pokemon_for_duel (get_evolution_stage message)
                pokemon_data (duel_type duel) (used_pokemon duel))
      as [is_valid error_msg]. simpl.
    destruct is_valid; simpl.
    + apply after_selection_as_outcome.
    + apply reject_selection_as_outcome.
Qed.

Lemma handle_reaction_as_outcome (m : DuelManager) (reaction : Reaction) :
  handle_reaction m reaction
  = match active_duels m !! reaction_channel reaction with
    | None => m
    | Some duel =>
        match reaction_outcome duel reaction with
        | Some duel' => store m (reaction_channel reaction) duel'
        | None => m
        end
    end.
Proof.
  unfold handle_reaction, reaction_outcome.
  destruct (active_duels m !! reaction_channel reaction) as [duel|];
    [|reflexivity].
  destruct (negb (String.eqb (emoji reaction) CHECK_MARK)); [reflexivity|].
  destruct (duel_ended duel); [reflexivity|].
  destruct (negb (bool_decide
              (Member.id (user reaction) ∈ Py.keys (ready_status duel))));
    reflexivity.
Qed.

(** * What the handlers keep *)

Lemma duel_evolves_refl (d : Duel) : duel_evolves d d.
Proof. constructor; reflexivity. Qed.

Lemma duel_evolves_trans (d1 d2 d3 : Duel) :
  duel_evolves d1 d2 -> duel_evolves d2 d3 -> duel_evolves d1 d3.
Proof.
  intros [] []. constructor; try congruence. set_solver.
Qed.

Lemma wf_evolves (d d' : Duel) : wf_duel d -> duel_evolves d d' -> wf_duel d'.
Proof.
  intros [] []. constructor; congruence.
Qed.

Lemma get_Some_in_keys {V : Type} (d : Py.dict V) (k : Z) (v : V) :
  Py.get d k = Some v -> k ∈ Py.keys d.
Proof.
  unfold Py.keys. induction d as [|[k' v'] d IH]; simpl; [discriminate|].
  destruct (Z.eqb k' k) eqn:E.
  - apply Z.eqb_eq in E. subst. intros _. left.
  - intros H. right. auto.
Qed.

Lemma incr_keys (d d' : Py.dict Z) (k : Z) :
  Py.incr d k = Some d' -> Py.keys d' = Py.keys d.
Proof.
  unfold Py.incr. destruct (Py.get d k) as [v|] eqn:E; [|discriminate].
  intros [= <-]. apply keys_set_present. eapply get_Some_in_keys; eauto.
Qed.

Lemma award_opponents_keys (author : Member.t) (ps : list Member.t) :
  forall s s', award_opponents author ps s = Some s' -> Py.keys s' = Py.keys s.
Proof.
  induction ps as [|p ps IH]; intros s s'; simpl.
  - intros [= <-]. reflexivity.
  - destruct (negb (Member.eqb p author)); [|apply IH].
    destruct (Py.incr s (Member.id p)) as [s1|] eqn:E; [|discriminate].
    simpl. intros H. rewrite (IH _ _ H). eapply incr_keys; eauto.
Qed.

Lemma point_to_keys (d : Duel) (i : nat) (w : string) (s : Py.dict Z) :
  point_to d i = Some (w, s) -> Py.keys s = Py.keys (scores d).
Proof.
  unfold point_to.
  destruct (players d !! i) as [p|]; [|discriminate]. simpl.
  destruct (Py.incr (scores d) (Member.id p)) as [s'|] eqn:E; [|discriminate].
  simpl. intros [= _ <-]. eapply incr_keys; eauto.
Qed.

Lemma round_outcome_keys (d : Duel) (bs : list float) (w : string)
    (s : Py.dict Z) :
  round_outcome d bs = Some (w, s) -> Py.keys s = Py.keys (scores d).
Proof.
  unfold round_outcome.
  destruct (is_triple_duel d).
  - destruct bs as [|first rest]; [discriminate|].
    destruct (max_indices (first :: rest) (Py.max_float first rest))
      as [|i [|j l]]; try (intros [= _ <-]; reflexivity).
    apply point_to_keys.
  - destruct (bs !! 0%nat) as [s1|]; [|discriminate].
    destruct (bs !! 1%nat) as [s2|]; [|discriminate]. simpl.
    destruct (Py.gt s1 s2); [apply point_to_keys|].
    destruct (Py.gt s2 s1); [apply point_to_keys|].
    intros [= _ <-]. reflexivity.
Qed.

Lemma resolve_round_evolves (d d' : Duel) :
  resolve_round d = Some d' ->
  duel_evolves d d'
  /\ duel_ended d' = duel_ended d
  /\ pokemon d' = pokemon d
  /\ current_round d' = (current_round d + 1)%Z
  /\ exists round_data, round_history d' = round_history d ++ [round_data].
Proof.
  unfold resolve_round.
  destruct (battle_scores d) as [bs|]; [|discriminate]. simpl.
  destruct (round_names d) as [names|]; [|discriminate]. simpl.
  destruct (round_score_fields d bs) as [fields|]; [|discriminate]. simpl.
  destruct (round_outcome d bs) as [[w s]|] eqn:E; [|discriminate]. simpl.
  intros [= <-]. simpl.
  split; [|eauto 6].
  constructor; simpl; try reflexivity.
  eapply round_outcome_keys; eauto.
Qed.

Lemma no_pokemon_keys (d : Duel) :
  wf_duel d -> Py.keys (no_pokemon d) = Py.keys (pokemon d).
Proof.
  intros Hwf. unfold no_pokemon.
  rewrite keys_from_keys by apply (wf_distinct _ Hwf).
  symmetry. apply (wf_pokemon _ Hwf).
Qed.

(** The threshold test reads the round count and the scores only. *)
Lemma threshold_reached_ext (d d' : Duel) :
  rounds d' = rounds d -> scores d' = scores d ->
  threshold_reached d' = threshold_reached d.
Proof.
  unfold threshold_reached, needed_wins. intros -> ->. reflexivity.
Qed.

Lemma after_selection_outcome_evolves (d : Duel) (o : Outcome) :
  wf_duel d ->
  after_selection_outcome d = Some o ->
  match o with
  | Continue d' =>
      duel_evolves d d' /\ duel_ended d' = duel_ended d
      /\ (threshold_reached d = false -> threshold_reached d' = false)
  | Finish d' =>
      duel_evolves d d' /\ duel_ended d' = duel_ended d
      /\ threshold_reached d' = true
  | _ => False
  end.
Proof.
  intros Hwf. unfold after_selection_outcome.
  destruct (all_selected d).
  - destruct (resolve_round d) as [d1|] eqn:E; [|discriminate]. simpl.
    destruct (resolve_round_evolves _ _ E) as (Hev & Hend & Hpk & _).
    destruct (threshold_reached d1) eqn:Ht; intros [= <-].
    + auto.
    + split; [|split; [exact Hend|intros _; exact Ht]].
      assert (Hwf1 : wf_duel d1) by (eapply wf_evolves; eauto).
      destruct Hev as [Ep Er Ec Ed Et El Eco Eu Esk Epk Erk].
      constructor; simpl; try assumption.
      rewrite <- Epk. apply (no_pokemon_keys d1 Hwf1).
  - intros [= <-]. split; [apply duel_evolves_refl|auto].
Qed.

Lemma reject_selection_outcome_evolves (d : Duel) (a : Member.t)
    (o : Outcome) :
  wf_duel d ->
  reject_selection_outcome d a = Some o ->
  match o with
  | Continue d' =>
      duel_evolves d d' /\ duel_ended d' = duel_ended d
      /\ threshold_reached d' = false
  | Finish d' =>
      duel_evolves d d' /\ duel_ended d' = duel_ended d
      /\ threshold_reached d' = true
  | _ => False
  end.
Proof.
  intros Hwf. unfold reject_selection_outcome.
  destruct (award_opponents a (players d) (scores d)) as [s|] eqn:E;
    [|discriminate]. simpl.
  pose proof (award_opponents_keys _ _ _ _ E) as Hk.
  destruct (threshold_reached (set_scores d s)) eqn:Ht; intros [= <-].
  - split; [|split; [reflexivity|exact Ht]]. constructor; simpl; auto.
  - split; [|split; [reflexivity|exact Ht]].
    constructor; simpl; auto.
    apply (no_pokemon_keys d Hwf).
Qed.

Lemma store_selection_evolves (d : Duel) (a : Member.t) (pd : PokemonData)
    (slot : option PokemonData) :
  Py.get (pokemon d) (Member.id a) = Some slot ->
  duel_evolves d (store_selection d a pd)
  /\ duel_ended (store_selection d a pd) = duel_ended d
  /\ scores (store_selection d a pd) = scores d.
Proof.
  intros Hslot. split; [|split; reflexivity].
  constructor; simpl; try reflexivity.
  - set_solver.
  - apply keys_set_present. eapply get_Some_in_keys; eauto.
Qed.

Lemma message_outcome_evolves (d : Duel) (message : Message) (o : Outcome) :
  wf_duel d ->
  message_outcome d message = Some o ->
  match o with
  | Continue d' =>
      duel_evolves d d' /\ duel_ended d' = duel_ended d
      /\ (threshold_reached d = false -> threshold_reached d' = false)
  | Finish d' =>
      duel_evolves d d' /\ duel_ended d' = duel_ended d
      /\ threshold_reached d' = true
  | _ => True
  end.
Proof.
  intros Hwf. unfold message_outcome.
  destruct (duel_ended d) eqn:Hend; [intros [= <-]; exact I|].
  destruct (negb (existsb (Member.eqb (author message)) (players d)));
    [intros [= <-]; exact I|].
  destruct (selection_phase d && waiting_for_selection d);
    [|intros [= <-]; exact I].
  destruct (in_cooldown d (time_time message)); [intros [= <-]; exact I|].
  destruct (Py.get (pokemon d) (Member.id (author message))) as [slot|] eqn:Hs;
    [|discriminate]. simpl.
  destruct slot as [chosen|].
  - intros H. pose proof (after_selection_outcome_evolves _ _ Hwf H) as Ho.
    destruct o; try exact I; destruct Ho as (Ho1 & Ho2 & Ho3);
      (split; [exact Ho1|split; [congruence|exact Ho3]]).
  - destruct (get_pokemon_data message) as [pd|]; [|intros [= <-]; exact I].
    destruct (negb (validate_pokemon_for_duel (get_evolution_stage message)
                      pd (duel_type d) (used_pokemon d)).1).
    + intros H.
      pose proof (reject_selection_outcome_evolves _ _ _ Hwf H) as Ho.
      destruct o; try exact I; destruct Ho as (Ho1 & Ho2 & Ho3);
        (split; [exact Ho1|split; [congruence|auto]]).
    + intros H.
      destruct (store_selection_evolves d (author message) pd None Hs)
        as (Hev & Hen & Hsc).
      assert (Hwf' : wf_duel (store_selection d (author message) pd))
        by (eapply wf_evolves; eauto).
      pose proof (after_selection_outcome_evolves _ _ Hwf' H) as Ho.
      assert (Ht : threshold_reached (store_selection d (author message) pd)
                   = threshold_reached d)
        by (apply threshold_reached_ext; [apply Hev|exact Hsc]).
      destruct o; try exact I; destruct Ho as (Ho1 & Ho2 & Ho3);
        (split; [eapply duel_evolves_trans; eauto|]);
        (split; [congruence|]); auto;
        intros Hd; apply Ho3; rewrite Ht; exact Hd.
Qed.

Lemma reaction_outcome_evolves (d d' : Duel) (reaction : Reaction) :
  wf_duel d ->
  reaction_outcome d reaction = Some d' ->
  duel_evolves d d' /\ duel_ended d' = duel_ended d
  /\ scores d' = scores d /\ used_pokemon d' = used_pokemon d.
Proof.
  intros Hwf. unfold reaction_outcome.
  destruct (negb (String.eqb (emoji reaction) CHECK_MARK)); [discriminate|].
  destruct (duel_ended d) eqn:Hend; [discriminate|].
  destruct (bool_decide (Member.id (user reaction) ∈ Py.keys (ready_status d)))
    eqn:Hin; [|discriminate].
  apply bool_decide_eq_true_1 in Hin. simpl.
  intros [= <-].
  destruct (forallb (fun b : bool => b)
              (Py.values
                 (Py.set (ready_status d) (Member.id (user reaction)) true))
            && negb (countdown_active d)); simpl.
  - split; [|repeat split; auto].
    constructor; simpl; try reflexivity.
    rewrite keys_from_keys by apply (wf_distinct _ Hwf).
    symmetry. apply (wf_ready _ Hwf).
  - split; [|repeat split; auto].
    constructor; simpl; try reflexivity.
    apply keys_set_present. exact Hin.
Qed.

(** * The invariant of the manager *)

Lemma add_to_history_frame (m : DuelManager) (d : Duel) (ts : string)
    (w : Z) (l : list Member.t) (m' : DuelManager) :
  add_to_history m d ts w l = Some m' ->
  active_duels m' = active_duels m /\ completed_duels m' = completed_duels m.
Proof.
  unfold add_to_history.
  destruct (duel_record d ts w l); [|discriminate].
  simpl. intros [= <-]. auto.
Qed.

Lemma end_duel_frame (m : DuelManager) (d : Duel) (ch : Z) (ts : string)
    (m' : DuelManager) :
  end_duel m d ch ts = Some m' ->
  active_duels m' = delete ch (active_duels m)
  /\ completed_duels m' = <[ch := set_duel_ended d true]> (completed_duels m).
Proof.
  unfold end_duel.
  destruct (Py.max_key (scores d)) as [w|]; [|discriminate]. simpl.
  destruct (find _ (players d)) as [p|]; [|discriminate]. simpl.
  destruct (add_to_history m d ts w _) as [m1|] eqn:E; [|discriminate].
  simpl. apply add_to_history_frame in E as [Ha Hc].
  destruct (_ <? _)%nat; [discriminate|].
  intros [= <-]. simpl. rewrite Ha, Hc. auto.
Qed.


Lemma wf_set_duel_ended (d : Duel) (b : bool) :
  wf_duel d -> wf_duel (set_duel_ended d b).
Proof. intros []. constructor; assumption. Qed.

Lemma needed_wins_values (d : Duel) :
  rounds d ∈ [3; 5; 7]%Z ->
  (rounds d = 3 /\ needed_wins d = 2 \/ rounds d = 5 /\ needed_wins d = 3
   \/ rounds d = 7 /\ needed_wins d = 4)%Z.
Proof.
  unfold needed_wins. intros H.
  repeat (apply elem_of_cons in H as [->|H]); [auto..|].
  apply elem_of_nil in H. destruct H.
Qed.

Lemma threshold_not_reached_init (ps : list Member.t) (r c : Z) (t : string) :
  NoDup (player_ids ps) -> r ∈ [3; 5; 7]%Z ->
  threshold_reached (Duel_init ps r c t) = false.
Proof.
  intros Hnd Hr. unfold threshold_reached.
  pose proof (needed_wins_values (Duel_init ps r c t) Hr) as Hn.
  simpl in *. rewrite values_from_keys by assumption.
  induction (player_ids ps) as [|k ks IH]; simpl; [reflexivity|].
  apply NoDup_cons in Hnd as [_ Hnd].
  rewrite (IH Hnd), orb_false_r. apply Z.leb_gt. lia.
Qed.

Lemma start_duel_inv (m : DuelManager) (a : Member.t) (os : list Member.t)
    (r : Z) (t : string) (c : Z) (m' : DuelManager) :
  (length os = 1%nat \/ length os = 2%nat) ->
  manager_inv m ->
  unregistered m c = true ->
  start_duel m a os r t c = Some m' ->
  manager_inv m'.
Proof.
  intros Hlen Hinv Hnew. unfold start_duel.
  destruct (bool_decide (r ∈ [3; 5; 7]%Z)) eqn:Hr; simpl;
    [|intros [= <-]; assumption].
  apply bool_decide_eq_true_1 in Hr.
  destruct (negb (bool_decide (t ∈ _))); [intros [= <-]; assumption|].
  destruct (existsb (Member.eqb a) os) eqn:Ha; [intros [= <-]; assumption|].
  destruct (existsb Member.bot os); [intros [= <-]; assumption|].
  destruct (bool_decide (NoDup (player_ids os))) eqn:Hnd; simpl;
    [|intros [= <-]; assumption].
  apply bool_decide_eq_true_1 in Hnd.
  destruct os as [|o os]; [discriminate|].
  intros [= <-].
  assert (Hnd' : NoDup (player_ids (a :: o :: os))).
  { change (player_ids (a :: o :: os))
      with (Member.id a :: player_ids (o :: os)).
    apply NoDup_cons. split; [|exact Hnd].
    intros Hin. unfold player_ids in Hin.
    apply list_elem_of_In, in_map_iff in Hin as (p & Hid & Hp).
    assert (existsb (Member.eqb a) (o :: os) = true); [|congruence].
    apply existsb_exists. exists p. split; [exact Hp|].
    unfold Member.eqb. apply Z.eqb_eq. symmetry. exact Hid. }
  unfold unregistered in Hnew.
  destruct (active_duels m !! c) eqn:Hac; [discriminate|].
  destruct (completed_duels m !! c) eqn:Hco; [discriminate|].
  destruct Hinv as [Hia Hic Hid].
  constructor; simpl.
  - intros c' d'. rewrite lookup_insert. case_decide.
    + subst c'. intros [= <-]. split; [|split].
      * apply wf_Duel_init; auto. simpl in *. lia.
      * reflexivity.
      * apply threshold_not_reached_init; auto.
    + apply Hia.
  - exact Hic.
  - intros c' d'. rewrite lookup_insert. case_decide.
    + subst c'. intros _. exact Hco.
    + apply Hid.
Qed.

Lemma store_inv (m : DuelManager) (ch : Z) (d d' : Duel) :
  manager_inv m ->
  active_duels m !! ch = Some d ->
  wf_duel d' -> duel_ended d' = false -> threshold_reached d' = false ->
  manager_inv (store m ch d').
Proof.
  intros [Hia Hic Hid] Hd Hwf He Ht. constructor; simpl.
  - intros c x. rewrite lookup_insert. case_decide.
    + intros [= <-]. auto.
    + apply Hia.
  - exact Hic.
  - intros c x. rewrite lookup_insert. case_decide.
    + subst c. intros _. eapply Hid; eauto.
    + apply Hid.
Qed.

Lemma end_duel_inv (m : DuelManager) (ch : Z) (d : Duel) (ts : string)
    (m' : DuelManager) :
  manager_inv m ->
  wf_duel d -> threshold_reached d = true ->
  end_duel m d ch ts = Some m' ->
  manager_inv m'.
Proof.
  intros [Hia Hic Hid] Hwf Ht H.
  apply end_duel_frame in H as [Ha Hc].
  constructor; rewrite ?Ha, ?Hc.
  - intros c x. rewrite lookup_delete. case_decide; [discriminate|].
    apply Hia.
  - intros c x. rewrite lookup_insert. case_decide.
    + intros [= <-]. split; [apply wf_set_duel_ended; assumption|].
      split; [reflexivity|]. exact Ht.
    + apply Hic.
  - intros c x. rewrite lookup_delete, lookup_insert.
    case_decide; [discriminate|]. apply Hid.
Qed.

Lemma handle_message_inv (m : DuelManager) (message : Message)
    (m' : DuelManager) (b : bool) :
  manager_inv m ->
  handle_message m message = Some (m', b) ->
  manager_inv m'.
Proof.
  intros Hinv. rewrite handle_message_as_outcome.
  destruct (active_duels m !! message_channel message) as [d|] eqn:Hd;
    [|intros [= <- _]; assumption].
  destruct (inv_active _ Hinv _ _ Hd) as (Hwf & Hend & Hthr).
  destruct (message_outcome d message) as [o|] eqn:Ho; [|discriminate].
  pose proof (message_outcome_evolves _ _ _ Hwf Ho) as Hev.
  simpl. destruct o as [| |d'|d']; simpl.
  - intros [= <- _]. assumption.
  - intros [= <- _]. assumption.
  - intros [= <- _]. destruct Hev as (Hev & He & Ht).
    apply (store_inv m _ d d' Hinv Hd).
    + eapply wf_evolves; eauto.
    + congruence.
    + auto.
  - destruct (end_duel m d' (message_channel message) (datetime_now message))
      as [m1|] eqn:E; [|discriminate].
    simpl. intros [= <- _]. destruct Hev as (Hev & He & Ht).
    refine (end_duel_inv m _ d' _ m1 Hinv _ Ht E).
    eapply wf_evolves; eauto.
Qed.

Lemma handle_reaction_inv (m : DuelManager) (reaction : Reaction) :
  manager_inv m -> manager_inv (handle_reaction m reaction).
Proof.
  intros Hinv. rewrite handle_reaction_as_outcome.
  destruct (active_duels m !! reaction_channel reaction) as [d|] eqn:Hd;
    [|assumption].
  destruct (inv_active _ Hinv _ _ Hd) as (Hwf & Hend & Hthr).
  destruct (reaction_outcome d reaction) as [d'|] eqn:Ho; [|assumption].
  destruct (reaction_outcome_evolves _ _ _ Hwf Ho) as (Hev & He & Hs & _).
  apply (store_inv m _ d d' Hinv Hd).
  - eapply wf_evolves; eauto.
  - congruence.
  - rewrite <- Hthr. apply threshold_reached_ext; [apply Hev|exact Hs].
Qed.

Lemma step_inv (m : DuelManager) (e : Event) (m' : DuelManager) :
  manager_inv m -> step m e = Some m' -> manager_inv m'.
Proof.
  intros Hinv. unfold step.
  destruct (creates_new_channel m e) eqn:Hnew; [|discriminate].
  destruct e as [a o r t c|a o1 o2 r t c|reaction|message]; simpl in *.
  - apply start_duel_inv; auto.
  - apply start_duel_inv; auto.
  - intros [= <-]. unfold on_reaction_add.
    destruct (Member.bot (user reaction)); [assumption|].
    apply handle_reaction_inv. assumption.
  - unfold on_message.
    destruct (Member.bot (author message)); [intros [= <-]; assumption|].
    destruct (handle_message m message) as [[m1 b]|] eqn:E; [|discriminate].
    simpl. intros [= <-]. eapply handle_message_inv; eauto.
Qed.

Lemma run_inv (events : list Event) :
  forall m m', manager_inv m -> run m events = Some m' -> manager_inv m'.
Proof.
  induction events as [|e events IH]; intros m m' Hinv; simpl.
  - intros [= <-]. assumption.
  - destruct (step m e) as [m1|] eqn:E; [|discriminate]. simpl.
    apply IH. eapply step_inv; eauto.
Qed.

Lemma init_inv (loaded : gmap string (list DuelRecord)) :
  manager_inv (DuelManager_init loaded).
Proof.
  constructor; simpl; intros c d H; rewrite lookup_empty in H; discriminate.
Qed.

Lemma reachable_inv (m : DuelManager) : reachable m -> manager_inv m.
Proof.
  intros (loaded & events & Hrun).
  eapply run_inv; [apply init_inv|exact Hrun].
Qed.

(** * A duel through the events *)

Lemma threshold_iff (d : Duel) :
  wf_duel d ->
  threshold_reached d = true
  <-> exists p v, p ∈ players d /\ score_of d p = Some v
                  /\ (needed_wins d <= v)%Z.
Proof.
  intros Hwf. unfold threshold_reached, score_of.
  destruct (wf_shape _ Hwf)
    as [p1 p2 s1 s2 k1 k2 r1 r2 H12 Hp Ht Hs _ _
       |p1 p2 p3 s1 s2 s3 k1 k2 k3 r1 r2 r3 H12 H13 H23 Hp Ht Hs _ _];
    rewrite Hp, Hs; cbn [Py.values map snd existsb]; rewrite orb_false_r.
  - split.
    + intros H. apply orb_prop in H as [H|H]; apply Z.leb_le in H.
      * exists p1, s1. split; [left|]. simpl. ids_eqb. auto.
      * exists p2, s2. split; [right; left|]. simpl. ids_eqb. auto.
    + intros (p & v & Hin & Hv & Hle). apply orb_true_iff.
      in_list Hin; simpl in Hv; revert Hv; ids_eqb; intros [= <-];
        [left|right]; apply Z.leb_le; exact Hle.
  - split.
    + intros H. apply orb_prop in H as [H|H]; [|apply orb_prop in H as [H|H]];
        apply Z.leb_le in H.
      * exists p1, s1. split; [left|]. simpl. ids_eqb. auto.
      * exists p2, s2. split; [right; left|]. simpl. ids_eqb. auto.
      * exists p3, s3. split; [right; right; left|]. simpl. ids_eqb. auto.
    + intros (p & v & Hin & Hv & Hle). rewrite !orb_true_iff.
      in_list Hin; simpl in Hv; revert Hv; ids_eqb; intros [= <-];
        [left|right; left|right; right]; apply Z.leb_le; exact Hle.
Qed.

Lemma duel_evolves_set_duel_ended (d d' : Duel) (b : bool) :
  duel_evolves d d' -> duel_evolves d (set_duel_ended d' b).
Proof. intros []. constructor; assumption. Qed.

Lemma registered_active (m : DuelManager) (c : Z) (d : Duel) :
  active_duels m !! c = Some d -> registered m c = Some d.
Proof. unfold registered. intros ->. reflexivity. Qed.

Lemma registered_cases (m : DuelManager) (c : Z) (d : Duel) :
  manager_inv m ->
  registered m c = Some d ->
  (active_duels m !! c = Some d /\ duel_ended d = false)
  \/ (active_duels m !! c = None /\ completed_duels m !! c = Some d
      /\ duel_ended d = true).
Proof.
  intros Hinv. unfold registered.
  destruct (active_duels m !! c) as [d0|] eqn:Ha.
  - intros [= <-]. left. split; [reflexivity|].
    apply (inv_active _ Hinv _ _ Ha).
  - intros Hc. right. repeat split; auto.
    apply (inv_completed _ Hinv _ _ Hc).
Qed.

Lemma registered_store (m : DuelManager) (ch c : Z) (d' : Duel) :
  registered (store m ch d') c
  = if decide (ch = c) then Some d' else registered m c.
Proof.
  unfold registered, store. simpl. rewrite lookup_insert.
  case_decide; reflexivity.
Qed.

Lemma start_duel_registered (m : DuelManager) (a : Member.t)
    (os : list Member.t) (r : Z) (t : string) (cn : Z) (m' : DuelManager)
    (c : Z) (d : Duel) :
  unregistered m cn = true ->
  start_duel m a os r t cn = Some m' ->
  registered m c = Some d ->
  registered m' c = Some d.
Proof.
  intros Hnew. unfold start_duel.
  destruct (negb (bool_decide (r ∈ _))); [intros [= <-]; auto|].
  destruct (negb (bool_decide (t ∈ _))); [intros [= <-]; auto|].
  destruct (existsb (Member.eqb a) os); [intros [= <-]; auto|].
  destruct (existsb Member.bot os); [intros [= <-]; auto|].
  destruct (negb (bool_decide (NoDup (player_ids os))));
    [intros [= <-]; auto|].
  destruct os as [|o os]; [discriminate|].
  intros [= <-] Hreg.
  assert (cn <> c).
  { intros ->. unfold unregistered, registered in *.
    destruct (active_duels m !! c); [discriminate|].
    destruct (completed_duels m !! c); discriminate. }
  unfold registered in *. simpl. rewrite lookup_insert_ne by assumption.
  exact Hreg.
Qed.

Lemma handle_reaction_registered (m : DuelManager) (reaction : Reaction)
    (c : Z) (d : Duel) :
  manager_inv m ->
  registered m c = Some d ->
  exists d', registered (handle_reaction m reaction) c = Some d'
             /\ duel_evolves d d' /\ (duel_ended d = true -> d' = d).
Proof.
  intros Hinv Hreg. rewrite handle_reaction_as_outcome.
  destruct (active_duels m !! reaction_channel reaction) as [d0|] eqn:Hd;
    [|exists d; auto using duel_evolves_refl].
  destruct (reaction_outcome d0 reaction) as [d0'|] eqn:Ho;
    [|exists d; auto using duel_evolves_refl].
  rewrite registered_store. case_decide.
  - subst c. rewrite (registered_active _ _ _ Hd) in Hreg.
    injection Hreg as <-.
    destruct (inv_active _ Hinv _ _ Hd) as (Hwf & Hend & _).
    destruct (reaction_outcome_evolves _ _ _ Hwf Ho) as (Hev & _).
    exists d0'. split; [reflexivity|]. split; [exact Hev|].
    intros Hd'. congruence.
  - exists d; auto using duel_evolves_refl.
Qed.

Lemma handle_message_registered (m : DuelManager) (message : Message)
    (m' : DuelManager) (b : bool) (c : Z) (d : Duel) :
  manager_inv m ->
  handle_message m message = Some (m', b) ->
  registered m c = Some d ->
  exists d', registered m' c = Some d'
             /\ duel_evolves d d' /\ (duel_ended d = true -> d' = d).
Proof.
  intros Hinv H Hreg. rewrite handle_message_as_outcome in H.
  destruct (active_duels m !! message_channel message) as [d0|] eqn:Hd;
    [|injection H as <- _; exists d; auto using duel_evolves_refl].
  destruct (inv_active _ Hinv _ _ Hd) as (Hwf & Hend & _).
  destruct (message_outcome d0 message) as [o|] eqn:Ho; [|discriminate].
  pose proof (message_outcome_evolves _ _ _ Hwf Ho) as Hev.
  simpl in H. destruct o as [| |d0'|d0']; simpl in H.
  - injection H as <- _; exists d; auto using duel_evolves_refl.
  - injection H as <- _; exists d; auto using duel_evolves_refl.
  - injection H as <- _. rewrite registered_store. case_decide.
    + subst c. rewrite (registered_active _ _ _ Hd) in Hreg.
      injection Hreg as <-. destruct Hev as (Hev & _).
      exists d0'. split; [reflexivity|]. split; [exact Hev|].
      intros Hd'. congruence.
    + exists d; auto using duel_evolves_refl.
  - destruct (end_duel m d0' (message_channel message) (datetime_now message))
      as [m1|] eqn:E; [|discriminate].
    simpl in H. injection H as <- _.
    apply end_duel_frame in E as [Ha Hc].
    unfold registered. rewrite Ha, Hc, lookup_delete, lookup_insert.
    case_decide.
    + subst c. rewrite (registered_active _ _ _ Hd) in Hreg.
      injection Hreg as <-. destruct Hev as (Hev & _).
      eexists. split; [reflexivity|]. split.
      * apply duel_evolves_set_duel_ended. exact Hev.
      * congruence.
    + exists d. split; [exact Hreg|]. auto using duel_evolves_refl.
Qed.

Lemma step_registered (m : DuelManager) (e : Event) (m' : DuelManager)
    (c : Z) (d : Duel) :
  manager_inv m ->
  step m e = Some m' ->
  registered m c = Some d ->
  exists d', registered m' c = Some d'
             /\ duel_evolves d d' /\ (duel_ended d = true -> d' = d).
Proof.
  intros Hinv. unfold step.
  destruct (creates_new_channel m e) eqn:Hnew; [|discriminate].
  destruct e as [a o r t cn|a o1 o2 r t cn|reaction|message]; simpl in *.
  - intros H Hreg. exists d. split; [|auto using duel_evolves_refl].
    eapply start_duel_registered; eauto.
  - intros H Hreg. exists d. split; [|auto using duel_evolves_refl].
    eapply start_duel_registered; eauto.
  - intros [= <-] Hreg. unfold on_reaction_add.
    destruct (Member.bot (user reaction));
      [exists d; auto using duel_evolves_refl|].
    apply handle_reaction_registered; assumption.
  - unfold on_message.
    destruct (Member.bot (author message));
      [intros [= <-] Hreg; exists d; auto using duel_evolves_refl|].
    destruct (handle_message m message) as [[m1 b]|] eqn:E; [|discriminate].
    simpl. intros [= <-] Hreg. eapply handle_message_registered; eauto.
Qed.

Lemma run_registered (events : list Event) :
  forall m m' c d,
    manager_inv m ->
    run m events = Some m' ->
    registered m c = Some d ->
    exists d', registered m' c = Some d'
               /\ duel_evolves d d' /\ (duel_ended d = true -> d' = d).
Proof.
  induction events as [|e events IH]; intros m m' c d Hinv; simpl.
  - intros [= <-] Hreg. exists d. auto using duel_evolves_refl.
  - destruct (step m e) as [m1|] eqn:E; [|discriminate]. simpl.
    intros Hrun Hreg.
    destruct (step_registered _ _ _ _ _ Hinv E Hreg) as (d1 & Hr1 & Hev1 & He1).
    destruct (IH m1 m' c d1 (step_inv _ _ _ Hinv E) Hrun Hr1)
      as (d' & Hr' & Hev' & He').
    exists d'. split; [exact Hr'|]. split.
    + eapply duel_evolves_trans; eauto.
    + intros Hend. pose proof (He1 Hend) as E1. subst d1.
      apply He'. exact Hend.
Qed.

(** * The majority threshold *)

(** With the handlers run one at a time: in every manager the bot can
    reach, a duel of 3, 5 or 7 rounds needs 2, 3 or 4 wins; it is ended
    exactly when some participant's score has reached that number (so
    the test is made after every event that scores, and the duel never
    ends below the threshold); and an ended duel is left as it is by
    every later event.  [C3_scored_after_threshold] shows what a
    handler begun during the showdown does to this. *)
Theorem ended_iff_majority (m : DuelManager) (c : Z) (d : Duel) :
  reachable m ->
  registered m c = Some d ->
  (rounds d = 3 /\ needed_wins d = 2 \/ rounds d = 5 /\ needed_wins d = 3
   \/ rounds d = 7 /\ needed_wins d = 4)%Z
  /\ (duel_ended d = true
      <-> exists p v, p ∈ players d /\ score_of d p = Some v
                      /\ (needed_wins d <= v)%Z)
  /\ (duel_ended d = true ->
      forall e m', step m e = Some m' -> registered m' c = Some d).
Proof.
  intros Hreach Hreg.
  pose proof (reachable_inv _ Hreach) as Hinv.
  assert (Hfacts : wf_duel d /\ threshold_reached d = duel_ended d).
  { destruct (registered_cases _ _ _ Hinv Hreg)
      as [[Ha He]|(Ha & Hc & He)].
    - destruct (inv_active _ Hinv _ _ Ha) as (Hwf & _ & Ht).
      split; [assumption|congruence].
    - destruct (inv_completed _ Hinv _ _ Hc) as (Hwf & _ & Ht).
      split; [assumption|congruence]. }
  destruct Hfacts as [Hwf Ht].
  split; [apply needed_wins_values, (wf_rounds _ Hwf)|].
  split.
  - rewrite <- Ht. apply threshold_iff. exact Hwf.
  - intros Hend e m' Hstep.
    destruct (step_registered _ _ _ _ _ Hinv Hstep Hreg)
      as (d' & Hr' & _ & Hsame).
    rewrite (Hsame Hend) in Hr'. exact Hr'.
Qed.

Lemma ended_iff_majority_witness :
  (rounds (duel_after sample_match 100) = 3
   /\ needed_wins (duel_after sample_match 100) = 2
   \/ rounds (duel_after sample_match 100) = 5
      /\ needed_wins (duel_after sample_match 100) = 3
   \/ rounds (duel_after sample_match 100) = 7
      /\ needed_wins (duel_after sample_match 100) = 4)%Z
  /\ (duel_ended (duel_after sample_match 100) = true
      <-> exists p v,
            p ∈ players (duel_after sample_match 100)
            /\ score_of (duel_after sample_match 100) p = Some v
            /\ (needed_wins (duel_after sample_match 100) <= v)%Z)
  /\ (duel_ended (duel_after sample_match 100) = true ->
      forall e m',
        step (manager_after sample_match) e = Some m' ->
        registered m' 100 = Some (duel_after sample_match 100)).
Proof.
  apply (ended_iff_majority (manager_after sample_match) 100
           (duel_after sample_match 100)).
  - exists ∅, sample_match. vm_compute. reflexivity.
  - vm_compute. reflexivity.
Defined.

(** The sample match ends with Misty at 2 points and Ash at 0, after
    one resolved round and one penalty. *)
Example sample_match_result :
  duel_ended (duel_after sample_match 100) = true
  /\ scores (duel_after sample_match 100) = [(1, 0); (2, 2)]%Z
  /\ current_round (duel_after sample_match 100) = 1%Z
  /\ length (round_history (duel_after sample_match 100)) = 1%nat
  /\ active_duels (manager_after sample_match) !! 100%Z = None.
Proof. vm_compute. repeat split; reflexivity. Qed.

(** * The used-set (C5) *)

(** C5: once a key is in the used-set of a duel, then after any
    further events the used-set of that duel still contains all it
    contained, and the eligibility check rejects, as already used,
    every creature whose lower-cased name is that key; the check does
    not read who submits. *)
Theorem C5_used_creature_stays_rejected (m : DuelManager) (c : Z) (d : Duel)
    (key : string) (events : list Event) (m' : DuelManager) :
  reachable m ->
  registered m c = Some d ->
  key ∈ used_pokemon d ->
  run m events = Some m' ->
  exists d',
    registered m' c = Some d'
    /\ used_pokemon d ⊆ used_pokemon d'
    /\ forall stage pokemon_data,
        Py.lower (name pokemon_data) = key ->
        validate_pokemon_for_duel stage pokemon_data (duel_type d')
          (used_pokemon d')
        = (false, "This Pokemon has already been used in this duel!"%string).
Proof.
  intros Hreach Hreg Hkey Hrun.
  pose proof (reachable_inv _ Hreach) as Hinv.
  destruct (run_registered _ _ _ _ _ Hinv Hrun Hreg) as (d' & Hr' & Hev & _).
  exists d'. split; [exact Hr'|]. split; [apply Hev|].
  intros stage pd Hname. unfold validate_pokemon_for_duel.
  rewrite Hname. rewrite bool_decide_eq_true_2; [reflexivity|].
  apply (ev_used _ _ Hev). exact Hkey.
Qed.

Lemma C5_used_witness :
  exists d',
    registered (manager_after sample_match) 100 = Some d'
    /\ used_pokemon (duel_after ash_selects 100) ⊆ used_pokemon d'
    /\ forall stage pokemon_data,
        Py.lower (name pokemon_data) = "pikachu"%string ->
        validate_pokemon_for_duel stage pokemon_data (duel_type d')
          (used_pokemon d')
        = (false, "This Pokemon has already been used in this duel!"%string).
Proof.
  apply (C5_used_creature_stays_rejected (manager_after ash_selects) 100
           (duel_after ash_selects 100) "pikachu"
           ([say 100 misty "squirtle" 1001%float (Some squirtle)]
              ++ second_round)
           (manager_after sample_match)).
  - exists ∅, ash_selects. vm_compute. reflexivity.
  - vm_compute. reflexivity.
  - apply (bool_decide_unpack _). vm_compute. exact I.
  - vm_compute. reflexivity.
Defined.

(** * The selection cooldown (C2) *)

(** No event changes the timestamp the cooldown test reads. *)
Lemma last_selection_time_never_written (m : DuelManager) (c : Z) (d : Duel)
    (events : list Event) (m' : DuelManager) (d' : Duel) :
  reachable m ->
  registered m c = Some d ->
  run m events = Some m' ->
  registered m' c = Some d' ->
  last_selection_time d' = last_selection_time d.
Proof.
  intros Hreach Hreg Hrun Hreg'.
  pose proof (reachable_inv _ Hreach) as Hinv.
  destruct (run_registered _ _ _ _ _ Hinv Hrun Hreg) as (d1 & Hr1 & Hev & _).
  assert (d1 = d') by congruence. subst d1. apply Hev.
Qed.

(** C2, on the code: Ash's selection is accepted at time 1000 and
    Misty's one second later is accepted as well, inside the cooldown of
    3 seconds: the round is resolved with both creatures.  The
    timestamp of the last selection is still 0, its initial value. *)
Theorem C2_selection_one_second_later_accepted :
  Py.get (pokemon (duel_after ash_selects 100)) 1 = Some (Some pikachu)
  /\ selection_cooldown (duel_after ash_selects 100) = 3%Z
  /\ run (manager_after ash_selects)
       [say 100 misty "squirtle" 1001%float (Some squirtle)]
     = Some (manager_after first_round)
  /\ map round_pokemon (round_history (duel_after first_round 100))
     = [["Pikachu"; "Squirtle"]]%string
  /\ last_selection_time (duel_after first_round 100) = 0%Z.
Proof. vm_compute. repeat split; reflexivity. Qed.

(** * The penalty for a rejected selection (C4) *)

Lemma get_from_keys {V : Type} (ks : list Z) (v : V) (k : Z) :
  NoDup ks -> k ∈ ks -> Py.get (Py.from_keys ks v) k = Some v.
Proof.
  intros Hnd Hin. rewrite from_keys_spec by assumption.
  clear Hnd. induction ks as [|k0 ks IH]; [inversion Hin|].
  simpl. destruct (Z.eqb k0 k) eqn:E; [reflexivity|].
  apply IH. apply elem_of_cons in Hin as [->|Hin]; [|assumption].
  rewrite Z.eqb_refl in E. discriminate.
Qed.

Lemma author_is_participant (a : Member.t) (ps : list Member.t) :
  existsb (Member.eqb a) ps = true ->
  exists p, p ∈ ps /\ Member.id a = Member.id p.
Proof.
  intros H. apply existsb_exists in H as (p & Hin & Heq).
  exists p. split; [apply list_elem_of_In; assumption|].
  apply Z.eqb_eq. exact Heq.
Qed.

Ltac award_eval :=
  unfold Py.incr;
  repeat (cbn beta iota delta [award_opponents Py.get Py.set mbind
                                 option_bind negb];
          ids_eqb).




(** * The order of binary64 floats

    Facts on the comparisons of primitive floats, from their
    specification on [spec_float]. *)




Section FloatOrder.
Local Open Scope float_scope.
Implicit Types x y z : float.











End FloatOrder.

(** * Round resolution (C6) *)

Section Winners.
Local Open Scope float_scope.
Implicit Types x y z : float.








End Winners.



Ltac resolve_eval :=
  unfold Py.incr;
  repeat (cbn beta iota zeta delta
            [Py.get Py.set mbind option_bind option_ret mret mjoin
               option_join fmap option_fmap option_map mapM
               lookup list_lookup imap fst snd
               Nat.modulo Nat.divmod Nat.add Nat.sub];
          ids_eqb).






(** Three selections with equal battle scores: the tie marker is
    recorded, no score changes and the round index advances. *)
Example three_way_tie :
  map round_scores (round_history (duel_after tied_round 200))
  = [[6; 6; 6]%float]
  /\ map winner (round_history (duel_after tied_round 200)) = [TIE]
  /\ scores (duel_after tied_round 200) = [(1, 0); (2, 0); (3, 0)]%Z
  /\ current_round (duel_after tied_round 200) = 1%Z.
Proof. vm_compute. repeat split; reflexivity. Qed.

(** * The handlers raise no exception *)






(** * The provider adapter *)

Example title_examples :
  Str.title "mr-mime" = "Mr-Mime"%string
  /\ Str.title "deoxys attack" = "Deoxys Attack"%string
  /\ Str.title "pORYGON2" = "Porygon2"%string
  /\ Str.title "ho-oh" = "Ho-Oh"%string
  /\ Str.title "type: null" = "Type: Null"%string
  /\ Str.strip "  Mr Mime  " = "Mr Mime"%string
  /\ Str.strip "   " = ""%string
  /\ Str.replace " " "-" "tapu koko" = "tapu-koko"%string.
Proof. repeat split; reflexivity. Qed.

Lemma dict_literal_lookup {V : Type} (l : list (string * V)) (k : string)
    (v : V) :
  dict_literal l !! k = Some v -> (k, v) ∈ l.
Proof.
  unfold dict_literal.
  assert (H : forall m : gmap string V,
             fold_left (fun m kv => <[kv.1 := kv.2]> m) l m !! k = Some v ->
             m !! k = Some v \/ (k, v) ∈ l).
  { induction l as [|[k' v'] l IH]; intros m; simpl; [auto|].
    intros H. apply IH in H as [H|H].
    - rewrite lookup_insert in H. case_decide.
      + simpl in *. subst k'. injection H as ->. right. left.
      + auto.
    - right. right. exact H. }
  intros Hl. apply H in Hl as [Hl|Hl]; [|exact Hl].
  rewrite lookup_empty in Hl. discriminate.
Qed.

Lemma effectiveness_keys (a : string) (row : gmap string float) :
  pokemon_go_effectiveness !! a = Some row -> a ∈ attack_types.
Proof.
  unfold pokemon_go_effectiveness. intros H.
  apply dict_literal_lookup in H.
  apply (list_elem_of_fmap_2 fst) in H. exact H.
Qed.

Lemma upper_ascii_cased (c : ascii) :
  Str.is_cased c = true ->
  Str.is_cased (Str.upper_ascii c) = true
  /\ Str.is_upper (Str.upper_ascii c) = true.
Proof.
  destruct c as [[] [] [] [] [] [] [] []]; vm_compute; intros H;
    try discriminate H; split; reflexivity.
Qed.

Lemma upper_ascii_uncased (c : ascii) :
  Str.is_cased c = false -> Str.upper_ascii c = c.
Proof.
  unfold Str.is_cased, Str.upper_ascii.
  destruct (Str.is_lower c); [discriminate|reflexivity].
Qed.

Lemma title_starts_upper (s : string) : starts_upper (Str.title s) = true.
Proof.
  unfold Str.title. induction s as [|c s IH]; simpl; [reflexivity|].
  destruct (Str.is_cased c) eqn:Hc.
  - destruct (upper_ascii_cased c Hc) as [-> ->]. reflexivity.
  - rewrite (upper_ascii_uncased c Hc), Hc. exact IH.
Qed.

Lemma title_no_entry (t defense_type : string) :
  table_entry (Str.title t) defense_type = None.
Proof.
  unfold table_entry.
  destruct (pokemon_go_effectiveness !! Str.title t) as [row|] eqn:H;
    [|reflexivity].
  apply effectiveness_keys in H.
  pose proof (title_starts_upper t) as Hu.
  unfold attack_types in H.
  repeat (apply elem_of_cons in H as [H|H];
          [rewrite H in Hu; vm_compute in Hu; discriminate Hu|]).
  apply elem_of_nil in H. destruct H.
Qed.

Lemma inner_loop_no_entry (a : string) (stab : float) (B : list string) :
  (forall b, table_entry a b = None) ->
  forall acc,
    fold_left
      (fun effectiveness defense_type =>
         match table_entry a defense_type with
         | Some e => (effectiveness * (e * stab))%float
         | None => effectiveness
         end) B acc = acc.
Proof.
  intros H. induction B as [|b B IH]; intros acc; cbn [fold_left];
    [reflexivity|].
  rewrite H. apply IH.
Qed.

Lemma effectiveness_loop_no_entry (A B : list string) :
  (forall a b, a ∈ A -> table_entry a b = None) ->
  effectiveness_loop A B = 1%float.
Proof.
  unfold effectiveness_loop. intros H.
  assert (G : forall (A0 A1 : list string) acc,
             (forall a b, a ∈ A1 -> table_entry a b = None) ->
             fold_left
               (fun effectiveness attack_type =>
                  let stab :=
                    if bool_decide (attack_type ∈ A0)
                    then STAB_MULTIPLIER else 1%float in
                  fold_left
                    (fun effectiveness defense_type =>
                       match table_entry attack_type defense_type with
                       | Some e => (effectiveness * (e * stab))%float
                       | None => effectiveness
                       end) B effectiveness) A1 acc = acc).
  { intros A0 A1. induction A1 as [|a A1 IH]; intros acc H1; cbn [fold_left];
      [reflexivity|].
    rewrite inner_loop_no_entry by (intros b; apply H1; left).
    apply IH. intros a' b Ha'. apply H1. right. exact Ha'. }
  apply G. exact H.
Qed.

Lemma titled_no_advantage (raw1 raw2 : list string) :
  calculate_type_advantage_with_stab (map Str.title raw1) (map Str.title raw2)
  = (1%float, 1%float).
Proof.
  unfold calculate_type_advantage_with_stab.
  rewrite !effectiveness_loop_no_entry; [reflexivity| |];
    intros a b Ha; apply list_elem_of_fmap in Ha as (t & -> & _);
    apply title_no_entry.
Qed.

Lemma extract_titled (display_name : string) (body : Api.PokemonJson)
    (e : Api.Entry) :
  Api.extract display_name body = Some e -> titled e.
Proof.
  unfold Api.extract.
  destruct (Api.json_stats body) as [|? [|? [|? [|? [|? [|? ?]]]]]];
    try discriminate.
  intros [= <-]. exists (Api.json_types body). reflexivity.
Qed.

Lemma take_cases (cache : gmap string Api.Entry) (key : string)
    (display : string -> string) (body : option Api.PokemonJson) :
  cache !! key = None ->
  lookup_step cache key (Api.take cache key display body).1
    (Api.take cache key display body).2.
Proof.
  intros Hk. unfold Api.take.
  destruct body as [b|]; simpl; [|constructor; exact Hk].
  destruct (Api.extract (display (Api.json_name b)) b) as [e|] eqn:He; simpl.
  - econstructor; eauto.
  - constructor. exact Hk.
Qed.

Lemma get_pokemon_data_cases (provider : Api.Provider)
    (cache : gmap string Api.Entry) (pokemon_name : string) :
  lookup_step cache (Api.normalize pokemon_name)
    (Api.get_pokemon_data provider cache pokemon_name).1
    (Api.get_pokemon_data provider cache pokemon_name).2.
Proof.
  unfold Api.get_pokemon_data.
  destruct (cache !! Api.normalize pokemon_name) as [e|] eqn:Hk.
  { constructor. exact Hk. }
  pose proof (lookup_none cache _ Hk) as Hnone.
  destruct (Api.get_pokemon provider _) as [resp|]; [|exact Hnone].
  destruct (Api.status resp =? 200)%Z; [apply take_cases; exact Hk|].
  destruct (Api.status resp =? 404)%Z; [|exact Hnone].
  assert (Hbase :
    forall r : option Api.Entry * gmap string Api.Entry,
      r = match Api.get_base provider
                  (Py.lower (Py.split_head " " pokemon_name)) with
          | Some base_resp =>
              if (Api.status base_resp =? 200)%Z
              then Api.take cache (Api.normalize pokemon_name) Str.title
                     (Api.json base_resp)
              else (None, cache)
          | None => (None, cache)
          end ->
      lookup_step cache (Api.normalize pokemon_name) r.1 r.2).
  { intros r ->. destruct (Api.get_base provider _) as [base_resp|];
      [|exact Hnone].
    destruct (Api.status base_resp =? 200)%Z; [|exact Hnone].
    apply take_cases. exact Hk. }
  destruct (Str.contains " " pokemon_name); [|apply Hbase; reflexivity].
  destruct (Api.get_form provider _) as [form_resp|]; [|exact Hnone].
  destruct (Api.status form_resp =? 200)%Z; [|apply Hbase; reflexivity].
  apply take_cases. exact Hk.
Qed.

Lemma get_pokemon_data_titled (provider : Api.Provider)
    (cache : gmap string Api.Entry) (pokemon_name : string) :
  cache_titled cache ->
  cache_titled (Api.get_pokemon_data provider cache pokemon_name).2
  /\ forall e, (Api.get_pokemon_data provider cache pokemon_name).1 = Some e ->
               titled e.
Proof.
  intros Hc.
  pose proof (get_pokemon_data_cases provider cache pokemon_name) as H.
  destruct (Api.get_pokemon_data provider cache pokemon_name)
    as [answer cache']. simpl in *.
  destruct H as [e He|e display body Hk He|Hk].
  - split; [exact Hc|]. intros e' [= <-]. eapply Hc; eauto.
  - apply extract_titled in He. split.
    + intros k e'. rewrite lookup_insert. case_decide.
      * intros [= <-]. exact He.
      * apply Hc.
    + intros e' [= <-]. exact He.
  - split; [exact Hc|]. discriminate.
Qed.

Lemma lookups_titled (requests : list (Api.Provider * string)) :
  forall cache,
    cache_titled cache ->
    cache_titled (lookups cache requests).2
    /\ forall e, Some e ∈ (lookups cache requests).1 -> titled e.
Proof.
  induction requests as [|[provider pokemon_name] requests IH];
    intros cache Hc; simpl.
  - split; [exact Hc|]. intros e H. apply elem_of_nil in H. destruct H.
  - destruct (get_pokemon_data_titled provider cache pokemon_name Hc)
      as [Hc1 Ha].
    destruct (Api.get_pokemon_data provider cache pokemon_name)
      as [answer cache1].
    destruct (IH cache1 Hc1) as [Hc2 Hb].
    destruct (lookups cache1 requests) as [answers cache2]. simpl in *.
    split; [exact Hc2|].
    intros e H. apply elem_of_cons in H as [H|H]; [|auto].
    apply Ha. symmetry. exact H.
Qed.

(** X1: whatever the provider answers, two creatures obtained through
    [get_pokemon_data] from an initially empty cache have the type
    multipliers (1.0, 1.0): the adapter spells the categories with
    [str.title] and the chart has lower-case keys only, so that the
    battle score of each is its weighted stats times 1.0. *)
Theorem provider_creatures_type_neutral
    (requests : list (Api.Provider * string)) (e1 e2 : Api.Entry) :
  Some e1 ∈ (lookups ∅ requests).1 ->
  Some e2 ∈ (lookups ∅ requests).1 ->
  calculate_type_advantage_with_stab
    (types (Api.data e1)) (types (Api.data e2)) = (1%float, 1%float)
  /\ calculate_battle_score (Api.data e1) (Api.data e2)
     = ((calculate_weighted_stats
           (add_stats (base_stats (Api.data e1))
              (calculate_ivs (name (Api.data e1)))) * 1)%float,
        (calculate_weighted_stats
           (add_stats (base_stats (Api.data e2))
              (calculate_ivs (name (Api.data e2)))) * 1)%float).
Proof.
  intros H1 H2.
  assert (Hempty : cache_titled ∅).
  { intros k e H. rewrite lookup_empty in H. discriminate. }
  destruct (lookups_titled requests ∅ Hempty) as [_ Ht].
  destruct (Ht e1 H1) as [raw1 Hr1]. destruct (Ht e2 H2) as [raw2 Hr2].
  assert (Hadv : calculate_type_advantage_with_stab
                   (types (Api.data e1)) (types (Api.data e2))
                 = (1%float, 1%float)).
  { rewrite Hr1, Hr2. apply titled_no_advantage. }
  split; [exact Hadv|].
  unfold calculate_battle_score. rewrite Hadv. reflexivity.
Qed.

Lemma provider_creatures_witness :
  Some (Api.mkEntry pikachu 25 (Some "artwork/25.png"%string)
          0.4%float 6%float)
    ∈ (lookups ∅ [(sample_provider, " Pikachu"%string);
                  (sample_provider, "squirtle"%string)]).1
  /\ calculate_type_advantage_with_stab
       (types pikachu) (types squirtle) = (1%float, 1%float).
Proof.
  assert (H1 : Some (Api.mkEntry pikachu 25 (Some "artwork/25.png"%string)
                       0.4%float 6%float)
               ∈ (lookups ∅ [(sample_provider, " Pikachu"%string);
                             (sample_provider, "squirtle"%string)]).1).
  { vm_compute. left. }
  assert (H2 : Some (Api.mkEntry squirtle 7 (Some "sprites/7.png"%string)
                       0.5%float 9%float)
               ∈ (lookups ∅ [(sample_provider, " Pikachu"%string);
                             (sample_provider, "squirtle"%string)]).1).
  { vm_compute. right. left. }
  split; [exact H1|].
  exact (proj1 (provider_creatures_type_neutral _ _ _ H1 H2)).
Defined.

Lemma lookup_step_facts (cache cache' : gmap string Api.Entry) (key : string)
    (answer : option Api.Entry) :
  lookup_step cache key answer cache' ->
  (forall k e, cache !! k = Some e -> cache' !! k = Some e)
  /\ (forall k, k <> key -> cache' !! k = cache !! k)
  /\ (answer = None -> cache' = cache)
  /\ (forall e, answer = Some e -> cache' !! key = Some e).
Proof.
  intros [e He|e display body Hk He|Hk].
  - repeat split; auto. intros e' [= <-]. exact He.
  - repeat split.
    + intros k e' Hke. rewrite lookup_insert. case_decide; [|exact Hke].
      subst k. congruence.
    + intros k Hne. rewrite lookup_insert_ne by congruence. reflexivity.
    + discriminate.
    + intros e' [= <-]. rewrite lookup_insert_eq. reflexivity.
  - repeat split; auto. discriminate.
Qed.

(** X2: [get_pokemon_data] never replaces or removes a cached entry
    and writes at most the entry of the normalized name; a lookup
    without an answer leaves the cache as it is (failures are not
    cached), one with an answer leaves the answer under that name. *)
Theorem get_pokemon_data_cache (provider : Api.Provider)
    (cache : gmap string Api.Entry) (pokemon_name : string) :
  let key := Api.normalize pokemon_name in
  let r := Api.get_pokemon_data provider cache pokemon_name in
  (forall k e, cache !! k = Some e -> r.2 !! k = Some e)
  /\ (forall k, k <> key -> r.2 !! k = cache !! k)
  /\ (r.1 = None -> r.2 = cache)
  /\ (forall e, r.1 = Some e -> r.2 !! key = Some e).
Proof.
  intros key r. apply lookup_step_facts.
  apply get_pokemon_data_cases.
Qed.

Lemma lookups_keep (requests : list (Api.Provider * string)) :
  forall cache k e,
    cache !! k = Some e -> (lookups cache requests).2 !! k = Some e.
Proof.
  induction requests as [|[provider pokemon_name] requests IH];
    intros cache k e Hk; simpl; [exact Hk|].
  pose proof (proj1 (lookup_step_facts _ _ _ _
                       (get_pokemon_data_cases provider cache pokemon_name))
                k e Hk) as H1.
  destruct (Api.get_pokemon_data provider cache pokemon_name)
    as [answer cache1]. simpl in H1.
  specialize (IH cache1 k e H1).
  destruct (lookups cache1 requests) as [answers cache2]. exact IH.
Qed.

(** X3: once [get_pokemon_data] has answered for a name, every later
    call for a name with the same normalized form returns the same
    entry, whatever was looked up in between and whatever the provider
    answers by then. *)
Theorem answered_once_answered_the_same
    (provider provider' : Api.Provider) (cache : gmap string Api.Entry)
    (pokemon_name pokemon_name' : string) (e : Api.Entry)
    (requests : list (Api.Provider * string)) :
  (Api.get_pokemon_data provider cache pokemon_name).1 = Some e ->
  Api.normalize pokemon_name' = Api.normalize pokemon_name ->
  (Api.get_pokemon_data provider'
     (lookups (Api.get_pokemon_data provider cache pokemon_name).2
        requests).2
     pokemon_name').1 = Some e.
Proof.
  intros Ha Hn.
  pose proof (lookup_step_facts _ _ _ _
                (get_pokemon_data_cases provider cache pokemon_name))
    as (_ & _ & _ & Hset).
  specialize (Hset e Ha).
  apply (lookups_keep requests) in Hset.
  unfold Api.get_pokemon_data at 1. rewrite Hn, Hset. reflexivity.
Qed.

Lemma answered_once_witness :
  (Api.get_pokemon_data unreachable_provider
     (lookups (Api.get_pokemon_data sample_provider ∅ "Pikachu").2
        [(sample_provider, "squirtle"%string)]).2
     "  PIKACHU ").1
  = Some (Api.mkEntry pikachu 25 (Some "artwork/25.png"%string)
            0.4%float 6%float).
Proof.
  apply (answered_once_answered_the_same sample_provider unreachable_provider
           ∅ "Pikachu" "  PIKACHU "); reflexivity.
Defined.

(** * The evolution stage *)

Lemma Chain_forall_ind (P : Api.Chain -> Prop) :
  (forall s l, Forall P l -> P (Api.mkChain s l)) -> forall c, P c.
Proof.
  intros H. fix IH 1. intros [s l]. apply H.
  revert l. fix IHl 1. intros [|c l]; constructor; [apply IH|apply IHl].
Qed.

Section FindStage.
Variable target : string.

Lemma find_evolution_stage_sound (chain : Api.Chain) :
  forall stage r : Z,
    Api.find_evolution_stage chain target stage = Some r ->
    exists n, occurs target chain n /\ r = (stage + Z.of_nat n)%Z.
Proof.
  induction chain as [s l IH] using Chain_forall_ind. intros stage r. simpl.
  destruct (String.eqb s target) eqn:Hs.
  - apply String.eqb_eq in Hs. subst s. intros [= <-].
    exists 0%nat. split; [constructor|lia].
  - assert (G : forall l0,
               Forall (fun c => c ∈ l) l0 ->
               (fix evolutions (l : list Api.Chain) : option Z :=
                  match l with
                  | [] => None
                  | evolution :: l' =>
                      match Api.find_evolution_stage evolution target
                              (stage + 1) with
                      | Some result =>
                          if (result =? 0)%Z then evolutions l'
                          else Some result
                      | None => evolutions l'
                      end
                  end) l0 = Some r ->
               exists n, occurs target (Api.mkChain s l) n
                         /\ r = (stage + Z.of_nat n)%Z).
    { induction l0 as [|c l0 IHl]; [discriminate|].
      intros Hsub. apply Forall_cons in Hsub as [Hc Hsub].
      destruct (Api.find_evolution_stage c target (stage + 1)) as [x|] eqn:Hx;
        [|apply IHl; exact Hsub].
      destruct (x =? 0)%Z; [apply IHl; exact Hsub|].
      intros [= <-].
      rewrite Forall_forall in IH.
      destruct (IH c Hc _ _ Hx) as (n & Hn & ->).
      exists (S n). split; [|lia].
      econstructor; [exact Hc|exact Hn]. }
    apply G. apply Forall_forall. auto.
Qed.

Lemma find_evolution_stage_complete (chain : Api.Chain) :
  forall (n : nat) (stage : Z),
    (1 <= stage)%Z ->
    occurs target chain n ->
    exists r, Api.find_evolution_stage chain target stage = Some r.
Proof.
  induction chain as [s l IH] using Chain_forall_ind.
  intros n stage Hstage Hocc. simpl.
  destruct (String.eqb s target) eqn:Hs; [eauto|].
  inversion Hocc as [|s' l' c n' Hin Hc]; subst.
  { rewrite String.eqb_refl in Hs. discriminate. }
  clear Hocc. induction l as [|c0 l IHl].
  { apply elem_of_nil in Hin. destruct Hin. }
  apply Forall_cons in IH as [IH0 IH].
  destruct (Api.find_evolution_stage c0 target (stage + 1)) as [x|] eqn:Hc0.
  - destruct (x =? 0)%Z eqn:Hx; [|eauto].
    apply Z.eqb_eq in Hx.
    apply find_evolution_stage_sound in Hc0 as (k & _ & ->). lia.
  - apply elem_of_cons in Hin as [<-|Hin].
    + destruct (IH0 n' (stage + 1)%Z ltac:(lia) Hc) as (r & Hr). congruence.
    + apply IHl; assumption.
Qed.

End FindStage.

Lemma get_evolution_stage_cases (provider : Api.Provider)
    (pokemon_name : string) :
  (Api.get_evolution_stage provider pokemon_name = 1%Z
   /\ forall chain, ~ chain_of provider pokemon_name chain)
  \/ exists chain,
       chain_of provider pokemon_name chain
       /\ Api.get_evolution_stage provider pokemon_name
          = match Api.find_evolution_stage chain pokemon_name 1 with
            | Some stage => if (stage =? 0)%Z then 1%Z else stage
            | None => 1%Z
            end.
Proof.
  unfold Api.get_evolution_stage, chain_of, answered.
  destruct (Api.get_species provider pokemon_name) as [resp|] eqn:Hs.
  2: { left. split; [reflexivity|].
       intros chain (a & (r & H & _) & _). discriminate. }
  destruct (Api.status resp =? 200)%Z eqn:Hst.
  2: { left. split; [reflexivity|].
       intros chain (a & (r & [= <-] & H & _) & _).
       rewrite H in Hst. discriminate. }
  apply Z.eqb_eq in Hst.
  destruct (Api.json resp) as [address|] eqn:Hj.
  2: { left. split; [reflexivity|].
       intros chain (a & (r & [= <-] & _ & H) & _). congruence. }
  destruct (Api.get_chain provider address) as [chain_resp|] eqn:Hc.
  2: { left. split; [reflexivity|].
       intros chain (a & (r & [= <-] & _ & H) & (r' & H' & _)).
       congruence. }
  destruct (Api.status chain_resp =? 200)%Z eqn:Hcs.
  2: { left. split; [reflexivity|].
       intros chain (a & (r & [= <-] & _ & H) & (r' & H' & H'' & _)).
       assert (a = address) by congruence. subst a.
       assert (r' = chain_resp) by congruence. subst r'.
       rewrite H'' in Hcs. discriminate. }
  apply Z.eqb_eq in Hcs.
  destruct (Api.json chain_resp) as [chain|] eqn:Hcj.
  2: { left. split; [reflexivity|].
       intros chain (a & (r & [= <-] & _ & H) & (r' & H' & _ & H'')).
       assert (a = address) by congruence. subst a.
       assert (r' = chain_resp) by congruence. subst r'. congruence. }
  right. exists chain. split; [|reflexivity].
  exists address. split; eexists; eauto.
Qed.

(** X4: [get_evolution_stage] returns 1 on every failure: the stage is
    at least 1, and it differs from 1 only if both requests were
    answered with status 200 and a readable body and the name is
    that of a node of the chain, the stage being 1 plus the number of
    evolutions between the root and that node. *)
Theorem evolution_stage_defaults_to_first (provider : Api.Provider)
    (pokemon_name : string) :
  let stage := Api.get_evolution_stage provider pokemon_name in
  (1 <= stage)%Z
  /\ (stage <> 1%Z ->
      exists chain n,
        chain_of provider pokemon_name chain
        /\ occurs pokemon_name chain n
        /\ stage = (1 + Z.of_nat n)%Z).
Proof.
  intros stage. subst stage.
  destruct (get_evolution_stage_cases provider pokemon_name)
    as [[-> _]|(chain & Hc & ->)]; [split; [lia|congruence]|].
  destruct (Api.find_evolution_stage chain pokemon_name 1) as [r|] eqn:Hf;
    [|split; [lia|congruence]].
  apply find_evolution_stage_sound in Hf as (n & Hn & ->).
  destruct (1 + Z.of_nat n =? 0)%Z eqn:Hz; [apply Z.eqb_eq in Hz; lia|].
  split; [lia|]. intros _. exists chain, n. auto.
Qed.

(** X5: when the provider gives the chain and the species is a node of
    it at one depth only, the stage is that depth plus 1: 1 for the
    root, 2 for what the root evolves to, and so on. *)
Theorem evolution_stage_is_depth (provider : Api.Provider)
    (pokemon_name : string) (chain : Api.Chain) (n : nat) :
  chain_of provider pokemon_name chain ->
  occurs pokemon_name chain n ->
  (forall n', occurs pokemon_name chain n' -> n' = n) ->
  Api.get_evolution_stage provider pokemon_name = (1 + Z.of_nat n)%Z.
Proof.
  intros Hc Hocc Huniq.
  destruct (get_evolution_stage_cases provider pokemon_name)
    as [[_ Hno]|(chain' & Hc' & ->)]; [destruct (Hno chain Hc)|].
  assert (chain' = chain) as ->.
  { destruct Hc as (a & (r & Hr & _ & Hj) & (rc & Hrc & _ & Hjc)).
    destruct Hc' as (a' & (r' & Hr' & _ & Hj') & (rc' & Hrc' & _ & Hjc')).
    assert (r' = r) by congruence. subst r'.
    assert (a' = a) by congruence. subst a'.
    assert (rc' = rc) by congruence. subst rc'. congruence. }
  destruct (find_evolution_stage_complete pokemon_name chain n 1
              ltac:(lia) Hocc) as (r & Hr).
  rewrite Hr.
  apply find_evolution_stage_sound in Hr as (k & Hk & ->).
  rewrite (Huniq k Hk).
  destruct (1 + Z.of_nat n =? 0)%Z eqn:Hz; [apply Z.eqb_eq in Hz; lia|].
  reflexivity.
Qed.

Lemma evolution_stage_witness :
  Api.get_evolution_stage sample_provider "ivysaur" = 2%Z.
Proof.
  apply (evolution_stage_is_depth sample_provider "ivysaur" bulbasaur_chain 1).
  - exists "evolution-chain/1"%string. split; eexists; repeat split.
  - apply (occurs_below _ _ _
             (Api.mkChain "ivysaur" [Api.mkChain "venusaur" []])).
    + left.
    + constructor.
  - intros n' H. inversion H as [|s l c k Hin Hk]; subst.
    apply list_elem_of_singleton in Hin. subst c.
    inversion Hk as [|s l c' k' Hin' Hk']; subst; [reflexivity|].
    apply list_elem_of_singleton in Hin'. subst c'.
    inversion Hk' as [|s l c'' k'' Hin'' _]; subst.
    apply elem_of_nil in Hin''. destruct Hin''.
Defined.

(** X6: when the provider does not give the chain of a creature (a
    request raises, is answered with another status than 200, or with
    a body the adapter cannot read), the creature, if not used yet, is
    eligible in a '1st-evolution' duel and not in a '2nd-evolution'
    duel, whatever its real stage. *)
Theorem unknown_stage_counts_as_first (provider : Api.Provider)
    (pokemon_data : PokemonData) (used : gset string) :
  (forall chain, ~ chain_of provider (api_name pokemon_data) chain) ->
  Py.lower (name pokemon_data) ∉ used ->
  validate_pokemon_for_duel
    (Api.get_evolution_stage provider (api_name pokemon_data))
    pokemon_data "1st-evolution" used
  = (true, "Valid"%string)
  /\ validate_pokemon_for_duel
       (Api.get_evolution_stage provider (api_name pokemon_data))
       pokemon_data "2nd-evolution" used
     = (false,
        "Only 2nd evolution Pokemon are allowed in this duel!"%string).
Proof.
  intros Hno Hused.
  destruct (get_evolution_stage_cases provider (api_name pokemon_data))
    as [[-> _]|(chain & Hc & _)]; [|destruct (Hno chain Hc)].
  unfold validate_pokemon_for_duel.
  rewrite bool_decide_eq_false_2 by exact Hused.
  split; reflexivity.
Qed.

Lemma unknown_stage_witness :
  validate_pokemon_for_duel
    (Api.get_evolution_stage unreachable_provider "pikachu")
    pikachu "1st-evolution" ∅
  = (true, "Valid"%string)
  /\ validate_pokemon_for_duel
       (Api.get_evolution_stage unreachable_provider "pikachu")
       pikachu "2nd-evolution" ∅
     = (false,
        "Only 2nd evolution Pokemon are allowed in this duel!"%string).
Proof.
  apply (unknown_stage_counts_as_first unreachable_provider pikachu ∅).
  - intros chain (a & (r & H & _) & _). discriminate.
  - apply not_elem_of_empty.
Defined.

(** * The cache key *)

Lemma ascii_cases (P : ascii -> Prop) :
  (forall b0 b1 b2 b3 b4 b5 b6 b7, P (Ascii b0 b1 b2 b3 b4 b5 b6 b7)) ->
  forall c, P c.
Proof. intros H []. apply H. Qed.

Lemma lower_ascii_facts (c : ascii) :
  Str.is_space (Py.lower_ascii c) = Str.is_space c
  /\ Py.lower_ascii (Py.lower_ascii c) = Py.lower_ascii c
  /\ Py.lower_ascii (if Ascii.eqb c " " then "-"%char else c)
     = (if Ascii.eqb (Py.lower_ascii c) " " then "-"%char
        else Py.lower_ascii c)
  /\ Ascii.eqb (if Ascii.eqb c " " then "-"%char else c) " " = false
  /\ (Str.is_space c = false ->
      Str.is_space (if Ascii.eqb c " " then "-"%char else c) = false).
Proof.
  revert c. apply ascii_cases. intros [] [] [] [] [] [] [] [];
    vm_compute; repeat split; congruence.
Qed.

Lemma lstrip_no_lead (s : string) : no_lead (Str.lstrip s) = true.
Proof.
  induction s as [|c s IH]; simpl; [reflexivity|].
  destruct (Str.is_space c) eqn:Hc; [exact IH|]. simpl. rewrite Hc. reflexivity.
Qed.

Lemma no_lead_lstrip (s : string) : no_lead s = true -> Str.lstrip s = s.
Proof.
  destruct s as [|c s]; simpl; [reflexivity|].
  destruct (Str.is_space c); [discriminate|reflexivity].
Qed.

Lemma rstrip_no_lead (s : string) :
  no_lead s = true -> no_lead (Str.rstrip s) = true.
Proof.
  destruct s as [|c s]; simpl; [reflexivity|]. intros Hc.
  destruct (Str.rstrip s); [|exact Hc].
  destruct (Str.is_space c) eqn:E; [discriminate|].
  simpl. rewrite E. reflexivity.
Qed.

Lemma rstrip_no_trail (s : string) : no_trail (Str.rstrip s) = true.
Proof.
  induction s as [|c s IH]; [reflexivity|].
  cbn [Str.rstrip]. destruct (Str.rstrip s) as [|c' r] eqn:Hr.
  - destruct (Str.is_space c) eqn:Hc; simpl; [reflexivity|].
    rewrite Hc. reflexivity.
  - exact IH.
Qed.

Lemma no_trail_rstrip (s : string) : no_trail s = true -> Str.rstrip s = s.
Proof.
  induction s as [|c s IH]; [reflexivity|].
  destruct s as [|c' s'].
  - simpl. destruct (Str.is_space c); [discriminate|reflexivity].
  - intros H. change (no_trail (String c' s') = true) in H.
    cbn [Str.rstrip]. cbn [Str.rstrip] in IH. rewrite (IH H). reflexivity.
Qed.

Lemma strip_stripped (s : string) :
  no_lead (Str.strip s) = true /\ no_trail (Str.strip s) = true.
Proof.
  unfold Str.strip. split.
  - apply rstrip_no_lead, lstrip_no_lead.
  - apply rstrip_no_trail.
Qed.

Lemma stripped_strip (s : string) :
  no_lead s = true -> no_trail s = true -> Str.strip s = s.
Proof.
  intros H1 H2. unfold Str.strip.
  rewrite (no_lead_lstrip s H1). apply no_trail_rstrip. exact H2.
Qed.

Lemma lstrip_lower (s : string) :
  Str.lstrip (Py.lower s) = Py.lower (Str.lstrip s).
Proof.
  induction s as [|c s IH]; simpl; [reflexivity|].
  rewrite (proj1 (lower_ascii_facts c)).
  destruct (Str.is_space c); [exact IH|reflexivity].
Qed.

Lemma rstrip_lower (s : string) :
  Str.rstrip (Py.lower s) = Py.lower (Str.rstrip s).
Proof.
  induction s as [|c s IH]; [reflexivity|].
  cbn [Py.lower Str.rstrip]. rewrite IH.
  destruct (Str.rstrip s) as [|c' r]; cbn [Py.lower]; [|reflexivity].
  rewrite (proj1 (lower_ascii_facts c)).
  destruct (Str.is_space c); reflexivity.
Qed.

Lemma strip_lower (s : string) :
  Str.strip (Py.lower s) = Py.lower (Str.strip s).
Proof. unfold Str.strip. rewrite lstrip_lower. apply rstrip_lower. Qed.

Lemma lower_lower (s : string) : Py.lower (Py.lower s) = Py.lower s.
Proof.
  induction s as [|c s IH]; simpl; [reflexivity|].
  rewrite IH, (proj1 (proj2 (lower_ascii_facts c))). reflexivity.
Qed.

Lemma lower_replace (s : string) :
  Py.lower (Str.replace " " "-" s) = Str.replace " " "-" (Py.lower s).
Proof.
  induction s as [|c s IH]; simpl; [reflexivity|].
  rewrite IH. f_equal. apply lower_ascii_facts.
Qed.

Lemma replace_no_blank (s : string) :
  Str.contains " " (Str.replace " " "-" s) = false.
Proof.
  induction s as [|c s IH]; simpl; [reflexivity|].
  rewrite IH, orb_false_r. apply lower_ascii_facts.
Qed.

Lemma replace_without_blank (s : string) :
  Str.contains " " s = false -> Str.replace " " "-" s = s.
Proof.
  induction s as [|c s IH]; simpl; [reflexivity|].
  intros H. apply orb_false_iff in H as [Hc Hs].
  rewrite Hc, (IH Hs). reflexivity.
Qed.

Lemma replace_stripped (s : string) :
  no_lead s = true -> no_trail s = true ->
  no_lead (Str.replace " " "-" s) = true
  /\ no_trail (Str.replace " " "-" s) = true.
Proof.
  intros H1 H2. split.
  - destruct s as [|c s]; simpl in *; [reflexivity|].
    apply negb_true_iff. apply lower_ascii_facts.
    apply negb_true_iff. exact H1.
  - clear H1. induction s as [|c s IH]; [reflexivity|].
    destruct s as [|c' s'].
    + simpl in *. apply negb_true_iff. apply lower_ascii_facts.
      apply negb_true_iff. exact H2.
    + change (no_trail (String c' s') = true) in H2.
      specialize (IH H2). cbn [Str.replace] in *. exact IH.
Qed.

(** X7: the key under which [get_pokemon_data] caches a name depends
    on the name only up to case and surrounding blanks, holds no blank,
    and is its own key. *)
Theorem cache_key_normal_form (pokemon_name : string) :
  (forall other, Py.lower other = Py.lower pokemon_name ->
                 Api.normalize other = Api.normalize pokemon_name)
  /\ Api.normalize (Str.strip pokemon_name) = Api.normalize pokemon_name
  /\ Str.contains " " (Api.normalize pokemon_name) = false
  /\ Api.normalize (Api.normalize pokemon_name) = Api.normalize pokemon_name.
Proof.
  unfold Api.normalize.
  destruct (strip_stripped pokemon_name) as [H1 H2].
  repeat split.
  - intros other H. rewrite <- !strip_lower, H. reflexivity.
  - rewrite (stripped_strip _ H1 H2). reflexivity.
  - apply replace_no_blank.
  - destruct (strip_stripped (Py.lower pokemon_name)) as [L1 L2].
    rewrite strip_lower in L1, L2.
    destruct (replace_stripped _ L1 L2) as [R1 R2].
    rewrite (stripped_strip _ R1 R2).
    rewrite lower_replace, lower_lower.
    apply replace_without_blank, replace_no_blank.
Qed.

(** * The history and stats commands *)

Section SortFacts.
Context {A : Type} (key : A -> string) (reverse : bool).

Lemma insert_in_order_perm (x : A) (l : list A) :
  insert_in_order key reverse x l ≡ₚ x :: l.
Proof.
  induction l as [|y l IH]; simpl; [reflexivity|].
  destruct (in_order key reverse x y); [reflexivity|].
  rewrite IH. apply Permutation_swap.
Qed.

Lemma sort_perm (l : list A) : sort key reverse l ≡ₚ l.
Proof.
  induction l as [|x l IH]; simpl; [reflexivity|].
  rewrite insert_in_order_perm, IH. reflexivity.
Qed.

Lemma leb_total (a b : string) : String.leb a b = false -> String.leb b a = true.
Proof.
  unfold String.leb. rewrite (String.compare_antisym a b).
  destruct (String.compare b a); simpl; congruence.
Qed.

Lemma ltb_not_leb (a b : string) :
  String.ltb a b = true -> String.leb b a = false.
Proof.
  unfold String.ltb, String.leb. rewrite (String.compare_antisym a b).
  destruct (String.compare b a); simpl; congruence.
Qed.

Lemma ltb_leb (a b : string) : String.ltb a b = true -> String.leb a b = true.
Proof.
  unfold String.ltb, String.leb. destruct (String.compare a b); congruence.
Qed.

Lemma in_order_total (x y : A) :
  in_order key reverse x y = false -> in_order key reverse y x = true.
Proof. unfold in_order. destruct reverse; apply leb_total. Qed.

Lemma insert_in_order_sorted (x : A) (l : list A) :
  Sorted (fun a b => in_order key reverse a b = true) l ->
  Sorted (fun a b => in_order key reverse a b = true)
    (insert_in_order key reverse x l).
Proof.
  induction l as [|y l IH]; simpl; intros Hs.
  - repeat constructor.
  - destruct (in_order key reverse x y) eqn:Hxy.
    + constructor; [exact Hs|]. constructor. exact Hxy.
    + apply Sorted_inv in Hs as [Hs Hhd].
      constructor; [apply IH; exact Hs|].
      destruct l as [|z l]; simpl.
      * constructor. apply in_order_total. exact Hxy.
      * destruct (in_order key reverse x z).
        -- constructor. apply in_order_total. exact Hxy.
        -- constructor. apply HdRel_inv in Hhd. exact Hhd.
Qed.

Lemma sort_sorted (l : list A) :
  Sorted (fun a b => in_order key reverse a b = true) (sort key reverse l).
Proof.
  induction l as [|x l IH]; simpl; [constructor|].
  apply insert_in_order_sorted. exact IH.
Qed.

Lemma insert_in_order_last (x : A) (l : list A) :
  Forall (fun y => in_order key reverse x y = false) l ->
  insert_in_order key reverse x l = l ++ [x].
Proof.
  induction l as [|y l IH]; simpl; [reflexivity|].
  intros H. apply Forall_cons in H as [Hy H].
  rewrite Hy, (IH H). reflexivity.
Qed.

End SortFacts.

Lemma sort_reverse_ascending {A : Type} (key : A -> string) (l : list A) :
  StronglySorted (fun a b => String.ltb (key a) (key b) = true) l ->
  sort key true l = rev l.
Proof.
  induction l as [|x l IH]; simpl; [reflexivity|].
  intros H. apply StronglySorted_inv in H as [Hl Hx].
  rewrite (IH Hl). apply insert_in_order_last.
  apply Forall_rev. eapply Forall_impl; [exact Hx|].
  intros y Hy. simpl. apply ltb_not_leb. exact Hy.
Qed.

Lemma sort_ascending {A : Type} (key : A -> string) (l : list A) :
  Sorted (fun a b => String.leb (key a) (key b) = true) l ->
  sort key false l = l.
Proof.
  induction l as [|x l IH]; simpl; [reflexivity|].
  intros H. apply Sorted_inv in H as [Hl Hx].
  rewrite (IH Hl). destruct l as [|y l]; simpl; [reflexivity|].
  apply HdRel_inv in Hx. unfold in_order. rewrite Hx. reflexivity.
Qed.

Lemma duel_history_store (m : DuelManager) (ctx_author : Member.t)
    (player : option Member.t) :
  let who := default ctx_author player in
  let m' := (Main.duel_history m ctx_author player).1 in
  active_duels m' = active_duels m
  /\ completed_duels m' = completed_duels m
  /\ get_player_history m' (Member.id who)
     = sort record_timestamp true (get_player_history m (Member.id who))
  /\ forall k, k <> pretty (Member.id who) ->
               duel_history m' !! k = duel_history m !! k.
Proof.
  intros who m'. subst m'. unfold Main.duel_history, get_player_history.
  fold who.
  destruct (duel_history m !! pretty (Member.id who)) as [[|r l]|] eqn:Hl;
    simpl; rewrite ?Hl; try (repeat split; reflexivity).
  repeat split.
  - rewrite lookup_insert_eq. reflexivity.
  - intros k Hk. rewrite lookup_insert_ne by congruence. reflexivity.
Qed.

(** X8: the [history] command reorders the stored history of the player
    it shows: the list of the store holds the same records afterwards,
    sorted newest first; nothing else of the manager changes. *)
Theorem history_command_reorders_store (m : DuelManager)
    (ctx_author : Member.t) (player : option Member.t) :
  let who := default ctx_author player in
  let m' := (Main.duel_history m ctx_author player).1 in
  get_player_history m' (Member.id who)
    ≡ₚ get_player_history m (Member.id who)
  /\ Sorted not_older (get_player_history m' (Member.id who))
  /\ active_duels m' = active_duels m
  /\ completed_duels m' = completed_duels m
  /\ forall k, k <> pretty (Member.id who) ->
               duel_history m' !! k = duel_history m !! k.
Proof.
  intros who m'.
  destruct (duel_history_store m ctx_author player) as (Ha & Hc & Hh & Ho).
  fold who in Hh, Ho. fold m' in Ha, Hc, Hh, Ho.
  rewrite Hh. split; [apply sort_perm|].
  split; [apply (sort_sorted record_timestamp true)|]. auto.
Qed.

(** X9: after a [history] command on a full history in chronological
    order, the next finished duel of the player evicts the newest of
    the old records, not the oldest: the stored list is then the old
    records from the second newest down to the oldest, and the new
    record. *)
Theorem history_view_then_newest_evicted (m : DuelManager)
    (viewer player : Member.t) (l : list DuelRecord) (duel : Duel)
    (timestamp : string) (winner_id : Z) (losers : list Member.t)
    (m' : DuelManager) :
  duel_history m !! pretty (Member.id player) = Some l ->
  length l = 20%nat ->
  StronglySorted older l ->
  NoDup (player_ids (players duel)) ->
  player ∈ players duel ->
  add_to_history (Main.duel_history m viewer (Some player)).1 duel timestamp
    winner_id losers = Some m' ->
  exists record,
    duel_record duel timestamp winner_id losers = Some record
    /\ get_player_history m' (Member.id player)
       = drop 1 (rev l) ++ [record].
Proof.
  intros Hl Hlen Hs Hnd Hp Hadd.
  destruct (add_to_history_player _ _ _ _ _ _ Hnd Hadd) as (record & Hr & Hh).
  exists record. split; [exact Hr|].
  rewrite (Hh player Hp).
  destruct (duel_history_store m viewer (Some player)) as (_ & _ & Hv & _).
  simpl in Hv. rewrite Hv. unfold get_player_history at 1. rewrite Hl. simpl.
  rewrite (sort_reverse_ascending record_timestamp l Hs).
  apply last_20_full. rewrite length_rev. exact Hlen.
Qed.

Lemma twenty_days_chronological : StronglySorted older twenty_days.
Proof.
  unfold twenty_days. cbn [map].
  repeat (apply SSorted_cons;
          [|repeat (apply Forall_cons; split; [vm_compute; reflexivity|]);
            apply Forall_nil; exact I]).
  apply SSorted_nil.
Qed.

Lemma history_view_witness :
  exists record,
    duel_record fresh_pair_duel "2024-01-21T10:00:00" 1 [misty] = Some record
    /\ get_player_history
         (default chronological_store
            (add_to_history
               (Main.duel_history chronological_store misty (Some ash)).1
               fresh_pair_duel "2024-01-21T10:00:00" 1 [misty]))
         1
       = drop 1 (rev twenty_days) ++ [record].
Proof.
  apply (history_view_then_newest_evicted chronological_store misty ash
           twenty_days fresh_pair_duel "2024-01-21T10:00:00" 1 [misty]).
  - reflexivity.
  - reflexivity.
  - exact twenty_days_chronological.
  - apply (bool_decide_unpack _). vm_compute. exact I.
  - left.
  - vm_compute. reflexivity.
Defined.

Lemma sort_append_least {A : Type} (key : A -> string) (x : A) (l : list A) :
  Forall (fun y => String.ltb (key x) (key y) = true) l ->
  sort key false (l ++ [x]) = x :: sort key false l.
Proof.
  induction l as [|a l IH]; simpl; [reflexivity|].
  intros H. apply Forall_cons in H as [Ha H].
  rewrite (IH H). cbn [insert_in_order]. unfold in_order.
  rewrite (ltb_not_leb _ _ Ha). reflexivity.
Qed.

Lemma sort_reversed {A : Type} (key : A -> string) (l : list A) :
  StronglySorted (fun a b => String.ltb (key a) (key b) = true) l ->
  sort key false (rev l) = l.
Proof.
  induction l as [|x l IH]; simpl; [reflexivity|].
  intros H. apply StronglySorted_inv in H as [Hl Hx].
  rewrite sort_append_least by (apply Forall_rev; exact Hx).
  rewrite (IH Hl). reflexivity.
Qed.

Lemma player_stats_store (m : DuelManager) (ctx_author : Member.t)
    (player : option Member.t) :
  let who := default ctx_author player in
  let m' := (Main.player_stats m ctx_author player).1 in
  active_duels m' = active_duels m
  /\ completed_duels m' = completed_duels m
  /\ get_player_history m' (Member.id who)
     = sort record_timestamp false (get_player_history m (Member.id who))
  /\ forall k, k <> pretty (Member.id who) ->
               duel_history m' !! k = duel_history m !! k.
Proof.
  intros who m'. subst m'. unfold Main.player_stats, get_player_history.
  fold who.
  destruct (duel_history m !! pretty (Member.id who)) as [[|r l]|] eqn:Hl;
    simpl; rewrite ?Hl; try (repeat split; reflexivity).
  destruct (Main.tally who _) as [[[w lo] s] c]. simpl.
  repeat split.
  - rewrite lookup_insert_eq. reflexivity.
  - intros k Hk. rewrite lookup_insert_ne by congruence. reflexivity.
Qed.

(** X10: on a history in chronological order with distinct
    timestamps, the [stats] command undoes the reordering of the
    [history] command: after both, the stored list is the original
    one. *)
Theorem stats_command_restores_order (m : DuelManager)
    (viewer player : Member.t) (l : list DuelRecord) :
  duel_history m !! pretty (Member.id player) = Some l ->
  StronglySorted older l ->
  get_player_history
    (Main.player_stats (Main.duel_history m viewer (Some player)).1
       viewer (Some player)).1
    (Member.id player)
  = l.
Proof.
  intros Hl Hs.
  destruct (player_stats_store (Main.duel_history m viewer (Some player)).1
              viewer (Some player)) as (_ & _ & Hp & _).
  destruct (duel_history_store m viewer (Some player)) as (_ & _ & Hv & _).
  simpl in Hp, Hv. rewrite Hp, Hv. unfold get_player_history.
  rewrite Hl. simpl.
  rewrite (sort_reverse_ascending record_timestamp l Hs).
  apply sort_reversed. exact Hs.
Qed.

Lemma stats_command_witness :
  get_player_history
    (Main.player_stats (Main.duel_history chronological_store misty (Some ash)).1
       misty (Some ash)).1
    1
  = twenty_days.
Proof.
  apply (stats_command_restores_order chronological_store misty ash
           twenty_days).
  - reflexivity.
  - exact twenty_days_chronological.
Defined.

Lemma tally_invariant (player : Member.t) (history : list DuelRecord) :
  forall wins losses win_streak current_streak : Z,
    (0 <= current_streak <= win_streak)%Z ->
    (win_streak <= wins)%Z ->
    (0 <= losses)%Z ->
    (win_streak = 0 <-> wins = 0)%Z ->
    let '(wins', losses', win_streak', current_streak') :=
      fold_left
        (fun '(wins, losses, win_streak, current_streak) duel =>
           let player_won :=
             String.eqb (pretty (Member.id player))
               (pretty (record_winner duel)) in
           if player_won then
             (wins + 1, losses, Z.max win_streak (current_streak + 1),
              current_streak + 1)%Z
           else (wins, losses + 1, win_streak, 0)%Z)
        history (wins, losses, win_streak, current_streak) in
    (0 <= current_streak' <= win_streak')%Z
    /\ (win_streak' <= wins')%Z
    /\ (win_streak' = 0 <-> wins' = 0)%Z
    /\ (wins' + losses' = wins + losses + Z.of_nat (length history))%Z
    /\ (wins' = wins
                + Z.of_nat
                    (length
                       (filter
                          (fun duel => record_winner duel = Member.id player)
                          history)))%Z.
Proof.
  induction history as [|duel history IH]; intros w lo s c Hc Hs Hlo Hz.
  - simpl. repeat split; try lia; apply Hz; assumption.
  - cbn [fold_left]. rewrite filter_cons.
    destruct (String.eqb (pretty (Member.id player))
                (pretty (record_winner duel))) eqn:He.
    + apply String.eqb_eq, (inj pretty) in He.
      rewrite decide_True by congruence.
      specialize (IH (w + 1) lo (Z.max s (c + 1)) (c + 1))%Z.
      destruct (fold_left _ history _) as [[[w' lo'] s'] c'].
      destruct IH as (H1 & H2 & H3 & H4 & H5); try lia.
      repeat split; try lia; try (apply H3; assumption).
      all: simpl length; lia.
    + apply String.eqb_neq in He.
      rewrite decide_False by (intros E; apply He; rewrite E; reflexivity).
      specialize (IH w (lo + 1) s 0)%Z.
      destruct (fold_left _ history _) as [[[w' lo'] s'] c'].
      destruct IH as (H1 & H2 & H3 & H4 & H5); try lia.
      repeat split; try lia; try (apply H3; assumption).
      all: simpl length; lia.
Qed.

(** X11: the numbers of the [stats] command: there is no reply exactly
    when the player has no stored record; otherwise every stored record
    counts as a win or a loss, the wins are the records whose winner is
    the player, and the win streak lies between 0 and the wins, being 0
    only without a win. *)
Theorem player_stats_numbers (m : DuelManager) (ctx_author : Member.t)
    (player : option Member.t) :
  let who := default ctx_author player in
  let history := get_player_history m (Member.id who) in
  match (Main.player_stats m ctx_author player).2 with
  | None => history = []
  | Some stats =>
      history <> []
      /\ Main.total_duels stats = Z.of_nat (length history)
      /\ (Main.stats_wins stats + Main.stats_losses stats
          = Main.total_duels stats)%Z
      /\ Main.stats_wins stats
         = Z.of_nat
             (length
                (filter (fun duel => record_winner duel = Member.id who)
                   history))
      /\ (0 <= Main.win_streak stats <= Main.stats_wins stats)%Z
      /\ (Main.win_streak stats = 0 <-> Main.stats_wins stats = 0)%Z
  end.
Proof.
  intros who history. subst history.
  unfold Main.player_stats, get_player_history. fold who.
  destruct (duel_history m !! pretty (Member.id who)) as [[|r l]|] eqn:Hl;
    simpl; try reflexivity.
  pose proof (tally_invariant who (sort record_timestamp false (r :: l))
                0 0 0 0 ltac:(lia) ltac:(lia) ltac:(lia) ltac:(tauto)) as H.
  unfold Main.tally.
  destruct (fold_left _ (sort record_timestamp false (r :: l)) _)
    as [[[w lo] s] c].
  destruct H as (H1 & H2 & H3 & H4 & H5). simpl.
  pose proof (sort_perm record_timestamp false (r :: l)) as Hp.
  rewrite (Permutation_length Hp) in H4.
  assert (Hf : length (filter (fun duel => record_winner duel = Member.id who)
                         (sort record_timestamp false (r :: l)))
               = length (filter (fun duel => record_winner duel = Member.id who)
                           (r :: l))).
  { apply Permutation_length. rewrite Hp. reflexivity. }
  rewrite Hf in H5.
  simpl length in *.
  split; [discriminate|].
  split; [lia|]. split; [lia|]. split; [lia|]. split; [lia|]. exact H3.
Qed.

Lemma omap_length_le {A B : Type} (f : A -> option B) (l : list A) :
  (length (omap f l) <= length l)%nat.
Proof.
  induction l as [|x l IH]; cbn [omap list_omap]; [reflexivity|].
  destruct (f x); simpl; lia.
Qed.

Lemma history_embed_fields (player : Member.t) (recent : list DuelRecord) :
  forall embed : Main.Embed,
    let embed' :=
      fold_left
        (fun embed duel =>
           match Main.history_field player duel with
           | None => embed
           | Some field =>
               if Main.player_won field
               then Main.mkEmbed (Main.fields embed ++ [field])
                      (Main.wins embed + 1) (Main.losses embed)
               else Main.mkEmbed (Main.fields embed ++ [field])
                      (Main.wins embed) (Main.losses embed + 1)
           end)
        recent embed in
    Main.fields embed'
    = Main.fields embed ++ omap (Main.history_field player) recent
    /\ Main.wins embed'
       = (Main.wins embed
          + Z.of_nat (length (filter (fun f => Main.player_won f = true)
                                (omap (Main.history_field player) recent))))%Z
    /\ Main.losses embed'
       = (Main.losses embed
          + Z.of_nat (length (filter (fun f => Main.player_won f = false)
                                (omap (Main.history_field player) recent))))%Z.
Proof.
  induction recent as [|duel recent IH]; intros embed; cbv zeta;
    cbn [fold_left omap list_omap].
  - simpl. rewrite app_nil_r. repeat split; lia.
  - destruct (Main.history_field player duel) as [field|];
      [|exact (IH embed)].
    rewrite !filter_cons.
    destruct (Main.player_won field) eqn:Hw.
    + pose proof (IH (Main.mkEmbed (Main.fields embed ++ [field])
                        (Main.wins embed + 1) (Main.losses embed)))
        as (H1 & H2 & H3).
      rewrite H1, H2, H3. cbn [Main.fields Main.wins Main.losses].
      rewrite decide_True by reflexivity.
      rewrite decide_False by discriminate.
      rewrite <- app_assoc. simpl length. repeat split; lia.
    + pose proof (IH (Main.mkEmbed (Main.fields embed ++ [field])
                        (Main.wins embed) (Main.losses embed + 1)))
        as (H1 & H2 & H3).
      rewrite H1, H2, H3. cbn [Main.fields Main.wins Main.losses].
      rewrite decide_False by discriminate.
      rewrite decide_True by reflexivity.
      rewrite <- app_assoc. simpl length. repeat split; lia.
Qed.

Lemma history_embed_spec (player : Member.t) (recent : list DuelRecord) :
  let fs := omap (Main.history_field player) recent in
  Main.fields (Main.history_embed player recent) = fs
  /\ Main.wins (Main.history_embed player recent)
     = Z.of_nat (length (filter (fun f => Main.player_won f = true) fs))
  /\ Main.losses (Main.history_embed player recent)
     = Z.of_nat (length (filter (fun f => Main.player_won f = false) fs)).
Proof.
  pose proof (history_embed_fields player recent (Main.mkEmbed [] 0 0))
    as (H1 & H2 & H3).
  cbn [Main.fields Main.wins Main.losses] in H1, H2, H3.
  rewrite app_nil_l in H1. rewrite Z.add_0_l in H2, H3.
  unfold Main.history_embed. auto.
Qed.

(** X12: the reply of the [history] command: none exactly when the
    player has no stored record; otherwise the fields are those of the
    five records with the latest timestamps (a triple record the
    player is not part of gives none), at most five, and the footer
    counts the fields won and the fields lost. *)
Theorem history_reply_five_newest (m : DuelManager) (ctx_author : Member.t)
    (player : option Member.t) :
  let who := default ctx_author player in
  let history := get_player_history m (Member.id who) in
  match (Main.duel_history m ctx_author player).2 with
  | None => history = []
  | Some embed =>
      history <> []
      /\ Main.fields embed
         = omap (Main.history_field who)
             (take 5 (sort record_timestamp true history))
      /\ (length (Main.fields embed) <= 5)%nat
      /\ Main.wins embed
         = Z.of_nat (length (filter (fun f => Main.player_won f = true)
                               (Main.fields embed)))
      /\ Main.losses embed
         = Z.of_nat (length (filter (fun f => Main.player_won f = false)
                               (Main.fields embed)))
      /\ (Main.wins embed + Main.losses embed
          = Z.of_nat (length (Main.fields embed)))%Z
  end.
Proof.
  intros who history. subst history.
  unfold Main.duel_history, get_player_history. fold who.
  destruct (duel_history m !! pretty (Member.id who)) as [[|r l]|] eqn:Hl;
    [reflexivity| |reflexivity].
  cbn [snd default].
  destruct (history_embed_spec who
              (take 5 (sort record_timestamp true (r :: l))))
    as (H1 & H2 & H3).
  set (fs := omap (Main.history_field who)
               (take 5 (sort record_timestamp true (r :: l)))) in *.
  assert (Hlen : (length fs <= 5)%nat).
  { subst fs. etransitivity; [apply omap_length_le|].
    rewrite length_take. lia. }
  assert (Hsum : (length (filter (fun f => Main.player_won f = true) fs)
                  + length (filter (fun f => Main.player_won f = false) fs)
                  = length fs)%nat).
  { clear. induction fs as [|f fs IH]; [reflexivity|].
    rewrite !filter_cons. destruct (Main.player_won f).
    - rewrite decide_True by reflexivity.
      rewrite decide_False by discriminate. simpl. lia.
    - rewrite decide_False by discriminate.
      rewrite decide_True by reflexivity. simpl. lia. }
  rewrite H1, H2, H3.
  split; [discriminate|].
  split; [reflexivity|]. split; [exact Hlen|].
  split; [lia|]. split; [lia|]. lia.
Qed.

(** * Invariants of the duels, lifted to the reachable managers *)

Section DuelInvariant.
(** [P] for a running duel between two events, [P'] once a selection
    is taken in and before the round is looked at, [Q] for a finished
    duel. *)
Variables (P P' Q : Duel -> Prop).

Hypothesis P_weaken :
  forall d,
    selection_phase d = true -> waiting_for_selection d = true ->
    P d -> P' d.

Hypothesis P_init :
  forall a os r c t, accepted a os r t -> P (Duel_init (a :: os) r c t).
Hypothesis P_reaction :
  forall d reaction d',
    wf_duel d -> P d -> reaction_outcome d reaction = Some d' -> P d'.
Hypothesis P_store :
  forall d message pokemon_data,
    wf_duel d -> P d ->
    selection_phase d = true -> waiting_for_selection d = true ->
    Py.get (pokemon d) (Member.id (author message)) = Some None ->
    get_pokemon_data message = Some pokemon_data ->
    (validate_pokemon_for_duel (get_evolution_stage message) pokemon_data
       (duel_type d) (used_pokemon d)).1 = true ->
    P' (store_selection d (author message) pokemon_data).
Hypothesis P_after :
  forall d o,
    wf_duel d -> threshold_reached d = false -> P' d ->
    selection_phase d = true -> waiting_for_selection d = true ->
    after_selection_outcome d = Some o ->
    match o with
    | Continue d' => P d'
    | Finish d' => Q (set_duel_ended d' true)
    | _ => True
    end.
Hypothesis P_reject :
  forall d a o,
    wf_duel d -> threshold_reached d = false -> P d ->
    selection_phase d = true -> waiting_for_selection d = true ->
    existsb (Member.eqb a) (players d) = true ->
    reject_selection_outcome d a = Some o ->
    match o with
    | Continue d' => P d'
    | Finish d' => Q (set_duel_ended d' true)
    | _ => True
    end.

Lemma message_outcome_keeps (d : Duel) (message : Message) (o : Outcome) :
  wf_duel d -> threshold_reached d = false -> P d ->
  message_outcome d message = Some o ->
  match o with
  | Continue d' => P d'
  | Finish d' => Q (set_duel_ended d' true)
  | _ => True
  end.
Proof using All.
  intros Hwf Hthr HP. unfold message_outcome.
  destruct (duel_ended d); [intros [= <-]; exact I|].
  destruct (negb (existsb (Member.eqb (author message)) (players d))) eqn:Ha;
    [intros [= <-]; exact I|].
  apply negb_false_iff in Ha.
  destruct (selection_phase d) eqn:Hsel; [|intros [= <-]; exact I].
  destruct (waiting_for_selection d) eqn:Hwait; [|intros [= <-]; exact I].
  simpl.
  destruct (in_cooldown d (time_time message)); [intros [= <-]; exact I|].
  destruct (Py.get (pokemon d) (Member.id (author message))) as [slot|] eqn:Hg;
    [|discriminate].
  simpl. destruct slot as [chosen|].
  { apply P_after; auto. }
  destruct (get_pokemon_data message) as [pokemon_data|] eqn:Hpd;
    [|intros [= <-]; exact I].
  destruct (validate_pokemon_for_duel (get_evolution_stage message)
              pokemon_data (duel_type d) (used_pokemon d)) as [ok msg] eqn:Hv.
  destruct ok; simpl.
  - destruct (store_selection_evolves d (author message) pokemon_data None Hg)
      as (Hev & _ & Hs).
    apply P_after.
    + eapply wf_evolves; eauto.
    + rewrite <- Hthr. apply threshold_reached_ext; [apply Hev|exact Hs].
    + eapply P_store; eauto. rewrite Hv. reflexivity.
    + exact Hsel.
    + exact Hwait.
  - apply P_reject; assumption.
Qed.

Lemma start_duel_accepted (m : DuelManager) (a : Member.t)
    (os : list Member.t) (r : Z) (t : string) (c : Z) (m' : DuelManager) :
  start_duel m a os r t c = Some m' ->
  m' = m
  \/ (accepted a os r t
      /\ m' = mkDuelManager
                (<[c := Duel_init (a :: os) r c t]> (active_duels m))
                (completed_duels m) (duel_history m)).
Proof.
  unfold start_duel.
  destruct (bool_decide (r ∈ [3; 5; 7]%Z)) eqn:Hr; simpl;
    [|intros [= <-]; auto].
  destruct (bool_decide (t ∈ _)) eqn:Ht; simpl; [|intros [= <-]; auto].
  destruct (existsb (Member.eqb a) os) eqn:Ha; [intros [= <-]; auto|].
  destruct (existsb Member.bot os) eqn:Hb; [intros [= <-]; auto|].
  destruct (bool_decide (NoDup (player_ids os))) eqn:Hnd; simpl;
    [|intros [= <-]; auto].
  destruct os as [|o os]; [discriminate|].
  intros [= <-]. right. split; [|reflexivity].
  apply bool_decide_eq_true_1 in Hr, Ht, Hnd.
  constructor; auto; discriminate.
Qed.

Lemma step_keeps (m : DuelManager) (e : Event) (m' : DuelManager) :
  manager_inv m -> holds_in P Q m -> step m e = Some m' -> holds_in P Q m'.
Proof using All.
  intros Hinv [Ha Hc]. unfold step.
  destruct (creates_new_channel m e); [|discriminate].
  assert (Hstart : forall a os r t c,
             start_duel m a os r t c = Some m' -> holds_in P Q m').
  { intros a os r t c H.
    apply start_duel_accepted in H as [->|[Hacc ->]]; [split; assumption|].
    split; simpl; [|exact Hc].
    intros c' d'. rewrite lookup_insert. case_decide.
    - intros [= <-]. apply P_init. exact Hacc.
    - apply Ha. }
  destruct e as [a o r t c|a o1 o2 r t c|reaction|message]; simpl.
  - apply Hstart.
  - apply Hstart.
  - intros [= <-]. unfold on_reaction_add.
    destruct (Member.bot (user reaction)); [split; assumption|].
    rewrite handle_reaction_as_outcome.
    destruct (active_duels m !! reaction_channel reaction) as [d|] eqn:Hd;
      [|split; assumption].
    destruct (reaction_outcome d reaction) as [d'|] eqn:Ho;
      [|split; assumption].
    split; simpl; [|exact Hc].
    intros c' x. rewrite lookup_insert. case_decide; [|apply Ha].
    intros [= <-].
    destruct (inv_active _ Hinv _ _ Hd) as (Hwf & _ & _).
    eapply P_reaction; eauto.
  - unfold on_message.
    destruct (Member.bot (author message)); [intros [= <-]; split; assumption|].
    rewrite handle_message_as_outcome.
    destruct (active_duels m !! message_channel message) as [d|] eqn:Hd;
      [|intros [= <-]; split; assumption].
    destruct (inv_active _ Hinv _ _ Hd) as (Hwf & _ & Hthr).
    destruct (message_outcome d message) as [o|] eqn:Ho; [|discriminate].
    pose proof (message_outcome_keeps d message o Hwf Hthr (Ha _ _ Hd) Ho)
      as Hk.
    simpl. destruct o as [| |d'|d']; simpl.
    + intros [= <-]. split; assumption.
    + intros [= <-]. split; assumption.
    + intros [= <-]. split; simpl; [|exact Hc].
      intros c' x. rewrite lookup_insert. case_decide; [|apply Ha].
      intros [= <-]. exact Hk.
    + destruct (end_duel m d' (message_channel message) (datetime_now message))
        as [m1|] eqn:E; [|discriminate].
      simpl. intros [= <-].
      apply end_duel_frame in E as [Ea Ec]. split; rewrite ?Ea, ?Ec.
      * intros c' x. rewrite lookup_delete. case_decide; [discriminate|].
        apply Ha.
      * intros c' x. rewrite lookup_insert. case_decide; [|apply Hc].
        intros [= <-]. exact Hk.
Qed.

Lemma reachable_holds (m : DuelManager) : reachable m -> holds_in P Q m.
Proof using All.
  intros (loaded & events & Hrun).
  assert (G : forall evs m0,
             manager_inv m0 -> holds_in P Q m0 ->
             run m0 evs = Some m -> holds_in P Q m).
  { clear loaded events Hrun.
    induction evs as [|e evs IH]; intros m0 Hinv Hh; simpl.
    - intros [= <-]. exact Hh.
    - destruct (step m0 e) as [m1|] eqn:E; [|discriminate]. simpl.
      apply IH.
      + eapply step_inv; eauto.
      + eapply step_keeps; eauto. }
  apply (G events (DuelManager_init loaded)).
  - apply init_inv.
  - split; simpl; intros c d H; rewrite lookup_empty in H; discriminate.
  - exact Hrun.
Qed.

End DuelInvariant.

(** * What a reaction leaves alone *)

Lemma reaction_outcome_frame (d d' : Duel) (reaction : Reaction) :
  reaction_outcome d reaction = Some d' ->
  scores d' = scores d /\ pokemon d' = pokemon d
  /\ used_pokemon d' = used_pokemon d
  /\ current_round d' = current_round d
  /\ round_history d' = round_history d
  /\ duel_ended d' = duel_ended d
  /\ (selection_phase d' = selection_phase d
      /\ waiting_for_selection d' = waiting_for_selection d
      /\ countdown_active d' = countdown_active d
      \/ countdown_active d = false
         /\ selection_phase d' = true /\ waiting_for_selection d' = true
         /\ countdown_active d' = true).
Proof.
  unfold reaction_outcome.
  destruct (negb (String.eqb (emoji reaction) CHECK_MARK)); [discriminate|].
  destruct (duel_ended d) eqn:He; [discriminate|].
  destruct (negb (bool_decide _)); [discriminate|].
  intros [= <-]. cbn [ready_status set_ready_status countdown_active].
  destruct (forallb _ _); simpl.
  - destruct (countdown_active d) eqn:Hc; simpl; rewrite ?He, ?Hc.
    + repeat (split; [reflexivity|]). left. auto.
    + repeat (split; [reflexivity|]). right. auto.
  - rewrite ?He. repeat (split; [reflexivity|]). left. auto.
Qed.

Lemma all_selected_no_pokemon (d : Duel) :
  wf_duel d -> pokemon d = no_pokemon d -> all_selected d = false.
Proof.
  intros Hwf Hp. unfold all_selected. rewrite Hp. unfold no_pokemon.
  rewrite values_from_keys by apply Hwf.
  destruct (wf_count _ Hwf) as [H|H];
    destruct (players d) as [|p ps]; try discriminate H; reflexivity.
Qed.

Lemma resolve_round_flags (d d' : Duel) :
  resolve_round d = Some d' ->
  selection_phase d' = false /\ waiting_for_selection d' = false
  /\ countdown_active d' = countdown_active d
  /\ used_pokemon d' = used_pokemon d
  /\ ready_status d' = ready_status d.
Proof.
  unfold resolve_round.
  destruct (battle_scores d) as [bs|]; [|discriminate]. simpl.
  destruct (round_names d) as [names|]; [|discriminate]. simpl.
  destruct (round_score_fields d bs) as [fields|]; [|discriminate]. simpl.
  destruct (round_outcome d bs) as [[w s]|]; [|discriminate]. simpl.
  intros [= <-]. simpl. auto.
Qed.

(** * The selection phase *)

Lemma phase_inv_reachable (m : DuelManager) :
  reachable m ->
  holds_in phase_inv (fun _ => True) m.
Proof.
  apply (reachable_holds phase_inv
           (fun d => selection_phase d = true
                     /\ waiting_for_selection d = true
                     /\ countdown_active d = true)
           (fun _ => True)).
  - (* a selection made before *)
    intros d Hs Hw [Hout Hin]. destruct (Hin Hs) as (_ & Hc & _). auto.
  - (* a duel as registered *)
    intros a os r c t _. split; simpl; [reflexivity|discriminate].
  - (* a reaction *)
    intros d reaction d' Hwf [Hout Hin] Ho.
    pose proof (reaction_outcome_evolves _ _ _ Hwf Ho) as (Hev & _).
    apply reaction_outcome_frame in Ho
      as (_ & Hp & _ & _ & _ & _ & [(Hs & Hw & Hc)|(Hc & Hs & Hw & Hc')]).
    + split.
      * intros H. rewrite Hp. unfold no_pokemon. rewrite (ev_players _ _ Hev).
        apply Hout. congruence.
      * intros H. rewrite Hw, Hc. unfold all_selected. rewrite Hp.
        apply Hin. congruence.
    + split; [congruence|]. intros _.
      split; [exact Hw|]. split; [exact Hc'|].
      unfold all_selected. rewrite Hp. apply all_selected_no_pokemon; [exact Hwf|].
      apply Hout. destruct (selection_phase d) eqn:E; [|reflexivity].
      destruct (Hin eq_refl) as (_ & Hcd & _). congruence.
  - (* a selection taken in *)
    intros d message pd Hwf [Hout Hin] Hs Hw _ _ _.
    destruct (Hin Hs) as (_ & Hc & _). simpl. auto.
  - (* the round looked at *)
    intros d o Hwf Hthr (Hs & Hw & Hc) _ _. unfold after_selection_outcome.
    destruct (all_selected d) eqn:Hall.
    + destruct (resolve_round d) as [d1|] eqn:Hr; [|discriminate]. simpl.
      destruct (threshold_reached d1); intros [= <-]; [exact I|].
      apply resolve_round_flags in Hr as (Hs1 & _).
      split; simpl; [intros _; reflexivity|]. congruence.
    + intros [= <-]. split; [congruence|]. auto.
  - (* a rejected selection *)
    intros d a o Hwf Hthr _ _ _ _. unfold reject_selection_outcome.
    destruct (award_opponents a (players d) (scores d)) as [s|];
      [|discriminate].
    simpl. destruct (threshold_reached (set_scores d s)); intros [= <-];
      [exact I|].
    split; simpl; [intros _; reflexivity|discriminate].
Qed.

(** X13: the selection phase of a running duel, with the handlers
    run one at a time (no event is delivered while a handler is
    suspended).  In every manager reached that way, a running duel
    outside its selection phase stores no selection, and one inside it
    waits for selections, has its countdown flag set and has a
    participant who has not selected yet: a round is resolved by the
    very message that completes the selections. *)
Theorem selection_phase_discipline (m : DuelManager) (c : Z) (d : Duel) :
  reachable m ->
  active_duels m !! c = Some d ->
  (selection_phase d = false -> pokemon d = no_pokemon d)
  /\ (selection_phase d = true ->
      waiting_for_selection d = true /\ countdown_active d = true
      /\ all_selected d = false).
Proof.
  intros Hr Hd. exact (proj1 (phase_inv_reachable m Hr) c d Hd).
Qed.

Lemma selection_phase_witness :
  (selection_phase (duel_after ash_selects 100) = false ->
   pokemon (duel_after ash_selects 100)
   = no_pokemon (duel_after ash_selects 100))
  /\ (selection_phase (duel_after ash_selects 100) = true ->
      waiting_for_selection (duel_after ash_selects 100) = true
      /\ countdown_active (duel_after ash_selects 100) = true
      /\ all_selected (duel_after ash_selects 100) = false).
Proof.
  apply (selection_phase_discipline (manager_after ash_selects) 100).
  - exists ∅, ash_selects. vm_compute. reflexivity.
  - vm_compute. reflexivity.
Defined.

Lemma participant_by_id (a : Member.t) (ps : list Member.t) :
  Member.id a ∈ player_ids ps -> existsb (Member.eqb a) ps = true.
Proof.
  unfold player_ids. intros H.
  apply list_elem_of_fmap in H as (p & Hid & Hp).
  apply existsb_exists. exists p. split.
  - apply list_elem_of_In. exact Hp.
  - unfold Member.eqb. apply Z.eqb_eq. exact Hid.
Qed.

Lemma store_same (m : DuelManager) (ch : Z) (d : Duel) :
  active_duels m !! ch = Some d -> store m ch d = m.
Proof.
  intros H. unfold store. rewrite (insert_id _ _ _ H). destruct m. reflexivity.
Qed.

(** X14: a selection cannot be changed, with the handlers run one at
    a time.  In every manager reached that way, a message of a
    participant whose selection for the round is stored, handled with
    no other handler in between, leaves the manager exactly as it is:
    no second lookup, no penalty, no replacement. *)
Theorem selection_cannot_be_changed (m : DuelManager) (message : Message)
    (d : Duel) (chosen : PokemonData) :
  reachable m ->
  active_duels m !! message_channel message = Some d ->
  Py.get (pokemon d) (Member.id (author message)) = Some (Some chosen) ->
  handle_message m message = Some (m, true).
Proof.
  intros Hr Hd Hslot.
  pose proof (reachable_inv m Hr) as Hinv.
  destruct (inv_active _ Hinv _ _ Hd) as (Hwf & Hend & _).
  destruct (proj1 (phase_inv_reachable m Hr) _ _ Hd) as [Hout Hin].
  rewrite handle_message_as_outcome, Hd. unfold message_outcome.
  rewrite Hend.
  rewrite participant_by_id.
  2: { rewrite <- (wf_pokemon _ Hwf). eapply get_Some_in_keys; eauto. }
  simpl negb. cbv iota.
  destruct (selection_phase d) eqn:Hs.
  - destruct (Hin eq_refl) as (Hw & _ & Hall). rewrite Hw. simpl andb.
    cbv iota.
    destruct (in_cooldown d (time_time message)); [reflexivity|].
    rewrite Hslot. simpl. unfold after_selection_outcome. rewrite Hall.
    simpl. rewrite (store_same _ _ _ Hd). reflexivity.
  - exfalso.
    assert (Hk : Member.id (author message) ∈ player_ids (players d)).
    { rewrite <- (wf_pokemon _ Hwf). eapply get_Some_in_keys; eauto. }
    rewrite (Hout eq_refl) in Hslot. unfold no_pokemon in Hslot.
    rewrite (get_from_keys _ _ _ (wf_distinct _ Hwf) Hk) in Hslot.
    discriminate.
Qed.

Lemma selection_cannot_be_changed_witness :
  handle_message (manager_after ash_selects) ash_again
  = Some (manager_after ash_selects, true).
Proof.
  apply (selection_cannot_be_changed (manager_after ash_selects) ash_again
           (duel_after ash_selects 100) pikachu).
  - exists ∅, ash_selects. vm_compute. reflexivity.
  - vm_compute. reflexivity.
  - vm_compute. reflexivity.
Defined.

(** * What is fixed when a duel is registered *)

Lemma static_reachable (S : Duel -> Prop) :
  (forall a os r c t, accepted a os r t -> S (Duel_init (a :: os) r c t)) ->
  (forall d d', duel_evolves d d' -> S d -> S d') ->
  (forall d, S d -> S (set_duel_ended d true)) ->
  forall m, reachable m -> holds_in S S m.
Proof.
  intros Hinit Hev Hend.
  apply (reachable_holds S S S).
  - auto.
  - exact Hinit.
  - intros d reaction d' Hwf HS Ho.
    apply (Hev d d'); [|exact HS].
    apply (reaction_outcome_evolves _ _ _ Hwf Ho).
  - intros d message pd Hwf HS _ _ Hg _ _.
    apply (Hev d); [|exact HS].
    apply (store_selection_evolves d (author message) pd None Hg).
  - intros d o Hwf _ HS _ _ Ho.
    pose proof (after_selection_outcome_evolves d o Hwf Ho) as H.
    destruct o as [| |d'|d']; try exact I.
    + apply (Hev d d'); [apply H|exact HS].
    + apply Hend. apply (Hev d d'); [apply H|exact HS].
  - intros d a o Hwf _ HS _ _ _ Ho.
    pose proof (reject_selection_outcome_evolves d a o Hwf Ho) as H.
    destruct o as [| |d'|d']; try exact I.
    + apply (Hev d d'); [apply H|exact HS].
    + apply Hend. apply (Hev d d'); [apply H|exact HS].
Qed.

(** X15: what [start_duel] checks holds for ever.  Every duel a
    reachable manager holds, running or finished, has 3, 5 or 7
    rounds, one of the four duel types, two or three participants with
    distinct ids, and no bot among the challenged participants (the
    participants after the first). *)
Theorem registered_duels_as_accepted (m : DuelManager) (c : Z) (d : Duel) :
  reachable m ->
  registered m c = Some d ->
  rounds d ∈ [3; 5; 7]%Z
  /\ duel_type d ∈ ["1st-evolution"; "2nd-evolution"; "normal";
                    "legendaries"]%string
  /\ (length (players d) = 2%nat \/ length (players d) = 3%nat)
  /\ NoDup (player_ids (players d))
  /\ existsb Member.bot (tail (players d)) = false.
Proof.
  intros Hr Hd.
  pose proof (reachable_inv m Hr) as Hinv.
  assert (Hs : holds_in
                 (fun d => duel_type d ∈ ["1st-evolution"; "2nd-evolution";
                                          "normal"; "legendaries"]%string
                           /\ existsb Member.bot (tail (players d)) = false)
                 (fun d => duel_type d ∈ ["1st-evolution"; "2nd-evolution";
                                          "normal"; "legendaries"]%string
                           /\ existsb Member.bot (tail (players d)) = false)
                 m).
  { apply static_reachable; [| | |exact Hr].
    - intros a os r c' t Hacc. simpl. split; apply Hacc.
    - intros d0 d' Hev [H1 H2].
      rewrite (ev_duel_type _ _ Hev), (ev_players _ _ Hev). auto.
    - intros d0 H. exact H. }
  assert (Hwf : wf_duel d /\ (duel_type d ∈ ["1st-evolution"; "2nd-evolution";
                                            "normal"; "legendaries"]%string
                              /\ existsb Member.bot (tail (players d)) = false)).
  { destruct (registered_cases m c d Hinv Hd) as [[Ha _]|(_ & Hc & _)].
    - split; [apply (inv_active _ Hinv _ _ Ha)|apply (proj1 Hs _ _ Ha)].
    - split; [apply (inv_completed _ Hinv _ _ Hc)|apply (proj2 Hs _ _ Hc)]. }
  destruct Hwf as (Hwf & Ht & Hb).
  split; [apply Hwf|]. split; [exact Ht|]. split; [apply Hwf|].
  split; [apply Hwf|exact Hb].
Qed.

Lemma registered_duels_witness :
  rounds (duel_after sample_match 100) ∈ [3; 5; 7]%Z
  /\ duel_type (duel_after sample_match 100)
       ∈ ["1st-evolution"; "2nd-evolution"; "normal"; "legendaries"]%string
  /\ (length (players (duel_after sample_match 100)) = 2%nat
      \/ length (players (duel_after sample_match 100)) = 3%nat)
  /\ NoDup (player_ids (players (duel_after sample_match 100)))
  /\ existsb Member.bot (tail (players (duel_after sample_match 100))) = false.
Proof.
  apply (registered_duels_as_accepted (manager_after sample_match) 100).
  - exists ∅, sample_match. vm_compute. reflexivity.
  - vm_compute. reflexivity.
Defined.

(** * The round counter *)

Lemma round_counter_reachable (m : DuelManager) :
  reachable m ->
  holds_in
    (fun d => current_round d = Z.of_nat (length (round_history d)))
    (fun d => current_round d = Z.of_nat (length (round_history d))) m.
Proof.
  apply (reachable_holds
           (fun d => current_round d = Z.of_nat (length (round_history d)))
           (fun d => current_round d = Z.of_nat (length (round_history d)))
           (fun d => current_round d = Z.of_nat (length (round_history d)))).
  - auto.
  - intros. reflexivity.
  - intros d reaction d' _ H Ho.
    apply reaction_outcome_frame in Ho as (_ & _ & _ & Hc & Hh & _).
    congruence.
  - intros d message pd _ H _ _ _ _ _. exact H.
  - intros d o _ _ H _ _. unfold after_selection_outcome.
    destruct (all_selected d); [|intros [= <-]; exact H].
    destruct (resolve_round d) as [d1|] eqn:Hr; [|discriminate]. simpl.
    apply resolve_round_evolves in Hr as (_ & _ & _ & Hc & rd & Hh).
    assert (H1 : current_round d1 = Z.of_nat (length (round_history d1))).
    { rewrite Hc, Hh, H, length_app. simpl. lia. }
    destruct (threshold_reached d1); intros [= <-]; exact H1.
  - intros d a o _ _ H _ _ _. unfold reject_selection_outcome.
    destruct (award_opponents a (players d) (scores d)) as [s|];
      [|discriminate].
    simpl. destruct (threshold_reached (set_scores d s)); intros [= <-];
      exact H.
Qed.

(** With the handlers run one at a time, the round counter of every
    duel, running or finished, is the number of entries of its round
    history between two events: a round abandoned after a rejected
    selection counts in neither.  Inside the handler that resolves a
    round the entry is appended seconds before the counter moves. *)
Theorem round_counter_is_history_length (m : DuelManager) (c : Z) (d : Duel) :
  reachable m ->
  registered m c = Some d ->
  current_round d = Z.of_nat (length (round_history d)).
Proof.
  intros Hr Hd.
  pose proof (round_counter_reachable m Hr) as [Ha Hc].
  destruct (registered_cases m c d (reachable_inv m Hr) Hd)
    as [[H _]|(_ & H & _)]; eauto.
Qed.

Lemma round_counter_witness :
  current_round (duel_after sample_match 100)
  = Z.of_nat (length (round_history (duel_after sample_match 100))).
Proof.
  apply (round_counter_is_history_length (manager_after sample_match) 100).
  - exists ∅, sample_match. vm_compute. reflexivity.
  - vm_compute. reflexivity.
Defined.

(** * The scores *)

Lemma one_point_each_refl (s : Py.dict Z) : one_point_each s s.
Proof.
  split; [|auto]. induction s as [|[k v] s IH]; constructor; auto.
  simpl. split; [reflexivity|lia].
Qed.

Lemma round_outcome_scores (d : Duel) (bs : list float) (w : string)
    (s : Py.dict Z) :
  round_outcome d bs = Some (w, s) ->
  s = scores d
  \/ exists i p, players d !! i = Some p
                 /\ Py.incr (scores d) (Member.id p) = Some s.
Proof.
  assert (Hpoint : forall i,
             point_to d i = Some (w, s) ->
             exists i p, players d !! i = Some p
                         /\ Py.incr (scores d) (Member.id p) = Some s).
  { intros i. unfold point_to.
    destruct (players d !! i) as [p|] eqn:Hp; [|discriminate]. simpl.
    destruct (Py.incr (scores d) (Member.id p)) as [s'|] eqn:Hi;
      [|discriminate].
    simpl. intros [= _ <-]. eauto. }
  unfold round_outcome. destruct (is_triple_duel d).
  - destruct bs as [|first rest]; [discriminate|].
    destruct (max_indices (first :: rest) (Py.max_float first rest))
      as [|i [|j l]].
    + intros [= _ <-]. auto.
    + intros H. right. eauto.
    + intros [= _ <-]. auto.
  - destruct (bs !! 0%nat) as [x|]; [|discriminate]. simpl.
    destruct (bs !! 1%nat) as [y|]; [|discriminate]. simpl.
    destruct (Py.gt x y); [intros H; right; eauto|].
    destruct (Py.gt y x); [intros H; right; eauto|].
    intros [= _ <-]. auto.
Qed.

Lemma resolve_round_scores (d d' : Duel) :
  resolve_round d = Some d' ->
  exists bs w, round_outcome d bs = Some (w, scores d').
Proof.
  unfold resolve_round.
  destruct (battle_scores d) as [bs|]; [|discriminate]. simpl.
  destruct (round_names d) as [names|]; [|discriminate]. simpl.
  destruct (round_score_fields d bs) as [fields|]; [|discriminate]. simpl.
  destruct (round_outcome d bs) as [[w s]|] eqn:Ho; [|discriminate]. simpl.
  intros [= <-]. simpl. eauto.
Qed.

Lemma incr_one_point (s s' : Py.dict Z) (k : Z) :
  NoDup (Py.keys s) -> Py.incr s k = Some s' -> one_point_each s s'.
Proof.
  unfold Py.incr. destruct (Py.get s k) as [v|] eqn:Hg; [|discriminate].
  intros Hnd [= <-]. split.
  - clear Hnd. revert v Hg. induction s as [|[k' v'] s IH]; intros v Hg;
      simpl in *; [discriminate|].
    destruct (Z.eqb k' k).
    + injection Hg as ->. constructor; [simpl; split; [reflexivity|lia]|].
      apply one_point_each_refl.
    + constructor; [simpl; split; [reflexivity|lia]|]. apply IH. exact Hg.
  - intros k1 v1 k2 v2 ->. simpl in *.
    apply NoDup_cons in Hnd as [Hne _].
    destruct (Z.eqb k1 k) eqn:E1.
    + injection Hg as ->. auto.
    + destruct (Z.eqb k2 k) eqn:E2; [|discriminate].
      injection Hg as ->. auto.
Qed.

Lemma resolve_round_one_point (d d' : Duel) :
  wf_duel d -> resolve_round d = Some d' ->
  one_point_each (scores d) (scores d').
Proof.
  intros Hwf Hr. apply resolve_round_scores in Hr as (bs & w & Ho).
  apply round_outcome_scores in Ho as [->|(i & p & _ & Hi)].
  - apply one_point_each_refl.
  - eapply incr_one_point; [|exact Hi].
    rewrite (wf_scores _ Hwf). apply Hwf.
Qed.

Lemma award_opponents_one_point (d : Duel) (a : Member.t) (s : Py.dict Z) :
  wf_duel d ->
  existsb (Member.eqb a) (players d) = true ->
  award_opponents a (players d) (scores d) = Some s ->
  one_point_each (scores d) s.
Proof.
  intros Hwf Ha Hs.
  destruct (author_is_participant _ _ Ha) as (q & Hq & Hid). clear Ha.
  destruct (wf_shape d Hwf)
    as [p1 p2 s1 s2 k1 k2 r1 r2 H12 Hp _ Hsc _ _
       |p1 p2 p3 s1 s2 s3 k1 k2 k3 r1 r2 r3 H12 H13 H23 Hp _ Hsc _ _];
    rewrite Hp, Hsc in *; revert Hs;
    in_list Hq; cbn [award_opponents]; unfold Member.eqb; rewrite ?Hid;
    award_eval; intros [= <-]; (split;
      [repeat constructor; simpl; lia
      |intros ? ? ? ? E; try discriminate E;
       injection E as <- <- <- <-; auto]).
Qed.

Lemma scores_below (d : Duel) :
  threshold_reached d = false ->
  Forall (fun v => (v < needed_wins d)%Z) (Py.values (scores d)).
Proof.
  unfold threshold_reached. intros H. apply Forall_forall. intros v Hv.
  destruct (Z.ltb_spec v (needed_wins d)) as [|Hge]; [assumption|].
  assert (existsb (fun score => (needed_wins d <=? score)%Z)
            (Py.values (scores d)) = true); [|congruence].
  apply existsb_exists. exists v. split; [apply list_elem_of_In; exact Hv|].
  apply Z.leb_le. exact Hge.
Qed.

Lemma scores_reached (d : Duel) :
  threshold_reached d = true ->
  exists v, v ∈ Py.values (scores d) /\ (needed_wins d <= v)%Z.
Proof.
  unfold threshold_reached. intros H.
  apply existsb_exists in H as (v & Hv & Hle).
  exists v. split; [apply list_elem_of_In; exact Hv|].
  apply Z.leb_le. exact Hle.
Qed.

Lemma one_point_values (s s' : Py.dict Z) (lo hi : Z) :
  one_point_each s s' ->
  Forall (fun v => (lo <= v < hi)%Z) (Py.values s) ->
  Forall (fun v => (lo <= v <= hi)%Z) (Py.values s').
Proof.
  intros [H _]. unfold Py.values.
  induction H as [|[k v] [k' v'] s s' Hxy H IH]; simpl; intros Hs;
    [constructor|].
  apply Forall_cons in Hs as [Hv Hs]. simpl in *.
  constructor; [lia|apply IH; exact Hs].
Qed.

(** The step of the scores at the end of a duel. *)
Lemma finish_scores (d d' : Duel) :
  wf_duel d -> threshold_reached d = false ->
  scores_within d (needed_wins d) ->
  rounds d' = rounds d -> is_triple_duel d' = is_triple_duel d ->
  one_point_each (scores d) (scores d') ->
  threshold_reached d' = true ->
  scores_within d' (needed_wins d')
  /\ (is_triple_duel d' = false -> decided d').
Proof.
  intros Hwf Hthr Hw Hr Ht Hone Hthr'.
  assert (Hn : needed_wins d' = needed_wins d).
  { unfold needed_wins. rewrite Hr. reflexivity. }
  assert (Hlt : Forall (fun v => (0 <= v < needed_wins d)%Z)
                  (Py.values (scores d))).
  { pose proof (scores_below d Hthr) as Hb. unfold scores_within in Hw.
    rewrite Forall_forall in *. intros v Hv.
    specialize (Hw v Hv). specialize (Hb v Hv). lia. }
  split.
  - unfold scores_within. rewrite Hn.
    eapply one_point_values; eauto.
  - intros Htri. rewrite Ht in Htri.
    destruct (wf_shape d Hwf)
      as [p1 p2 s1 s2 k1 k2 r1 r2 H12 Hp _ Hsc _ _
         |p1 p2 p3 s1 s2 s3 k1 k2 k3 r1 r2 r3 _ _ _ _ Ht' _ _ _];
      [|congruence].
    rewrite Hsc in Hlt. simpl in Hlt.
    apply Forall_cons in Hlt as [Hv1 Hlt].
    apply Forall_cons in Hlt as [Hv2 _].
    apply scores_reached in Hthr' as (v & Hv & Hle). rewrite Hn in Hle.
    destruct Hone as [_ Hone].
    destruct (Hone _ _ _ _ Hsc) as [E|[E|E]]; rewrite E in Hv;
      rewrite ?Hsc in Hv; simpl in Hv; in_list Hv; try lia.
    + exists (Member.id p1), (s1 + 1)%Z, (Member.id p2), s2.
      split; [exact E|]. rewrite Hn. left. lia.
    + exists (Member.id p1), s1, (Member.id p2), (s2 + 1)%Z.
      split; [exact E|]. rewrite Hn. right. lia.
Qed.

Lemma accepted_all_distinct (a : Member.t) (os : list Member.t) (r : Z)
    (t : string) :
  accepted a os r t -> NoDup (player_ids (a :: os)).
Proof.
  intros H.
  change (player_ids (a :: os)) with (Member.id a :: player_ids os).
  apply NoDup_cons. split; [|apply H].
  intros Hin. pose proof (accepted_not_self _ _ _ _ H) as Hself.
  rewrite (participant_by_id a os Hin) in Hself. discriminate.
Qed.

Lemma scores_reachable (m : DuelManager) :
  reachable m ->
  holds_in
    (fun d => scores_within d (needed_wins d))
    (fun d => scores_within d (needed_wins d)
              /\ (is_triple_duel d = false -> decided d)) m.
Proof.
  apply (reachable_holds
           (fun d => scores_within d (needed_wins d))
           (fun d => scores_within d (needed_wins d))
           (fun d => scores_within d (needed_wins d)
                     /\ (is_triple_duel d = false -> decided d))).
  - auto.
  - intros a os r c t Hacc. unfold scores_within. simpl.
    rewrite values_from_keys by (eapply accepted_all_distinct; eauto).
    apply Forall_forall. intros v Hv.
    apply list_elem_of_fmap in Hv as (k & -> & _).
    pose proof (accepted_rounds _ _ _ _ Hacc) as Hr.
    unfold needed_wins. simpl. in_list Hr; vm_compute; split; discriminate.
  - intros d reaction d' Hwf H Ho.
    pose proof (reaction_outcome_evolves _ _ _ Hwf Ho) as (Hev & _ & Hs & _).
    unfold scores_within, needed_wins in *.
    rewrite Hs, (ev_rounds _ _ Hev). exact H.
  - intros d message pd _ H _ _ _ _ _. exact H.
  - intros d o Hwf Hthr H _ _. unfold after_selection_outcome.
    destruct (all_selected d); [|intros [= <-]; exact H].
    destruct (resolve_round d) as [d1|] eqn:Hr; [|discriminate]. simpl.
    pose proof (resolve_round_one_point d d1 Hwf Hr) as Hone.
    apply resolve_round_evolves in Hr as (Hev & _).
    destruct (threshold_reached d1) eqn:Hthr1; intros [= <-].
    + apply (finish_scores d (set_duel_ended d1 true)); auto;
        simpl; apply Hev.
    + unfold scores_within. simpl.
      replace (needed_wins _) with (needed_wins d)
        by (unfold needed_wins; simpl; rewrite (ev_rounds _ _ Hev);
            reflexivity).
      eapply one_point_values; [exact Hone|].
      pose proof (scores_below d Hthr) as Hb. unfold scores_within in H.
      rewrite Forall_forall in *. intros v Hv.
      specialize (H v Hv). specialize (Hb v Hv). lia.
  - intros d a o Hwf Hthr H _ _ Ha. unfold reject_selection_outcome.
    destruct (award_opponents a (players d) (scores d)) as [s|] eqn:Hs;
      [|discriminate].
    pose proof (award_opponents_one_point d a s Hwf Ha Hs) as Hone.
    simpl. destruct (threshold_reached (set_scores d s)) eqn:Hthr1;
      intros [= <-].
    + apply (finish_scores d (set_duel_ended (set_scores d s) true)); auto.
    + unfold scores_within. simpl.
      change (needed_wins _) with (needed_wins d).
      eapply one_point_values; [exact Hone|].
      pose proof (scores_below d Hthr) as Hb. unfold scores_within in H.
      rewrite Forall_forall in *. intros v Hv.
      specialize (H v Hv). specialize (Hb v Hv). lia.
Qed.

Lemma get_in_values {V : Type} (d : Py.dict V) (k : Z) (v : V) :
  Py.get d k = Some v -> v ∈ Py.values d.
Proof.
  induction d as [|[k' v'] d IH]; simpl; [discriminate|].
  destruct (Z.eqb k' k); [intros [= ->]; left|].
  intros H. right. apply IH. exact H.
Qed.

(** X17: with the handlers run one at a time, no score is negative
    or above the points needed to win, [rounds // 2 + 1], and while
    the duel runs every score is below that number.  A handler begun
    during the showdown breaks both ([C3_scored_after_threshold]). *)
Theorem scores_stay_within_threshold (m : DuelManager) (c : Z) (d : Duel)
    (p : Member.t) :
  reachable m ->
  registered m c = Some d ->
  p ∈ players d ->
  exists v, score_of d p = Some v
            /\ (0 <= v <= needed_wins d)%Z
            /\ (duel_ended d = false -> (v < needed_wins d)%Z).
Proof.
  intros Hr Hd Hp.
  pose proof (reachable_inv m Hr) as Hinv.
  pose proof (scores_reachable m Hr) as [Ha Hc].
  assert (Hk : forall d0, wf_duel d0 -> players d0 = players d ->
                          exists v, score_of d0 p = Some v).
  { intros d0 Hwf Hpl. unfold score_of.
    apply is_Some_alt. destruct (get_is_Some (scores d0) (Member.id p)) as [v Hv].
    - rewrite (wf_scores _ Hwf), Hpl. unfold player_ids.
      apply list_elem_of_fmap. eauto.
    - rewrite Hv. exact I. }
  destruct (registered_cases m c d Hinv Hd) as [[H He]|(_ & H & He)].
  - destruct (inv_active _ Hinv _ _ H) as (Hwf & _ & Hthr).
    destruct (Hk d Hwf eq_refl) as [v Hv]. exists v. split; [exact Hv|].
    pose proof (Ha _ _ H) as Hw. unfold scores_within in Hw.
    pose proof (scores_below d Hthr) as Hb.
    rewrite Forall_forall in Hw, Hb.
    apply get_in_values in Hv.
    specialize (Hw v Hv). specialize (Hb v Hv). split; [lia|]. intros _. lia.
  - destruct (inv_completed _ Hinv _ _ H) as (Hwf & _ & _).
    destruct (Hk d Hwf eq_refl) as [v Hv]. exists v. split; [exact Hv|].
    destruct (Hc _ _ H) as [Hw _]. unfold scores_within in Hw.
    rewrite Forall_forall in Hw. apply get_in_values in Hv.
    split; [apply Hw; exact Hv|]. congruence.
Qed.

Lemma scores_within_witness :
  exists v, score_of (duel_after sample_match 100) misty = Some v
            /\ (0 <= v <= needed_wins (duel_after sample_match 100))%Z
            /\ (duel_ended (duel_after sample_match 100) = false ->
                (v < needed_wins (duel_after sample_match 100))%Z).
Proof.
  apply (scores_stay_within_threshold (manager_after sample_match) 100).
  - exists ∅, sample_match. vm_compute. reflexivity.
  - vm_compute. reflexivity.
  - vm_compute. right. left.
Defined.

(** X18: with the handlers run one at a time, a duel of two never
    ends tied.  In every manager reached that way, a finished duel of
    two participants has one participant with exactly the points needed
    to win and the other with fewer.  A handler begun during the
    showdown ends it at 2 to 2 ([C3_scored_after_threshold]). *)
Theorem two_way_duel_never_ends_tied (m : DuelManager) (c : Z) (d : Duel) :
  reachable m ->
  completed_duels m !! c = Some d ->
  is_triple_duel d = false ->
  exists winner loser v,
    players d ≡ₚ [winner; loser]
    /\ score_of d winner = Some (needed_wins d)
    /\ score_of d loser = Some v
    /\ (0 <= v < needed_wins d)%Z.
Proof.
  intros Hr Hd Ht.
  pose proof (reachable_inv m Hr) as Hinv.
  destruct (inv_completed _ Hinv _ _ Hd) as (Hwf & _ & _).
  destruct (proj2 (scores_reachable m Hr) _ _ Hd) as [Hw Hdec].
  destruct (Hdec Ht) as (k1 & v1 & k2 & v2 & Hs & Hcase).
  destruct (wf_shape d Hwf)
    as [p1 p2 s1 s2 q1 q2 r1 r2 H12 Hp _ Hsc _ _
       |p1 p2 p3 s1 s2 s3 q1 q2 q3 r1 r2 r3 _ _ _ _ Ht' _ _ _];
    [|congruence].
  rewrite Hsc in Hs. injection Hs as <- <- <- <-.
  unfold scores_within in Hw. rewrite Hsc in Hw. simpl in Hw.
  apply Forall_cons in Hw as [Hv1 Hw]. apply Forall_cons in Hw as [Hv2 _].
  unfold score_of. rewrite Hp, Hsc.
  destruct Hcase as [[E Hlt]|[E Hlt]].
  - exists p1, p2, s2. split; [reflexivity|]. simpl. ids_eqb.
    rewrite E. repeat split; auto; lia.
  - exists p2, p1, s1. split; [apply Permutation_swap|]. simpl. ids_eqb.
    rewrite E. repeat split; auto; lia.
Qed.

Lemma two_way_witness :
  exists winner loser v,
    players (duel_after sample_match 100) ≡ₚ [winner; loser]
    /\ score_of (duel_after sample_match 100) winner
       = Some (needed_wins (duel_after sample_match 100))
    /\ score_of (duel_after sample_match 100) loser = Some v
    /\ (0 <= v < needed_wins (duel_after sample_match 100))%Z.
Proof.
  apply (two_way_duel_never_ends_tied (manager_after sample_match) 100).
  - exists ∅, sample_match. vm_compute. reflexivity.
  - vm_compute. reflexivity.
  - vm_compute. reflexivity.
Defined.

(** * Every creature once in a match *)

Lemma validate_not_used (stage : Z) (pokemon_data : PokemonData)
    (duel_type : string) (used : gset string) :
  (validate_pokemon_for_duel stage pokemon_data duel_type used).1 = true ->
  Py.lower (name pokemon_data) ∉ used.
Proof.
  unfold validate_pokemon_for_duel.
  destruct (bool_decide (Py.lower (name pokemon_data) ∈ used)) eqn:H;
    [discriminate|].
  intros _. apply bool_decide_eq_false_1 in H. exact H.
Qed.

Lemma selected_names_set (pk : Py.dict (option PokemonData)) (k : Z)
    (pokemon_data : PokemonData) :
  Py.get pk k = Some None ->
  omap (fun kv : Z * option PokemonData =>
          (fun pokemon_data => Py.lower (name pokemon_data)) <$> kv.2)
    (Py.set pk k (Some pokemon_data))
  ≡ₚ Py.lower (name pokemon_data)
     :: omap (fun kv : Z * option PokemonData =>
                (fun pokemon_data => Py.lower (name pokemon_data)) <$> kv.2)
          pk.
Proof.
  induction pk as [|[k' slot] pk IH]; simpl; [discriminate|].
  destruct (Z.eqb k' k).
  - intros [= ->]. cbn [omap list_omap fmap option_fmap option_map snd].
    reflexivity.
  - intros H. cbn [omap list_omap snd]. destruct slot as [x|]; simpl.
    + rewrite (IH H). apply Permutation_swap.
    + apply IH. exact H.
Qed.

Lemma selected_names_none (ks : list Z) :
  NoDup ks ->
  omap (fun kv : Z * option PokemonData =>
          (fun pokemon_data => Py.lower (name pokemon_data)) <$> kv.2)
    (Py.from_keys ks None) = [].
Proof.
  intros Hnd. rewrite from_keys_spec by exact Hnd.
  clear Hnd. induction ks as [|k ks IH]; simpl; [reflexivity|exact IH].
Qed.

Lemma resolve_round_names (d d' : Duel) :
  resolve_round d = Some d' ->
  exists names round_data,
    round_names d = Some names
    /\ round_history d' = round_history d ++ [round_data]
    /\ round_pokemon round_data = names
    /\ pokemon d' = pokemon d
    /\ used_pokemon d' = used_pokemon d
    /\ players d' = players d.
Proof.
  unfold resolve_round.
  destruct (battle_scores d) as [bs|]; [|discriminate]. simpl.
  destruct (round_names d) as [names|]; [|discriminate]. simpl.
  destruct (round_score_fields d bs) as [fields|]; [|discriminate]. simpl.
  destruct (round_outcome d bs) as [[w s]|]; [|discriminate]. simpl.
  intros [= <-]. simpl. eexists _, _. repeat split; reflexivity.
Qed.

Lemma round_names_selected (d : Duel) (names : list string) :
  wf_duel d ->
  round_names d = Some names ->
  map Py.lower names = selected_names d.
Proof.
  intros Hwf. unfold round_names, selected_names, pokemon_at.
  destruct (wf_shape d Hwf)
    as [p1 p2 s1 s2 k1 k2 r1 r2 H12 Hp Ht _ Hpk _
       |p1 p2 p3 s1 s2 s3 k1 k2 k3 r1 r2 r3 H12 H13 H23 Hp Ht _ Hpk _];
    rewrite Hp, Hpk, Ht; resolve_eval.
  - destruct k1 as [a|]; [|discriminate]. destruct k2 as [b|]; [|discriminate].
    resolve_eval. intros [= <-]. reflexivity.
  - destruct k1 as [a|]; [|discriminate]. destruct k2 as [b|]; [|discriminate].
    destruct k3 as [c|]; [|discriminate].
    resolve_eval. intros [= <-]. reflexivity.
Qed.

Lemma used_once_app_l (l1 l2 : list string) (d : Duel) :
  used_once (l1 ++ l2) d -> used_once l1 d.
Proof.
  intros [Hnd Hin]. split.
  - apply NoDup_app in Hnd. apply Hnd.
  - intros n Hn. apply Hin. apply elem_of_app. auto.
Qed.

Lemma names_reachable (m : DuelManager) :
  reachable m ->
  holds_in
    (fun d => used_once (history_names d ++ selected_names d) d)
    (fun d => used_once (history_names d) d) m.
Proof.
  apply (reachable_holds
           (fun d => used_once (history_names d ++ selected_names d) d)
           (fun d => used_once (history_names d ++ selected_names d) d)
           (fun d => used_once (history_names d) d)).
  - auto.
  - intros a os r c t Hacc. unfold history_names, selected_names. simpl.
    rewrite selected_names_none by (eapply accepted_all_distinct; eauto).
    split; [constructor|]. intros n Hn. apply elem_of_nil in Hn. destruct Hn.
  - intros d reaction d' _ H Ho.
    apply reaction_outcome_frame in Ho as (_ & Hp & Hu & _ & Hh & _).
    unfold used_once, history_names, selected_names in *.
    rewrite Hp, Hu, Hh. exact H.
  - intros d message pd _ [Hnd Hin] _ _ Hg _ Hv.
    apply validate_not_used in Hv.
    pose proof (selected_names_set (pokemon d) _ pd Hg) as Hperm.
    unfold used_once, history_names, selected_names in *. simpl.
    rewrite Hperm. split.
    + rewrite <- Permutation_middle. apply NoDup_cons. split; [|exact Hnd].
      intros Hn. apply Hv. apply Hin. exact Hn.
    + intros n Hn. rewrite ?Hperm, <- Permutation_middle in Hn.
      apply elem_of_cons in Hn as [->|Hn]; [set_solver|].
      apply elem_of_union_l. apply Hin. exact Hn.
  - intros d o Hwf _ H _ _. unfold after_selection_outcome.
    destruct (all_selected d); [|intros [= <-]; exact H].
    destruct (resolve_round d) as [d1|] eqn:Hr; [|discriminate]. simpl.
    apply resolve_round_names in Hr
      as (names & rd & Hn & Hh & Hrd & Hp & Hu & Hpl).
    apply (round_names_selected d names Hwf) in Hn.
    assert (Hhn : history_names d1 = history_names d ++ selected_names d).
    { unfold history_names. rewrite Hh, flat_map_app. simpl.
      rewrite app_nil_r, Hrd, Hn. reflexivity. }
    destruct (threshold_reached d1); intros [= <-].
    + unfold used_once. change (history_names (set_duel_ended d1 true))
        with (history_names d1). simpl. rewrite Hhn, Hu. exact H.
    + unfold used_once, selected_names. simpl.
      change (history_names _) with (history_names d1).
      unfold no_pokemon. rewrite selected_names_none by (rewrite Hpl; apply Hwf).
      rewrite app_nil_r, Hhn, Hu. exact H.
  - intros d a o Hwf _ H _ _ _. unfold reject_selection_outcome.
    destruct (award_opponents a (players d) (scores d)) as [s|];
      [|discriminate].
    simpl. apply used_once_app_l in H.
    destruct (threshold_reached (set_scores d s)); intros [= <-].
    + exact H.
    + unfold used_once, selected_names. simpl.
      change (history_names _) with (history_names d).
      unfold no_pokemon. simpl.
      rewrite selected_names_none by apply Hwf.
      rewrite app_nil_r. exact H.
Qed.

(** X19: with the handlers run one at a time, no creature twice in a
    match.  In every manager reached that way, the creature names of
    the round history of a duel, compared in lower case, are pairwise
    different, and each of them is in the used-set of the duel.  Two
    validations suspended together break it
    ([same_creature_twice_in_a_round]). *)
Theorem no_creature_twice_in_a_match (m : DuelManager) (c : Z) (d : Duel) :
  reachable m ->
  registered m c = Some d ->
  NoDup (flat_map (fun r => map Py.lower (round_pokemon r)) (round_history d))
  /\ forall r n,
       r ∈ round_history d -> n ∈ round_pokemon r ->
       Py.lower n ∈ used_pokemon d.
Proof.
  intros Hr Hd.
  pose proof (names_reachable m Hr) as [Ha Hc].
  assert (H : used_once (history_names d) d).
  { destruct (registered_cases m c d (reachable_inv m Hr) Hd)
      as [[H _]|(_ & H & _)].
    - eapply used_once_app_l. eauto.
    - eauto. }
  destruct H as [Hnd Hin]. split; [exact Hnd|].
  intros r n Hrd Hn. apply Hin. unfold history_names.
  apply list_elem_of_In, in_flat_map. exists r.
  split; [apply list_elem_of_In; exact Hrd|].
  apply in_map, list_elem_of_In. exact Hn.
Qed.

Lemma no_creature_twice_witness :
  NoDup (flat_map (fun r => map Py.lower (round_pokemon r))
           (round_history (duel_after sample_match 100)))
  /\ forall r n,
       r ∈ round_history (duel_after sample_match 100) ->
       n ∈ round_pokemon r ->
       Py.lower n ∈ used_pokemon (duel_after sample_match 100).
Proof.
  apply (no_creature_twice_in_a_match (manager_after sample_match) 100).
  - exists ∅, sample_match. vm_compute. reflexivity.
  - vm_compute. reflexivity.
Defined.

(** * No handler raises *)




(** X21: what a reaction never does.  Whatever the reaction and the
    manager, the duel registered under a channel keeps its scores, its
    selections, its used-set, its round counter, its round history and
    its ended flag; the reaction changes the ready table and, when the
    last acknowledgment arrives, the flags of the selection phase. *)
Theorem reaction_never_scores (m : DuelManager) (reaction : Reaction)
    (c : Z) (d : Duel) :
  registered m c = Some d ->
  exists d',
    registered (on_reaction_add m reaction) c = Some d'
    /\ scores d' = scores d /\ pokemon d' = pokemon d
    /\ used_pokemon d' = used_pokemon d
    /\ current_round d' = current_round d
    /\ round_history d' = round_history d
    /\ duel_ended d' = duel_ended d.
Proof.
  intros Hd. unfold on_reaction_add.
  destruct (Member.bot (user reaction)); [eauto 10|].
  rewrite handle_reaction_as_outcome.
  destruct (active_duels m !! reaction_channel reaction) as [d0|] eqn:Ha;
    [|eauto 10].
  destruct (reaction_outcome d0 reaction) as [d1|] eqn:Ho; [|eauto 10].
  rewrite registered_store. case_decide; [|eauto 10].
  subst c. rewrite (registered_active _ _ _ Ha) in Hd. injection Hd as ->.
  apply reaction_outcome_frame in Ho as (H1 & H2 & H3 & H4 & H5 & H6 & _).
  eauto 10.
Qed.

Lemma reaction_never_scores_witness :
  exists d',
    registered (on_reaction_add (manager_after ash_selects)
                  (mkReaction 100 CHECK_MARK misty)) 100 = Some d'
    /\ scores d' = scores (duel_after ash_selects 100)
    /\ pokemon d' = pokemon (duel_after ash_selects 100)
    /\ used_pokemon d' = used_pokemon (duel_after ash_selects 100)
    /\ current_round d' = current_round (duel_after ash_selects 100)
    /\ round_history d' = round_history (duel_after ash_selects 100)
    /\ duel_ended d' = duel_ended (duel_after ash_selects 100).
Proof.
  apply (reaction_never_scores (manager_after ash_selects)
           (mkReaction 100 CHECK_MARK misty) 100).
  vm_compute. reflexivity.
Defined.

(** * Weaknesses, resistances and the label *)

Example format_1f_examples :
  format_1f 1.92 = "1.9"%string
  /\ format_1f 0.75 = "0.8"%string
  /\ format_1f 0.25 = "0.2"%string
  /\ format_1f 0.35 = "0.3"%string
  /\ format_1f 0.05 = "0.1"%string
  /\ format_1f 2.5 = "2.5"%string
  /\ format_1f 7 = "7.0"%string
  /\ format_1f (-0.04) = "-0.0"%string
  /\ format_1f 123456789.96 = "123456790.0"%string
  /\ format_1f 1e22 = "10000000000000000000000.0"%string
  /\ format_1f 0.45 = "0.5"%string
  /\ format_1f 0.95 = "0.9"%string
  /\ format_1f 9.95 = "9.9"%string
  /\ format_1f 99.95 = "100.0"%string
  /\ format_1f 5e-324 = "0.0"%string
  /\ format_1f (0 / 0) = "nan"%string.
Proof. vm_compute. repeat split. Qed.

Example weaknesses_of_grass_and_water :
  get_weaknesses ["grass"; "water"]%string
  = [("fire", 1.6); ("ice", 1.6); ("poison", 1.6); ("flying", 1.6);
     ("bug", 1.6); ("electric", 1.6); ("grass", 1.6)]%string%float
  /\ get_advantage_text 1.92 = "Super Effective! (x1.9)"%string
  /\ get_advantage_text 0.625 = "Very Resisted (x0.6)"%string.
Proof. vm_compute. repeat split. Qed.

Section Collect.
Variable counts : float -> bool.

Lemma text_set_keys {V : Type} (d : list (string * V)) (k : string) (v : V)
    (x : string) :
  x ∈ map fst (text_set d k v) <-> x = k \/ x ∈ map fst d.
Proof.
  induction d as [|[k' v'] d IH]; simpl.
  - rewrite list_elem_of_singleton. split; [auto|].
    intros [H|H]; [exact H|]. apply elem_of_nil in H. destruct H.
  - destruct (String.eqb k' k) eqn:E; simpl.
    + apply String.eqb_eq in E. subst k'. rewrite !elem_of_cons. tauto.
    + rewrite !elem_of_cons, IH. tauto.
Qed.

Lemma text_set_NoDup {V : Type} (d : list (string * V)) (k : string) (v : V) :
  NoDup (map fst d) -> NoDup (map fst (text_set d k v)).
Proof.
  induction d as [|[k' v'] d IH]; simpl; intros H.
  - apply NoDup_singleton.
  - destruct (String.eqb k' k) eqn:E; simpl; [exact H|].
    apply NoDup_cons in H as [Hk H]. apply NoDup_cons. split; [|auto].
    rewrite text_set_keys. intros [->|Hin]; [|auto].
    rewrite String.eqb_refl in E. discriminate.
Qed.

Lemma collect_items (defending_type : string)
    (items : list (string * gmap string float)) :
  forall (found : list (string * float)) (x : string),
    NoDup (map fst found) ->
    NoDup (map fst (fold_left (collect_step counts defending_type) items found))
    /\ (x ∈ map fst (fold_left (collect_step counts defending_type) items found)
        <-> x ∈ map fst found
            \/ exists row e, (x, row) ∈ items
                             /\ row !! defending_type = Some e
                             /\ counts e = true).
Proof.
  induction items as [|[a row] items IH]; intros found x Hnd;
    cbn [fold_left].
  - split; [exact Hnd|]. split; [auto|].
    intros [H|(row & e & H & _)]; [exact H|].
    apply elem_of_nil in H. destruct H.
  - assert (Hstep : NoDup (map fst (collect_step counts defending_type found (a, row)))
                    /\ (x ∈ map fst
                               (collect_step counts defending_type found (a, row))
                        <-> x ∈ map fst found
                            \/ x = a
                               /\ exists e, row !! defending_type = Some e
                                            /\ counts e = true)).
    { unfold collect_step.
      destruct (row !! defending_type) as [e|] eqn:He.
      2: { split; [exact Hnd|]. split; [auto|].
           intros [H|(_ & e & H & _)]; [exact H|discriminate]. }
      destruct (counts e) eqn:Hc.
      2: { split; [exact Hnd|]. split; [auto|].
           intros [H|(_ & e' & [= <-] & H)]; [exact H|congruence]. }
      destruct (text_get found a); (split; [apply text_set_NoDup; exact Hnd|]);
        rewrite text_set_keys; split.
      - intros [->|H]; eauto.
      - intros [H|[-> _]]; auto.
      - intros [->|H]; eauto.
      - intros [H|[-> _]]; auto. }
    destruct Hstep as [Hnd' Hx].
    destruct (IH (collect_step counts defending_type found (a, row)) x Hnd')
      as [Hnd'' Hiff].
    split; [exact Hnd''|]. rewrite Hiff, Hx. split.
    + intros [[H|(-> & e & He & Hc)]|(row' & e & Hin & He & Hc)].
      * auto.
      * right. exists row, e. split; [left|auto].
      * right. exists row', e. split; [right; exact Hin|auto].
    + intros [H|(row' & e & Hin & He & Hc)]; [auto|].
      apply elem_of_cons in Hin as [[= -> ->]|Hin].
      * left. right. eauto.
      * right. eauto.
Qed.

Lemma collect_fold (items : list (string * gmap string float))
    (pokemon_types : list string) :
  forall (found : list (string * float)) (x : string),
    NoDup (map fst found) ->
    NoDup (map fst
             (fold_left
                (fun found defending_type =>
                   fold_left (collect_step counts defending_type) items found)
                pokemon_types found))
    /\ (x ∈ map fst
               (fold_left
                  (fun found defending_type =>
                     fold_left (collect_step counts defending_type) items
                       found)
                  pokemon_types found)
        <-> x ∈ map fst found
            \/ exists defending_type row e,
                 defending_type ∈ pokemon_types
                 /\ (x, row) ∈ items
                 /\ row !! defending_type = Some e /\ counts e = true).
Proof.
  induction pokemon_types as [|d ts IH]; intros found x Hnd;
    cbn [fold_left].
  - split; [exact Hnd|]. split; [auto|].
    intros [H|(d & _ & _ & H & _)]; [exact H|].
    apply elem_of_nil in H. destruct H.
  - destruct (collect_items d items found x Hnd) as [Hnd' Hx].
    destruct (IH _ x Hnd') as [Hnd'' Hiff].
    split; [exact Hnd''|]. rewrite Hiff, Hx. split.
    + intros [[H|(row & e & Hin & He & Hc)]
             |(d' & row & e & Hd & Hin & He & Hc)].
      * auto.
      * right. exists d, row, e. split; [left|auto].
      * right. exists d', row, e. split; [right; exact Hd|auto].
    + intros [H|(d' & row & e & Hd & Hin & He & Hc)]; [auto|].
      apply elem_of_cons in Hd as [->|Hd].
      * left. right. eauto.
      * right. eauto 10.
Qed.

End Collect.

Lemma effectiveness_items_spec (a : string) (row : gmap string float) :
  (a, row) ∈ effectiveness_items <-> pokemon_go_effectiveness !! a = Some row.
Proof.
  unfold effectiveness_items. rewrite list_elem_of_omap. split.
  - intros (a' & _ & H).
    destruct (pokemon_go_effectiveness !! a') as [row'|] eqn:E;
      [|discriminate].
    injection H as <- <-. exact E.
  - intros H. exists a. split; [exact (effectiveness_keys a row H)|].
    rewrite H. reflexivity.
Qed.

Lemma defending_keys_lower :
  forallb
    (fun item : string * gmap string float =>
       forallb (fun kv : string * float => negb (starts_upper kv.1))
         (map_to_list item.2))
    effectiveness_items = true.
Proof. vm_compute. reflexivity. Qed.

Lemma title_no_defender (a t : string) (row : gmap string float) :
  (a, row) ∈ effectiveness_items -> row !! Str.title t = None.
Proof.
  intros Hin. destruct (row !! Str.title t) as [e|] eqn:He; [|reflexivity].
  pose proof defending_keys_lower as H.
  rewrite forallb_forall in H.
  specialize (H (a, row) (proj1 (list_elem_of_In _ _) Hin)).
  rewrite forallb_forall in H.
  apply elem_of_map_to_list in He.
  specialize (H _ (proj1 (list_elem_of_In _ _) He)). simpl in H.
  rewrite title_starts_upper in H. discriminate.
Qed.

Lemma table_entry_row (a d : string) (e : float) :
  table_entry a d = Some e
  <-> exists row, (a, row) ∈ effectiveness_items /\ row !! d = Some e.
Proof.
  split.
  - intros He. unfold table_entry in He.
    destruct (pokemon_go_effectiveness !! a) as [row|] eqn:Hr;
      [|discriminate].
    exists row. split; [|exact He].
    apply effectiveness_items_spec. exact Hr.
  - intros (row & Hin & He). apply effectiveness_items_spec in Hin.
    unfold table_entry. rewrite Hin. exact He.
Qed.

Lemma collect_keys (counts : float -> bool) (pokemon_types : list string)
    (attacking_type : string) :
  NoDup (map fst (collect counts pokemon_types))
  /\ (attacking_type ∈ map fst (collect counts pokemon_types)
      <-> exists defending_type e,
            defending_type ∈ pokemon_types
            /\ table_entry attacking_type defending_type = Some e
            /\ counts e = true).
Proof.
  destruct (collect_fold counts effectiveness_items pokemon_types []
              attacking_type (NoDup_nil_2 (A := string))) as [Hnd Hiff].
  fold (collect counts pokemon_types) in Hnd, Hiff.
  split; [exact Hnd|]. split.
  - intros H. apply Hiff in H.
    destruct H as [H|(d & row & e & Hd & Hin & He & Hc)].
    + apply elem_of_nil in H. destruct H.
    + exists d, e. split; [exact Hd|]. split; [|exact Hc].
      apply table_entry_row. exists row. split; [exact Hin|exact He].
  - intros (d & e & Hd & He & Hc). apply Hiff. right.
    apply table_entry_row in He. destruct He as (row & Hin & He).
    exists d, row, e. split; [exact Hd|]. split; [exact Hin|].
    split; [exact He|exact Hc].
Qed.

(** X22: the keys of [get_weaknesses] and of [get_resistances].  An
    attacking category is a key of the weaknesses of a list of
    categories exactly when the chart has an entry above 1 for it
    against one of the categories, and a key of the resistances
    exactly when it has an entry below 1; no key occurs twice. *)
Theorem weaknesses_and_resistances_keys (pokemon_types : list string)
    (attacking_type : string) :
  (attacking_type ∈ map fst (get_weaknesses pokemon_types)
   <-> exists defending_type e,
         defending_type ∈ pokemon_types
         /\ table_entry attacking_type defending_type = Some e
         /\ PrimFloat.ltb 1 e = true)
  /\ (attacking_type ∈ map fst (get_resistances pokemon_types)
      <-> exists defending_type e,
            defending_type ∈ pokemon_types
            /\ table_entry attacking_type defending_type = Some e
            /\ PrimFloat.ltb e 1 = true)
  /\ NoDup (map fst (get_weaknesses pokemon_types))
  /\ NoDup (map fst (get_resistances pokemon_types)).
Proof.
  destruct (collect_keys (fun e => Py.gt e 1) pokemon_types attacking_type)
    as [N1 H1].
  destruct (collect_keys (fun e => PrimFloat.ltb e 1) pokemon_types
              attacking_type) as [N2 H2].
  split; [exact H1|]. split; [exact H2|]. split; [exact N1|exact N2].
Qed.

Lemma collect_step_titled (counts : float -> bool) (t : string)
    (items : list (string * gmap string float)) :
  (forall a row, (a, row) ∈ items -> (a, row) ∈ effectiveness_items) ->
  forall found,
    fold_left (collect_step counts (Str.title t)) items found = found.
Proof.
  induction items as [|[a row] items IH]; intros Hsub found;
    cbn [fold_left]; [reflexivity|].
  assert (Hstep : collect_step counts (Str.title t) found (a, row) = found).
  { unfold collect_step.
    rewrite (title_no_defender a t row) by (apply Hsub; left).
    reflexivity. }
  rewrite Hstep. apply IH. intros a' row' H. apply Hsub. right. exact H.
Qed.

Lemma collect_fold_titled (counts : float -> bool)
    (items : list (string * gmap string float)) (raw : list string) :
  (forall a row, (a, row) ∈ items -> (a, row) ∈ effectiveness_items) ->
  forall found,
    fold_left
      (fun found defending_type =>
         fold_left (collect_step counts defending_type) items found)
      (map Str.title raw) found = found.
Proof.
  intros Hsub.
  induction raw as [|t raw IH]; intros found; cbn [map fold_left];
    [reflexivity|].
  rewrite (collect_step_titled counts t items Hsub found). apply IH.
Qed.

Lemma collect_titled (counts : float -> bool) (raw : list string) :
  collect counts (map Str.title raw) = [].
Proof.
  exact (collect_fold_titled counts effectiveness_items raw
           (fun a row H => H) []).
Qed.

(** X23: with the categories as the provider adapter spells them, by
    [str.title], a creature has no weakness and no resistance: the
    chart has lower-case keys only. *)
Theorem titled_types_have_no_weakness (raw : list string) :
  get_weaknesses (map Str.title raw) = []
  /\ get_resistances (map Str.title raw) = [].
Proof.
  split.
  - exact (collect_titled (fun e => Py.gt e 1) raw).
  - exact (collect_titled (fun e => PrimFloat.ltb e 1) raw).
Qed.

(** X24: with the categories as the provider adapter spells them, the
    label of every type multiplier is 'Neutral (x1)', in the image of
    two creatures and, for the averaged multipliers, in the image of
    three. *)
Theorem titled_types_are_labelled_neutral (raw1 raw2 raw3 : list string) :
  let advantage12 :=
    calculate_type_advantage_with_stab (map Str.title raw1)
      (map Str.title raw2) in
  let advantage13 :=
    calculate_type_advantage_with_stab (map Str.title raw1)
      (map Str.title raw3) in
  get_advantage_text advantage12.1 = "Neutral (x1)"%string
  /\ get_advantage_text advantage12.2 = "Neutral (x1)"%string
  /\ get_advantage_text ((advantage12.1 + advantage13.1) / 2)%float
     = "Neutral (x1)"%string.
Proof.
  cbv zeta. rewrite !titled_no_advantage. cbn [fst snd].
  repeat split; vm_compute; reflexivity.
Qed.

(** * Eligibility by kind *)

Lemma split_head_app (sep : ascii) (base suffix : string) :
  Str.contains sep base = false ->
  Py.split_head sep (base ++ String sep suffix) = base.
Proof.
  induction base as [|c base IH]; simpl.
  - intros _. rewrite Ascii.eqb_refl. reflexivity.
  - intros H. apply orb_false_iff in H as [Hc H].
    rewrite Hc, (IH H). reflexivity.
Qed.

Lemma legendary_entries_lower :
  forallb (fun e => String.eqb (Py.lower e) e) LEGENDARY_POKEMON = true.
Proof. vm_compute. reflexivity. Qed.

Lemma is_legendary_entry (e : string) :
  e ∈ LEGENDARY_POKEMON -> is_legendary e = true.
Proof.
  intros H. unfold is_legendary. apply bool_decide_eq_true_2.
  pose proof legendary_entries_lower as L.
  rewrite forallb_forall in L.
  specialize (L e (proj1 (list_elem_of_In _ _) H)).
  apply String.eqb_eq in L. rewrite L. exact H.
Qed.

Lemma two_word_entries (e : string) :
  e ∈ LEGENDARY_POKEMON -> Str.contains " " e = true ->
  e ∈ ["tapu koko"; "tapu lele"; "tapu bulu"; "tapu fini"]%string.
Proof.
  intros H Hs.
  assert (Hf : In e (List.filter (Str.contains " ") LEGENDARY_POKEMON)).
  { apply filter_In. split; [apply list_elem_of_In; exact H|exact Hs]. }
  apply list_elem_of_In in Hf. exact Hf.
Qed.

(** X25: a creature not used yet in the duel is eligible in exactly one
    of the kinds 'normal' and 'legendaries', whatever the provider
    reports.  It is eligible in '1st-evolution' exactly when the
    provider reports stage 1 at that validation and in '2nd-evolution'
    exactly when it reports stage 2 at that one: in both kinds only if
    the two answers differ. *)
Theorem eligible_in_one_kind (stage stage' stage1 stage2 : Z)
    (pokemon_data : PokemonData) (used : gset string) :
  Py.lower (name pokemon_data) ∉ used ->
  (validate_pokemon_for_duel stage pokemon_data "normal" used).1
  = negb (validate_pokemon_for_duel stage' pokemon_data "legendaries" used).1
  /\ (validate_pokemon_for_duel stage1 pokemon_data "1st-evolution" used).1
     = (stage1 =? 1)%Z
  /\ (validate_pokemon_for_duel stage2 pokemon_data "2nd-evolution" used).1
     = (stage2 =? 2)%Z.
Proof.
  intros Hused. unfold validate_pokemon_for_duel.
  rewrite bool_decide_eq_false_2 by exact Hused.
  cbn [String.eqb Ascii.eqb Bool.eqb].
  split; [|split].
  - destruct (is_legendary (api_name pokemon_data)
              || is_legendary (Py.split_head "-" (api_name pokemon_data)));
      reflexivity.
  - destruct (stage1 =? 1)%Z; reflexivity.
  - destruct (stage2 =? 2)%Z; reflexivity.
Qed.

Lemma eligible_in_one_kind_witness :
  (validate_pokemon_for_duel 1 mewtwo "normal" ∅).1
  = negb (validate_pokemon_for_duel 1 mewtwo "legendaries" ∅).1
  /\ (validate_pokemon_for_duel 1 mewtwo "1st-evolution" ∅).1 = (1 =? 1)%Z
  /\ (validate_pokemon_for_duel 2 mewtwo "2nd-evolution" ∅).1 = (2 =? 2)%Z.
Proof.
  apply (eligible_in_one_kind 1 1 1 2 mewtwo ∅). apply not_elem_of_empty.
Defined.

(** X26: a form counts as its species.  A creature the provider names
    by an entry of the list of legendaries, a hyphen and any suffix is
    refused in a 'normal' duel and eligible in a 'legendaries' duel,
    provided the entry itself holds no hyphen. *)
Theorem forms_of_legendaries_are_legendary (stage : Z)
    (pokemon_data : PokemonData) (used : gset string)
    (base suffix : string) :
  base ∈ LEGENDARY_POKEMON ->
  Str.contains "-" base = false ->
  api_name pokemon_data = (base ++ "-" ++ suffix)%string ->
  Py.lower (name pokemon_data) ∉ used ->
  validate_pokemon_for_duel stage pokemon_data "normal" used
  = (false, "Legendary Pokemon are not allowed in normal duels!"%string)
  /\ validate_pokemon_for_duel stage pokemon_data "legendaries" used
     = (true, "Valid"%string).
Proof.
  intros Hbase Hhyphen Hapi Hused. unfold validate_pokemon_for_duel.
  rewrite bool_decide_eq_false_2 by exact Hused.
  rewrite Hapi.
  change ("-" ++ suffix)%string with (String "-" suffix).
  rewrite (split_head_app "-" base suffix Hhyphen).
  rewrite (is_legendary_entry base Hbase), orb_true_r.
  split; reflexivity.
Qed.

Lemma forms_of_legendaries_witness :
  validate_pokemon_for_duel 1 deoxys_attack "normal" ∅
  = (false, "Legendary Pokemon are not allowed in normal duels!"%string)
  /\ validate_pokemon_for_duel 1 deoxys_attack "legendaries" ∅
     = (true, "Valid"%string).
Proof.
  apply (forms_of_legendaries_are_legendary 1 deoxys_attack ∅
           "deoxys" "attack").
  - vm_compute. repeat constructor.
  - reflexivity.
  - reflexivity.
  - apply not_elem_of_empty.
Defined.

(** X27: the entries of the list of legendaries that hold a space
    classify nothing.  A creature the provider names as the adapter
    requests such an entry, with a hyphen for the space, is eligible in
    a 'normal' duel and refused in a 'legendaries' duel. *)
Theorem two_word_legendaries_pass_as_normal (stage : Z)
    (pokemon_data : PokemonData) (used : gset string) (entry : string) :
  entry ∈ LEGENDARY_POKEMON ->
  Str.contains " " entry = true ->
  api_name pokemon_data = Api.normalize entry ->
  Py.lower (name pokemon_data) ∉ used ->
  validate_pokemon_for_duel stage pokemon_data "normal" used
  = (true, "Valid"%string)
  /\ validate_pokemon_for_duel stage pokemon_data "legendaries" used
     = (false, "Only Legendary Pokemon are allowed in this duel!"%string).
Proof.
  intros Hentry Hspace Hapi Hused.
  pose proof (two_word_entries entry Hentry Hspace) as H4.
  unfold validate_pokemon_for_duel.
  rewrite bool_decide_eq_false_2 by exact Hused.
  rewrite Hapi. clear Hapi Hentry Hspace Hused.
  repeat (apply elem_of_cons in H4 as [->|H4];
          [split; vm_compute; reflexivity|]).
  apply elem_of_nil in H4. destruct H4.
Qed.

Lemma two_word_legendaries_witness :
  validate_pokemon_for_duel 1 tapu_koko "normal" ∅
  = (true, "Valid"%string)
  /\ validate_pokemon_for_duel 1 tapu_koko "legendaries" ∅
     = (false, "Only Legendary Pokemon are allowed in this duel!"%string).
Proof.
  apply (two_word_legendaries_pass_as_normal 1 tapu_koko ∅ "tapu koko").
  - vm_compute. repeat constructor.
  - reflexivity.
  - reflexivity.
  - apply not_elem_of_empty.
Defined.

(** * The boosts and the digest *)

(** X28: the boosts read the digest back.  The six boosts are the
    first six of the sixteen bytes of the MD5 digest of the lower-cased
    name, each modulo 32: slicing the hexadecimal text two digits at a
    time and converting with [int(_, 16)] undoes the encoding of the
    bytes, and meets no character it would reject. *)
Theorem boosts_are_digest_bytes (pokemon_name : string) :
  exists b0 b1 b2 b3 b4 b5 rest,
    Md5.digest (Py.encode (Py.lower pokemon_name))
    = b0 :: b1 :: b2 :: b3 :: b4 :: b5 :: rest
    /\ length rest = 10%nat
    /\ calculate_ivs pokemon_name
       = mkStats (b0 mod 32) (b1 mod 32) (b2 mod 32) (b3 mod 32)
           (b4 mod 32) (b5 mod 32).
Proof.
  destruct (calculate_ivs_digest pokemon_name)
    as (b0 & b1 & b2 & b3 & b4 & b5 & rest & Hd & Hivs).
  destruct (digest_bytes (Py.encode (Py.lower pokemon_name)))
    as (c0 & c1 & c2 & c3 & c4 & c5 & rest' & Hd' & Hlen & _).
  exists b0, b1, b2, b3, b4, b5, rest. split; [exact Hd|].
  split; [|exact Hivs].
  rewrite Hd in Hd'. injection Hd' as _ _ _ _ _ _ ->. exact Hlen.
Qed.

(** * The image of three and the round *)

Lemma SFadd_comm (prec emax : Z) (x y : SpecFloat.spec_float) :
  SpecFloat.SFadd prec emax x y = SpecFloat.SFadd prec emax y x.
Proof.
  destruct x as [sx|sx| |sx mx ex], y as [sy|sy| |sy my ey]; simpl;
    try reflexivity.
  - destruct sx, sy; reflexivity.
  - destruct sx, sy; reflexivity.
  - rewrite Z.min_comm, Z.add_comm. reflexivity.
Qed.

Lemma float_add_comm (x y : float) : (x + y = y + x)%float.
Proof.
  apply Prim2SF_inj. rewrite !FloatAxioms.add_spec. apply SFadd_comm.
Qed.

Lemma calculate_battle_score_swap (pokemon1 pokemon2 : PokemonData) :
  calculate_battle_score pokemon2 pokemon1
  = ((calculate_battle_score pokemon1 pokemon2).2,
     (calculate_battle_score pokemon1 pokemon2).1).
Proof. reflexivity. Qed.

(** X29: the image of three shows the scores that decide the round.
    In a duel of three in which everybody has selected, the battle
    scores the manager compares are, in the order of the participants,
    the averaged scores that [create_triple_vs_image] draws for the
    same three creatures. *)
Theorem triple_image_shows_round_scores (duel : Duel) (a b c : Member.t)
    (pokemon1 pokemon2 pokemon3 : PokemonData) :
  players duel = [a; b; c] ->
  Py.get (pokemon duel) (Member.id a) = Some (Some pokemon1) ->
  Py.get (pokemon duel) (Member.id b) = Some (Some pokemon2) ->
  Py.get (pokemon duel) (Member.id c) = Some (Some pokemon3) ->
  triple_battle_scores duel
  = Some [(triple_image_scores pokemon1 pokemon2 pokemon3).1.1;
          (triple_image_scores pokemon1 pokemon2 pokemon3).1.2;
          (triple_image_scores pokemon1 pokemon2 pokemon3).2].
Proof.
  intros Hp Ha Hb Hc. unfold triple_battle_scores.
  rewrite Hp. cbn [mapM mbind option_bind]. rewrite Ha, Hb, Hc.
  cbn -[calculate_battle_score].
  unfold triple_image_scores.
  rewrite (calculate_battle_score_swap pokemon1 pokemon2).
  rewrite (calculate_battle_score_swap pokemon1 pokemon3).
  rewrite (calculate_battle_score_swap pokemon2 pokemon3).
  destruct (calculate_battle_score pokemon1 pokemon2) as [s12 s21].
  destruct (calculate_battle_score pokemon1 pokemon3) as [s13 s31].
  destruct (calculate_battle_score pokemon2 pokemon3) as [s23 s32].
  cbn [fst snd].
  rewrite (float_add_comm s23 s21). reflexivity.
Qed.

Lemma triple_image_witness :
  triple_battle_scores three_selected
  = Some [(triple_image_scores pikachu squirtle mewtwo).1.1;
          (triple_image_scores pikachu squirtle mewtwo).1.2;
          (triple_image_scores pikachu squirtle mewtwo).2].
Proof.
  apply (triple_image_shows_round_scores three_selected ash misty brock
           pikachu squirtle mewtwo); reflexivity.
Defined.

(** * The handlers between their suspensions *)

Lemma put_store (m : DuelManager) (ch : Z) (d0 d : Duel) :
  active_duels m !! ch = Some d0 ->
  completed_duels m !! ch = None ->
  put m ch d = store m ch d.
Proof.
  intros Ha Hc. unfold put, store. f_equal.
  - apply map_eq. intros k. destruct (decide (ch = k)) as [<-|Hk].
    + rewrite lookup_alter_eq, Ha, lookup_insert_eq. reflexivity.
    + rewrite lookup_alter_ne, lookup_insert_ne by exact Hk. reflexivity.
  - apply map_eq. intros k. destruct (decide (ch = k)) as [<-|Hk].
    + rewrite lookup_alter_eq, Hc. reflexivity.
    + rewrite lookup_alter_ne by exact Hk. reflexivity.
Qed.

Lemma store_store (m : DuelManager) (ch : Z) (d1 d2 : Duel) :
  store (store m ch d1) ch d2 = store m ch d2.
Proof. unfold store. simpl. rewrite insert_insert_eq. reflexivity. Qed.

Lemma put_on_store (m : DuelManager) (ch : Z) (d1 d2 : Duel) :
  completed_duels m !! ch = None ->
  put (store m ch d1) ch d2 = store m ch d2.
Proof.
  intros Hc. rewrite (put_store _ ch d1 d2), store_store; [reflexivity| |].
  - unfold store. simpl. apply lookup_insert_eq.
  - exact Hc.
Qed.

Lemma registered_on_store (m : DuelManager) (ch : Z) (d : Duel) :
  registered (store m ch d) ch = Some d.
Proof. rewrite registered_store. rewrite decide_True; reflexivity. Qed.

Lemma finish_raised (n : nat) : finish n None = None.
Proof. destruct n; reflexivity. Qed.

Lemma finish_returned (n : nat) (m : DuelManager) :
  finish n (Some (m, None)) = Some m.
Proof. destruct n; reflexivity. Qed.

Lemma finish_suspended (n : nat) (m : DuelManager) (task : Task) :
  finish (S n) (Some (m, Some task)) = finish n (resume m task).
Proof. reflexivity. Qed.

Lemma registered_history (m : DuelManager)
    (history : gmap string (list DuelRecord)) (ch : Z) :
  registered (mkDuelManager (active_duels m) (completed_duels m) history) ch
  = registered m ch.
Proof. reflexivity. Qed.

Lemma end_duel_on_store (m : DuelManager) (message : Message) (d : Duel)
    (n : nat) :
  finish (S n) (end_duel_begin (store m (message_channel message) d) message)
  = end_duel m d (message_channel message) (datetime_now message).
Proof.
  unfold end_duel_begin, end_duel. rewrite registered_on_store.
  cbn [mbind option_bind].
  destruct (Py.max_key (scores d)) as [winner_id|];
    [|apply finish_raised].
  cbn [mbind option_bind].
  destruct (find _ (players d)) as [winner|]; [|apply finish_raised].
  cbn [mbind option_bind].
  unfold add_to_history.
  destruct (duel_record d _ _ _) as [r|]; [|apply finish_raised].
  cbn [mbind option_bind]. rewrite finish_suspended.
  cbn [resume]. unfold after_showdown.
  rewrite registered_history.
  rewrite registered_on_store. cbn [mbind option_bind].
  destruct (_ <? _)%nat; [apply finish_raised|].
  rewrite finish_returned. unfold store.
  cbn [active_duels completed_duels duel_history].
  rewrite delete_insert_eq. reflexivity.
Qed.

Lemma point_to_winner (d : Duel) (i : nat) (w : string) (s : Py.dict Z) :
  point_to d i = Some (w, s) ->
  exists p, p ∈ players d /\ w = Member.name p.
Proof.
  unfold point_to.
  destruct (players d !! i) as [p|] eqn:Hp; [|discriminate]. simpl.
  destruct (Py.incr (scores d) (Member.id p)) as [s'|]; [|discriminate].
  simpl. intros [= <- _]. exists p. split; [|reflexivity].
  eapply list_elem_of_lookup_2. exact Hp.
Qed.

Lemma round_outcome_winner (d : Duel) (bs : list float) (w : string)
    (s : Py.dict Z) :
  round_outcome d bs = Some (w, s) ->
  w = TIE \/ exists p, p ∈ players d /\ w = Member.name p.
Proof.
  unfold round_outcome.
  destruct (is_triple_duel d).
  - destruct bs as [|first rest]; [discriminate|].
    destruct (max_indices (first :: rest) (Py.max_float first rest))
      as [|i [|j l]]; try (intros [= <- _]; left; reflexivity).
    intros H. right. eapply point_to_winner. exact H.
  - destruct (bs !! 0%nat) as [s1|]; [|discriminate].
    destruct (bs !! 1%nat) as [s2|]; [|discriminate]. simpl.
    destruct (Py.gt s1 s2); [intros H; right; eapply point_to_winner; eauto|].
    destruct (Py.gt s2 s1); [intros H; right; eapply point_to_winner; eauto|].
    intros [= <- _]. left. reflexivity.
Qed.

Lemma find_by_name (ps : list Member.t) (p : Member.t) :
  p ∈ ps ->
  exists q, find (fun player => String.eqb (Member.name player)
                                  (Member.name p)) ps = Some q
            /\ q ∈ ps.
Proof.
  induction ps as [|a ps IH]; intros Hin; [inversion Hin|].
  cbn [find]. destruct (String.eqb (Member.name a) (Member.name p)) eqn:E.
  - exists a. split; [reflexivity|left].
  - apply elem_of_cons in Hin as [->|Hin].
    + rewrite String.eqb_refl in E. discriminate.
    + destruct (IH Hin) as (q & Hq & Hqin). exists q.
      split; [exact Hq|right; exact Hqin].
Qed.

Lemma selected_slot (d : Duel) (p : Member.t) :
  wf_duel d -> all_selected d = true -> p ∈ players d ->
  exists data, mjoin (Py.get (pokemon d) (Member.id p)) = Some data.
Proof.
  intros Hwf Hall Hp. unfold all_selected in Hall.
  assert (Hk : Member.id p ∈ Py.keys (pokemon d)).
  { rewrite (wf_pokemon _ Hwf). unfold player_ids.
    apply list_elem_of_fmap. exists p. split; [reflexivity|exact Hp]. }
  revert Hall Hk. unfold Py.keys, Py.values.
  induction (pokemon d) as [|[k v] l IH]; cbn [map forallb Py.get fst snd];
    intros Hall Hk; [inversion Hk|].
  apply andb_prop in Hall as [Hv Hall].
  destruct (Z.eqb k (Member.id p)) eqn:E.
  - apply bool_decide_eq_true_1 in Hv as [data ->]. exists data. reflexivity.
  - apply IH; [exact Hall|].
    apply elem_of_cons in Hk as [Hk|Hk]; [|exact Hk].
    rewrite Hk, Z.eqb_refl in E. discriminate.
Qed.

(** The resolution of a round, from the test of all selections to the
    return, with no other handler in between. *)
Lemma all_check_on_store (m : DuelManager) (message : Message) (d : Duel)
    (n : nat) :
  completed_duels m !! message_channel message = None ->
  wf_duel d ->
  finish (5 + n) (all_check (store m (message_channel message) d) message)
  = fst <$> after_selection m (message_channel message) d
              (datetime_now message).
Proof.
  intros Hc Hwf. unfold all_check, after_selection.
  rewrite registered_on_store. cbn [mbind option_bind].
  destruct (all_selected d) eqn:Hall; [|apply finish_returned].
  unfold resolve_round.
  destruct (battle_scores d) as [bs|]; [|apply finish_raised].
  cbn [mbind option_bind].
  destruct (round_names d) as [names|]; [|apply finish_raised].
  cbn [mbind option_bind].
  destruct (round_score_fields d bs) as [fields|]; [|apply finish_raised].
  cbn [mbind option_bind].
  destruct (round_outcome d bs) as [[w s]|] eqn:Hw; [|apply finish_raised].
  cbn [mbind option_bind].
  rewrite (put_on_store _ _ _ _ Hc).
  change (5 + n)%nat with (S (S (S (S (S n))))).
  rewrite finish_suspended. cbn [resume]. unfold after_suspense.
  rewrite registered_on_store. cbn [mbind option_bind].
  rewrite (put_on_store _ _ _ _ Hc).
  rewrite finish_suspended. cbn [resume]. unfold after_reveal.
  rewrite registered_on_store. cbn [mbind option_bind].
  match goal with
  | |- finish _ ?r = _ =>
      assert (Hreveal : r = Some (store m (message_channel message)
                                    (set_selection_phase
                                       (set_waiting_for_selection
                                          (set_round_history
                                             (set_scores d s)
                                             (round_history (set_scores d s)
                                              ++ [mkRoundData names fields w]))
                                          false) false),
                                  Some (AtAnnouncement message)))
  end.
  { destruct (String.eqb w TIE) eqn:Htie; [reflexivity|].
    apply round_outcome_winner in Hw as [->|(p & Hp & ->)];
      [rewrite String.eqb_refl in Htie; discriminate|].
    cbn [players set_selection_phase set_waiting_for_selection
           set_round_history set_scores pokemon].
    destruct (find_by_name _ _ Hp) as (q & -> & Hq).
    cbn [mbind option_bind].
    destruct (selected_slot d q Hwf Hall Hq) as (data & ->).
    reflexivity. }
  rewrite Hreveal. clear Hreveal.
  rewrite finish_suspended. cbn [resume]. unfold after_announcement.
  rewrite registered_on_store. cbn [mbind option_bind].
  rewrite (put_on_store _ _ _ _ Hc).
  rewrite finish_suspended. cbn [resume]. unfold after_score_text.
  rewrite registered_on_store. cbn [mbind option_bind].
  match goal with
  | |- context [threshold_reached ?x] => destruct (threshold_reached x)
  end.
  - rewrite end_duel_on_store.
    match goal with
    | |- ?e = _ => destruct e; reflexivity
    end.
  - rewrite (put_on_store _ _ _ _ Hc). rewrite finish_returned. reflexivity.
Qed.

Lemma penalty_on_store (m : DuelManager) (message : Message) (d : Duel)
    (n : nat) :
  completed_duels m !! message_channel message = None ->
  finish (2 + n) (penalty (store m (message_channel message) d) message)
  = fst <$> reject_selection m (message_channel message) d (author message)
              (datetime_now message).
Proof.
  intros Hc. unfold penalty, reject_selection.
  rewrite registered_on_store. cbn [mbind option_bind].
  destruct (award_opponents _ _ _) as [s|]; [|apply finish_raised].
  cbn [mbind option_bind].
  rewrite (put_on_store _ _ _ _ Hc).
  change (2 + n)%nat with (S (S n)).
  rewrite finish_suspended. cbn [resume]. unfold after_penalty_notice.
  rewrite registered_on_store. cbn [mbind option_bind].
  destruct (threshold_reached (set_scores d s)).
  - rewrite end_duel_on_store.
    match goal with
    | |- ?e = _ => destruct e; reflexivity
    end.
  - rewrite (put_on_store _ _ _ _ Hc). rewrite finish_returned. reflexivity.
Qed.

(** [handle_message] is its segments run with no other handler in
    between. *)
Lemma handle_message_uninterrupted (m : DuelManager) (message : Message) :
  manager_inv m ->
  finish 8 (message_begin m message) = fst <$> handle_message m message.
Proof.
  intros Hinv. unfold message_begin, handle_message.
  destruct (active_duels m !! message_channel message) as [d|] eqn:Ha;
    [|reflexivity].
  destruct (inv_active _ Hinv _ _ Ha) as (Hwf & _ & _).
  pose proof (inv_disjoint _ Hinv _ _ Ha) as Hc.
  pose proof (store_same m _ d Ha) as Hm.
  destruct (duel_ended d); [reflexivity|].
  destruct (negb (existsb _ (players d))); [reflexivity|].
  destruct (selection_phase d && waiting_for_selection d); [|reflexivity].
  destruct (in_cooldown d (time_time message)); [reflexivity|].
  rewrite finish_suspended. cbn [resume]. unfold after_delete.
  rewrite (registered_active _ _ _ Ha). cbn [mbind option_bind].
  destruct (Py.get (pokemon d) (Member.id (author message)))
    as [[chosen|]|] eqn:Hslot; [| |reflexivity]; cbn [mbind option_bind].
  - rewrite <- Hm at 1. apply (all_check_on_store m message d 2 Hc Hwf).
  - rewrite finish_suspended. cbn [resume]. unfold after_lookup.
    destruct (get_pokemon_data message) as [pokemon_data|]; [|reflexivity].
    rewrite (registered_active _ _ _ Ha). cbn [mbind option_bind].
    assert (Hpenalty :
              forall n,
                finish (2 + n) (penalty m message)
                = fst <$> reject_selection m (message_channel message) d
                            (author message) (datetime_now message)).
    { intros n. rewrite <- Hm at 1. apply (penalty_on_store m message d n Hc). }
    assert (Haccept :
              forall n,
                finish (5 + n) (accept m message pokemon_data)
                = fst <$> after_selection m (message_channel message)
                            (store_selection d (author message) pokemon_data)
                            (datetime_now message)).
    { intros n. unfold accept.
      rewrite (registered_active _ _ _ Ha). cbn [mbind option_bind].
      rewrite (put_store _ _ _ _ Ha Hc).
      apply all_check_on_store; [exact Hc|].
      eapply wf_evolves; [exact Hwf|].
      eapply store_selection_evolves. exact Hslot. }
    unfold validation_suspends.
    destruct (bool_decide (Py.lower (name pokemon_data) ∈ used_pokemon d))
      eqn:Hused; cbn [negb andb].
    + unfold validate_pokemon_for_duel. rewrite Hused. cbn [fst negb].
      apply (Hpenalty 4%nat).
    + apply bool_decide_eq_false_1 in Hused.
      destruct (String.eqb (duel_type d) "1st-evolution"
                || String.eqb (duel_type d) "2nd-evolution").
      * rewrite finish_suspended. cbn [resume]. unfold after_stage.
        rewrite (registered_active _ _ _ Ha). cbn [mbind option_bind].
        destruct (validate_pokemon_for_duel _ _ _ _) as [[|] msg];
          cbn [fst negb].
        -- apply (Haccept 0%nat).
        -- apply (Hpenalty 3%nat).
      * destruct (validate_pokemon_for_duel _ _ _ _) as [[|] msg];
          cbn [fst negb].
        -- apply (Haccept 1%nat).
        -- apply (Hpenalty 4%nat).
Qed.

(** [handle_reaction] is its segments run with no other handler in
    between. *)
Lemma handle_reaction_uninterrupted (m : DuelManager) (reaction : Reaction) :
  manager_inv m ->
  finish 8 (reaction_begin m reaction) = Some (handle_reaction m reaction).
Proof.
  intros Hinv. unfold reaction_begin, handle_reaction.
  destruct (active_duels m !! reaction_channel reaction) as [d|] eqn:Ha;
    [|reflexivity].
  pose proof (inv_disjoint _ Hinv _ _ Ha) as Hc.
  destruct (negb (String.eqb (emoji reaction) CHECK_MARK)); [reflexivity|].
  destruct (duel_ended d); [reflexivity|].
  destruct (negb (bool_decide _)); [reflexivity|].
  rewrite (put_store _ _ _ _ Ha Hc).
  rewrite finish_suspended. cbn [resume]. unfold after_ready_edit.
  rewrite registered_on_store. cbn [mbind option_bind].
  match goal with
  | |- context [if ?b then _ else _] => destruct b
  end; [|reflexivity].
  rewrite (put_on_store _ _ _ _ Hc).
  rewrite finish_suspended. cbn [resume]. unfold after_countdown.
  rewrite registered_on_store. cbn [mbind option_bind].
  rewrite (put_on_store _ _ _ _ Hc). reflexivity.
Qed.

(** Every handler of the first part is the handler of this part run
    from the delivery of the event to its return with no other handler
    in between. *)
Theorem uninterrupted_is_step (m : DuelManager) (e : Event) :
  manager_inv m -> uninterrupted m e = step m e.
Proof.
  intros Hinv. unfold uninterrupted, step.
  destruct (creates_new_channel m e); [|reflexivity].
  destruct e as [a o r t c|a o1 o2 r t c|reaction|message];
    cbn [begin dispatch].
  - destruct (duel_start m a o r t c); reflexivity.
  - destruct (triple_duel_start m a o1 o2 r t c); reflexivity.
  - unfold on_reaction_add.
    destruct (Member.bot (user reaction)); [reflexivity|].
    apply handle_reaction_uninterrupted. exact Hinv.
  - unfold on_message.
    destruct (Member.bot (author message)); [reflexivity|].
    apply handle_message_uninterrupted. exact Hinv.
Qed.

Lemma finish_play (fuel : nat) (m m' : DuelManager) (task : option Task) :
  finish fuel (Some (m, task)) = Some m' ->
  exists k, play (mkWorld m (option_list task)) (replicate k (Resume 0))
            = Some (mkWorld m' []).
Proof.
  revert m task. induction fuel as [|fuel IH]; intros m [task|] H;
    try discriminate H.
  - injection H as ->. exists 0%nat. reflexivity.
  - cbn [finish] in H.
    destruct (resume m task) as [[m1 task1]|] eqn:Hr;
      [|rewrite finish_raised in H; discriminate H].
    destruct (IH _ _ H) as (k & Hk). exists (S k).
    cbn [replicate play]. unfold move.
    cbn [suspended manager].
    change (option_list (Some task)) with [task].
    change ([task] !! 0%nat) with (Some task).
    cbn [mbind option_bind]. rewrite Hr.
    cbn [mbind option_bind take drop app].
    rewrite app_nil_r. exact Hk.
  - injection H as ->. exists 0%nat. reflexivity.
Qed.

Lemma resume_rank (m m' : DuelManager) (task task' : Task) :
  resume m task = Some (m', Some task') -> (rank task' < rank task)%nat.
Proof.
  destruct task; cbn [resume];
    unfold after_ready_edit, after_countdown, after_delete, after_lookup,
      after_stage, after_penalty_notice, after_suspense, after_reveal,
      after_announcement, after_score_text, after_showdown, accept, penalty,
      all_check, end_duel_begin, add_to_history;
    intros H;
    repeat (try unfold mbind, option_bind in H; cbn beta iota in H;
            first [discriminate H | case_match]);
    simplify_eq; cbn [rank]; lia.
Qed.

Lemma play_finish (k : nat) :
  forall (m m' : DuelManager) (task : option Task) (fuel : nat),
    play (mkWorld m (option_list task)) (replicate k (Resume 0))
    = Some (mkWorld m' []) ->
    (from_option rank 0%nat task <= fuel)%nat ->
    finish fuel (Some (m, task)) = Some m'.
Proof.
  induction k as [|k IH]; intros m m' task fuel Hplay Hfuel.
  - cbn [replicate play] in Hplay. injection Hplay as -> Ht.
    destruct task; [discriminate Ht|]. apply finish_returned.
  - cbn [replicate play] in Hplay. unfold move in Hplay.
    cbn [suspended manager] in Hplay.
    destruct task as [task|]; [|discriminate Hplay].
    change (option_list (Some task)) with [task] in Hplay.
    change ([task] !! 0%nat) with (Some task) in Hplay.
    cbn [mbind option_bind] in Hplay.
    destruct (resume m task) as [[m1 task1]|] eqn:Hr; [|discriminate Hplay].
    cbn [mbind option_bind take drop app] in Hplay.
    rewrite app_nil_r in Hplay.
    cbn [from_option] in Hfuel.
    destruct fuel as [|fuel];
      [destruct task; cbn [rank] in Hfuel; lia|].
    rewrite finish_suspended, Hr.
    apply (IH _ _ _ _ Hplay).
    destruct task1 as [task1|]; cbn [from_option]; [|lia].
    pose proof (resume_rank _ _ _ _ Hr). lia.
Qed.

Lemma rank_bound (task : option Task) : (from_option rank 0 task <= 8)%nat.
Proof. destruct task as [[]|]; cbn [from_option rank]; lia. Qed.

Lemma alone_is_step (m m' : DuelManager) (e : Event) (n : nat) :
  manager_inv m ->
  play (mkWorld m []) (alone e n) = Some (mkWorld m' []) ->
  step m e = Some m'.
Proof.
  intros Hinv Hplay. rewrite <- (uninterrupted_is_step m e Hinv).
  unfold alone in Hplay. cbn [play] in Hplay. unfold move in Hplay.
  cbn [manager suspended] in Hplay. unfold uninterrupted.
  destruct (creates_new_channel m e); [|discriminate Hplay].
  destruct (begin m e) as [[m1 task]|]; [|discriminate Hplay].
  cbn [mbind option_bind app] in Hplay.
  apply (play_finish n); [exact Hplay|apply rank_bound].
Qed.

Lemma step_is_alone (m m' : DuelManager) (e : Event) :
  manager_inv m ->
  step m e = Some m' ->
  exists n, play (mkWorld m []) (alone e n) = Some (mkWorld m' []).
Proof.
  intros Hinv Hstep. rewrite <- (uninterrupted_is_step m e Hinv) in Hstep.
  unfold uninterrupted in Hstep.
  destruct (creates_new_channel m e) eqn:Hnew; [|discriminate Hstep].
  destruct (begin m e) as [[m1 task]|] eqn:Hb;
    [|rewrite finish_raised in Hstep; discriminate Hstep].
  destruct (finish_play _ _ _ _ Hstep) as (n & Hn).
  exists n. unfold alone. cbn [play]. unfold move.
  cbn [manager suspended]. rewrite Hnew, Hb.
  cbn [mbind option_bind app]. exact Hn.
Qed.

(** The managers of the first part, reached by handlers that run from
    their first line to their return, are the managers that the
    handlers cut at their awaits reach by the schedules that run them
    one at a time. *)
Theorem reachable_one_at_a_time (m : DuelManager) :
  reachable m
  <-> exists loaded events,
        play_alone (mkWorld (DuelManager_init loaded) []) events
        = Some (mkWorld m []).
Proof.
  split.
  - intros (loaded & events & Hrun). exists loaded.
    assert (G : forall m0,
               manager_inv m0 -> run m0 events = Some m ->
               exists blocks,
                 play_alone (mkWorld m0 []) blocks = Some (mkWorld m [])).
    { clear Hrun. induction events as [|e events IH]; intros m0 Hinv Hrun.
      - injection Hrun as ->. exists []. reflexivity.
      - cbn [run] in Hrun.
        destruct (step m0 e) as [m1|] eqn:Hstep; [|discriminate Hrun].
        cbn [mbind option_bind] in Hrun.
        destruct (IH m1 (step_inv _ _ _ Hinv Hstep) Hrun) as (blocks & Hb).
        destruct (step_is_alone _ _ _ Hinv Hstep) as (n & Hn).
        exists ((e, n) :: blocks). cbn [play_alone]. rewrite Hn.
        cbn [mbind option_bind suspended]. exact Hb. }
    apply G; [apply init_inv|exact Hrun].
  - intros (loaded & blocks & Hplay).
    exists loaded, (map fst blocks).
    assert (G : forall m0,
               manager_inv m0 ->
               play_alone (mkWorld m0 []) blocks = Some (mkWorld m []) ->
               run m0 (map fst blocks) = Some m).
    { clear Hplay. induction blocks as [|[e n] blocks IH];
        intros m0 Hinv Hplay.
      - injection Hplay as ->. reflexivity.
      - cbn [play_alone] in Hplay.
        destruct (play (mkWorld m0 []) (alone e n)) as [[m1 tasks]|] eqn:Hn;
          [|discriminate Hplay].
        cbn [mbind option_bind suspended] in Hplay.
        destruct tasks as [|task tasks]; [|discriminate Hplay].
        pose proof (alone_is_step _ _ _ _ Hinv Hn) as Hstep.
        cbn [map fst run]. rewrite Hstep. cbn [mbind option_bind].
        apply IH; [exact (step_inv _ _ _ Hinv Hstep)|exact Hplay]. }
    apply G; [apply init_inv|exact Hplay].
Qed.

(** C3: a duel goes on, and is scored, after a participant has reached
    the points needed to win.  In the best of 3 at one point each, the
    penalty of Ash's rejected selection brings Misty to 2 points and
    [end_duel] begins; it marks the duel as ended only after the
    showdown, and the penalty path has left both selection flags set.
    Misty's rejected selection, handled during the showdown, gives Ash
    a point of its own: the duel ends at 2 to 2, and each history holds
    two records of it, the first won by Misty, the second by Ash. *)
Theorem C3_scored_after_threshold :
  exists w1 w2 w3 d1 d2 d3,
    play start (one_point_each_way ++ ash_rejected) = Some w1
    /\ active_duels (manager w1) !! 100%Z = Some d1
    /\ scores d1 = [(1, 1); (2, 2)]%Z
    /\ needed_wins d1 = 2%Z
    /\ duel_ended d1 = false
    /\ selection_phase d1 && waiting_for_selection d1 = true
    /\ play w1 misty_rejected = Some w2
    /\ active_duels (manager w2) !! 100%Z = Some d2
    /\ scores d2 = [(1, 2); (2, 2)]%Z
    /\ play w2 showdowns_end = Some w3
    /\ suspended w3 = []
    /\ active_duels (manager w3) !! 100%Z = None
    /\ completed_duels (manager w3) !! 100%Z = Some d3
    /\ duel_ended d3 = true
    /\ scores d3 = [(1, 2); (2, 2)]%Z
    /\ map record_winner (get_player_history (manager w3) 1) = [2; 1]%Z
    /\ map record_winner (get_player_history (manager w3) 2) = [2; 1]%Z.
Proof.
  do 6 eexists.
  split; [vm_compute; reflexivity|].
  split; [vm_compute; reflexivity|].
  do 4 (split; [vm_compute; reflexivity|]).
  split; [vm_compute; reflexivity|].
  split; [vm_compute; reflexivity|].
  split; [vm_compute; reflexivity|].
  split; [vm_compute; reflexivity|].
  repeat split; vm_compute; reflexivity.
Qed.

(** C9: after a [history] command the next record replaces the newest
    one.  Ash's history holds 20 records, one a day from 1 to 20
    January, oldest first.  Ash asks for his history, which sorts the
    stored list newest first; then a duel of Ash ends on 21 January.
    The stored list is then the records of 19 January down to 1
    January followed by the new one: the record of 20 January is gone,
    the oldest is kept, and the list is not in the order of time. *)
Theorem C9_history_command_then_newest_dropped :
  exists m' record,
    get_player_history chronological_store 1 = twenty_days
    /\ duel_record fresh_pair_duel "2024-01-21T10:00:00" 1 [misty]
       = Some record
    /\ add_to_history (Main.duel_history chronological_store ash None).1
         fresh_pair_duel "2024-01-21T10:00:00" 1 [misty] = Some m'
    /\ get_player_history m' 1
       = map day_record
           [ "19"; "18"; "17"; "16"; "15"; "14"; "13"; "12"; "11"; "10";
             "09"; "08"; "07"; "06"; "05"; "04"; "03"; "02"; "01" ]%string
         ++ [record].
Proof.
  do 2 eexists.
  split; [reflexivity|].
  split; [vm_compute; reflexivity|].
  split; vm_compute; reflexivity.
Qed.

(** * Acknowledgments with the white check mark *)





(** X31: the same creature twice in one round.  In a '1st-evolution'
    duel Ash and Misty both select Pikachu.  Each validation tests the
    used-set and is then suspended in the request for the evolution
    stage; when Misty's begins, Ash's selection is not stored yet, and
    both have tested the empty set.  Both selections are accepted, and
    the round is played with Pikachu against Pikachu. *)
Theorem same_creature_twice_in_a_round :
  exists w1 w2 d a m,
    play start both_validating = Some w1
    /\ suspended w1 = [AtStage a pikachu ∅; AtStage m pikachu ∅]
    /\ author a = ash /\ author m = misty
    /\ play w1 both_validated = Some w2
    /\ registered (manager w2) 100 = Some d
    /\ map round_pokemon (round_history d) = [["Pikachu"; "Pikachu"]]%string
    /\ elements (used_pokemon d) = ["pikachu"%string].
Proof.
  do 5 eexists.
  split; [vm_compute; reflexivity|].
  split; [reflexivity|].
  split; [reflexivity|]. split; [reflexivity|].
  split; [vm_compute; reflexivity|].
  repeat split; vm_compute; reflexivity.
Qed.
